(** * Restaurant order lifecycle: POS, kitchen display and floor plan

    A shallow embedding of the order-handling code of the repository:

    - [POSModal]           (src/unnamed/part_001): cart, pricing,
      re-hydration of a table's open orders, send-to-kitchen, finalization
      with inventory deduction;
    - [RapidOrderModal]    (src/unnamed/part_003): cart, pricing,
      submit / append;
    - [FloorPlanPage]      (src/unnamed/part_002): the derived table status;
    - [KitchenDisplayPage] (components/kitchen/KitchenDisplayPage.tsx):
      single-item completion and bump-all.

    Conventions.  A JavaScript [number] holding money, a quantity or a rate
    is a canonical rational [Qc] (exact arithmetic: the rounding of IEEE
    doubles is outside the model).  The amount tendered at the POS, which
    the numpad sets with [parseFloat], is a [JsNumber]: a finite number,
    NaN or an infinity.  Array indices are
    [nat], clock readings are [N] (milliseconds) or [Z] (seconds).  An
    optional field is an [option].  The Firestore database is an explicit
    value of type [Firestore]; a handler is a function from the database it
    reads to the database it leaves behind, and a write batch is the list
    of its writes, committed all-or-nothing. *)

From Stdlib Require Import Ascii QArith Qcanon Qround Lqa Sorted.
From stdpp Require Import gmap strings list fin_maps pretty.

Open Scope Qc_scope.

(** ** Helpers for JavaScript idioms *)

(** [n # d] numerals of the model, e.g. [qc 7875 1000] for 7.875. *)
Definition qc (n : Z) (d : positive) : Qc := Q2Qc (Qmake n d).

(** Truthiness of a string, of an optional string and of a number. *)
Definition truthy_string (s : string) : bool :=
  match s with EmptyString => false | _ => true end.

Definition truthy_ostring (s : option string) : bool :=
  match s with Some s => truthy_string s | None => false end.

Definition truthy_number (x : Qc) : bool := negb (bool_decide (x = 0)).

(** [a || b] on an optional string with a string default. *)
Definition or_string (s : option string) (d : string) : string :=
  match s with
  | Some s => if truthy_string s then s else d
  | None => d
  end.

(** [Array.prototype.findIndex]; [None] stands for the result [-1]. *)
Fixpoint findIndex {A} (p : A → bool) (l : list A) : option nat :=
  match l with
  | [] => None
  | x :: l => if p x then Some 0%nat else S <$> findIndex p l
  end.

(** [Array.prototype.join]. *)
Fixpoint join (sep : string) (l : list string) : string :=
  match l with
  | [] => ""
  | [s] => s
  | s :: l => s +:+ sep +:+ join sep l
  end.

(** [Array.prototype.sort] without a comparator, on strings: ascending by
    code unit.  Any stable sort gives the same array; insertion sort is
    used here. *)
Fixpoint insert_string (s : string) (l : list string) : list string :=
  match l with
  | [] => [s]
  | t :: l' => if String.leb s t then s :: l else t :: insert_string s l'
  end.

Definition sort_strings (l : list string) : list string :=
  foldr insert_string [] l.

(** [s.replace(/\s/g, '')], for the white space of ASCII. *)
Definition is_space (a : ascii) : bool :=
  let n := nat_of_ascii a in
  bool_decide (n = 32 ∨ n = 9 ∨ n = 10 ∨ n = 11 ∨ n = 12 ∨ n = 13)%nat.

Fixpoint strip_spaces (s : string) : string :=
  match s with
  | EmptyString => EmptyString
  | String a s => if is_space a then strip_spaces s else String a (strip_spaces s)
  end.

(** [String.prototype.trim], for the white space of ASCII. *)
Fixpoint trimStart (s : string) : string :=
  match s with
  | EmptyString => EmptyString
  | String a s' => if is_space a then trimStart s' else s
  end.

Definition trim (s : string) : string :=
  String.rev (trimStart (String.rev (trimStart s))).

(** [String.prototype.toUpperCase], for the letters of ASCII. *)
Definition upper_ascii (a : ascii) : ascii :=
  let n := nat_of_ascii a in
  if bool_decide (97 ≤ n ≤ 122)%nat then ascii_of_nat (n - 32) else a.

Fixpoint toUpperCase (s : string) : string :=
  match s with
  | EmptyString => EmptyString
  | String a s => String (upper_ascii a) (toUpperCase s)
  end.

(** [Number.prototype.toFixed(3)] on an exact rational: the integer [n]
    with [n / 1000] closest to [x], the larger one on a tie; then the
    digits of [n] with a point before the last three. *)
Definition pad3 (n : N) : string :=
  let s := pretty n in
  match String.length s with
  | 1%nat => "00" +:+ s
  | 2%nat => "0" +:+ s
  | _ => s
  end.

Definition toFixed3_nonneg (x : Qc) : string :=
  let n := Z.to_N (Qfloor (x * qc 1000 1 + qc 1 2)) in
  pretty (n `div` 1000)%N +:+ "." +:+ pad3 (n `mod` 1000)%N.

Definition toFixed3 (x : Qc) : string :=
  if bool_decide (x < 0) then "-" +:+ toFixed3_nonneg (- x)
  else toFixed3_nonneg x.

(** [Math.ceil] and [Math.floor]. *)
Definition ceil (x : Qc) : Qc := Q2Qc (inject_Z (Qceiling x)).

Definition floor (x : Qc) : Qc := Q2Qc (inject_Z (Qfloor x)).

(** A JavaScript number: a finite number, held exactly, NaN, or an
    infinity. *)
Inductive JsNumber := Num (x : Qc) | NaN | Infinity (negative : bool).

#[global] Instance JsNumber_eq_dec : EqDecision JsNumber.
Proof. solve_decision. Defined.

(** [x - y], [x < y] and [x > y] for a number [x] and a finite number [y];
    a comparison with NaN is false. *)
Definition js_minus (x : JsNumber) (y : Qc) : JsNumber :=
  match x with
  | Num a => Num (a - y)
  | NaN => NaN
  | Infinity negative => Infinity negative
  end.

Definition js_lt (x : JsNumber) (y : Qc) : bool :=
  match x with
  | Num a => bool_decide (a < y)
  | NaN => false
  | Infinity negative => negative
  end.

Definition js_gt (x : JsNumber) (y : Qc) : bool :=
  match x with
  | Num a => bool_decide (y < a)
  | NaN => false
  | Infinity negative => negb negative
  end.

(** [Number.prototype.toFixed(3)] on a number. *)
Definition js_toFixed3 (x : JsNumber) : string :=
  match x with
  | Num a => toFixed3 a
  | NaN => "NaN"
  | Infinity negative => if negative then "-Infinity" else "Infinity"
  end.

(** [parseFloat]: after the leading white space (of ASCII) and an optional
    sign, the longest prefix that is "Infinity" or a decimal literal
    (digits, a point, digits, an exponent) is read; NaN when there is
    none.  The value is held exactly. *)
Definition is_digit (a : ascii) : bool :=
  let n := nat_of_ascii a in bool_decide (48 ≤ n ≤ 57)%nat.

(** The decimal digits a text starts with: their value after [acc], their
    number after [count], and the rest of the text. *)
Fixpoint read_digits (s : string) (acc : N) (count : nat) : N * nat * string :=
  match s with
  | String a s' =>
      if is_digit a
      then read_digits s' (acc * 10 + N.of_nat (nat_of_ascii a - 48))%N (S count)
      else (acc, count, s)
  | EmptyString => (acc, count, s)
  end.

Definition pow10 (e : Z) : Qc :=
  if bool_decide (0 ≤ e)%Z then qc (10 ^ e) 1 else 1 / qc (10 ^ (- e)) 1.

(** The exponent part a text starts with, if any: [e] or [E], an optional
    sign and at least one digit. *)
Definition read_exponent (s : string) : Z :=
  match s with
  | String a s' =>
      if bool_decide (a = "e"%char ∨ a = "E"%char) then
        let '(negative, s'') :=
          match s' with
          | String b t =>
              if bool_decide (b = "-"%char) then (true, t)
              else if bool_decide (b = "+"%char) then (false, t)
              else (false, s')
          | EmptyString => (false, s')
          end in
        let '(e, n, _) := read_digits s'' 0 0 in
        if bool_decide (n = 0)%nat then 0%Z
        else if negative then (- Z.of_N e)%Z else Z.of_N e
      else 0%Z
  | EmptyString => 0%Z
  end.

Definition parse_unsigned (s : string) : JsNumber :=
  if String.prefix "Infinity" s then Infinity false
  else
    let '(int, n1, rest) := read_digits s 0 0 in
    let '(frac, n2, rest) :=
      match rest with
      | String a rest' =>
          if bool_decide (a = "."%char) then read_digits rest' 0 0
          else (0%N, 0%nat, rest)
      | EmptyString => (0%N, 0%nat, rest)
      end in
    if bool_decide (n1 = 0 ∧ n2 = 0)%nat then NaN
    else Num ((qc (Z.of_N int) 1 + qc (Z.of_N frac) 1 * pow10 (- Z.of_nat n2))
              * pow10 (read_exponent rest)).

Definition parseFloat (s : string) : JsNumber :=
  match trimStart s with
  | String a s' =>
      if bool_decide (a = "+"%char) then parse_unsigned s'
      else if bool_decide (a = "-"%char) then
        match parse_unsigned s' with
        | Num x => Num (- x)
        | NaN => NaN
        | Infinity negative => Infinity (negb negative)
        end
      else parse_unsigned (String a s')
  | EmptyString => NaN
  end.

(** [String(x)] of a number whose text needs neither a fraction nor an
    exponent: a whole number below 10^21 in absolute value.  [None] for
    the other finite numbers, whose text is not modelled. *)
Definition numberText (x : JsNumber) : option string :=
  match x with
  | Num a =>
      let z := Qfloor a in
      if bool_decide (a = Q2Qc (inject_Z z) ∧ (Z.abs z < 10 ^ 21)%Z)
      then Some (if bool_decide (z < 0)%Z then "-" +:+ pretty (Z.to_N (- z))
                 else pretty (Z.to_N z))
      else None
  | NaN => Some "NaN"
  | Infinity negative => Some (if negative then "-Infinity" else "Infinity")
  end.

(** [Set.prototype.add] on a set kept as the list of its elements in
    insertion order. *)
Definition setAdd (x : Qc) (l : list Qc) : list Qc :=
  if bool_decide (x ∈ l) then l else l ++ [x].

(** ** Data model

    The declarations of types.ts are not among the sources.  The records
    below hold the fields the components read and write, named as the
    code names them (with a prefix where two records share a field name),
    and follow section 3 of the specification. *)

(** Modelled from the spec: [SelectedModifier] of types.ts, an option
    chosen at cart-build time with its price. *)
Record SelectedModifier := {
  optionName : string;
  optionPrice : Qc;
}.

(** Modelled from the spec: [CartItem] of types.ts; [cartItemId] is the key
    of the line, [ci_id] the menu item id. *)
Record CartItem := {
  cartItemId : string;
  ci_id : string;
  ci_name : string;
  basePrice : Qc;
  ci_quantity : Qc;
  ci_selectedModifiers : list SelectedModifier;
  ci_notes : option string;
}.

(** Modelled from the spec: [OrderItem] of types.ts, the persisted
    counterpart of a cart line; [oi_price] is base price plus modifier
    prices. *)
Record OrderItem := {
  oi_name : string;
  menuItemId : string;
  oi_price : Qc;
  oi_quantity : Qc;
  oi_selectedModifiers : option (list SelectedModifier);
  isCompleted : bool;
  oi_notes : option string;
  inventoryDeducted : option bool;
}.

(** Modelled from the spec: the statuses, types, payment methods and table
    statuses of types.ts; the floor plan page also queries the order status
    'Pending'. *)
Inductive OrderStatus := Pending | New | InProgress | Ready | Completed.
Inductive OrderType := DineIn | Takeaway.
Inductive PaymentMethod := cash | card | other.
Inductive TableStatus := available | seated | ordered | attention | needs_cleaning.

(** Modelled from the spec: [AppliedTax] of types.ts, the snapshot of a tax
    on an order; [rate] is in percent. *)
Record AppliedTax := {
  at_name : string;
  rate : Qc;
  amount : Qc;
}.

(** Modelled from the spec: an applied discount of types.ts; the Z report
    reads its [amount]. *)
Record AppliedDiscount := {
  promotionName : string;
  ad_amount : Qc;
}.

(** Modelled from the spec: [Tax] of types.ts. *)
Record Tax := {
  tax_id : string;
  tax_userId : string;
  tax_name : string;
  tax_rate : Qc;
  isDefault : bool;
}.

(** Modelled from the spec: [Order] of types.ts, without its document id;
    [o_createdAt] is [createdAt.seconds]. *)
Record Order := {
  o_items : list OrderItem;
  o_plateNumber : option string;
  o_subtotal : Qc;
  o_taxes : list AppliedTax;
  o_taxAmount : Qc;
  o_tip : Qc;
  o_platformFee : Qc;
  o_total : Qc;
  o_status : OrderStatus;
  o_createdAt : Z;
  o_userId : string;
  o_notes : option string;
  o_orderType : option OrderType;
  o_paymentMethod : option PaymentMethod;
  o_appliedDiscounts : list AppliedDiscount;
}.

(** Modelled from the spec: a recipe line of a menu item in types.ts. *)
Record RecipeItem := {
  ingredientId : string;
  ri_quantity : Qc;
  unit_ : string;
}.

(** Modelled from the spec: [MenuItem] of types.ts; of the modifier groups
    only their number is used. *)
Record MenuItem := {
  mi_id : string;
  mi_name : string;
  price : Qc;
  isAvailable : bool;
  recipe : option (list RecipeItem);
  modifierGroups : option (list string);
  stationName : option string;
  prepTimeMinutes : option Qc;
}.

(** Modelled from the spec: [Ingredient] of types.ts. *)
Record Ingredient := {
  ing_name : string;
  stock : Qc;
}.

(** Modelled from the spec: [FloorPlanTable] of types.ts; [t_status] is the
    stored manual status. *)
Record FloorPlanTable := {
  t_id : string;
  label : string;
  t_status : option TableStatus;
}.

(** Modelled from the spec: [FloorPlan] of types.ts, its tables. *)
Record FloorPlan := {
  fp_tables : list FloorPlanTable;
}.

(** Modelled from the spec: [RestaurantProfile] of types.ts, its applied
    tax ids. *)
Record RestaurantProfile := {
  appliedTaxIds : option (list string);
}.

#[global] Instance SelectedModifier_eq_dec : EqDecision SelectedModifier.
Proof. solve_decision. Defined.
#[global] Instance CartItem_eq_dec : EqDecision CartItem.
Proof. solve_decision. Defined.
#[global] Instance OrderItem_eq_dec : EqDecision OrderItem.
Proof. solve_decision. Defined.
#[global] Instance OrderStatus_eq_dec : EqDecision OrderStatus.
Proof. solve_decision. Defined.
#[global] Instance OrderType_eq_dec : EqDecision OrderType.
Proof. solve_decision. Defined.
#[global] Instance PaymentMethod_eq_dec : EqDecision PaymentMethod.
Proof. solve_decision. Defined.
#[global] Instance TableStatus_eq_dec : EqDecision TableStatus.
Proof. solve_decision. Defined.
#[global] Instance AppliedTax_eq_dec : EqDecision AppliedTax.
Proof. solve_decision. Defined.
#[global] Instance AppliedDiscount_eq_dec : EqDecision AppliedDiscount.
Proof. solve_decision. Defined.
#[global] Instance Order_eq_dec : EqDecision Order.
Proof. solve_decision. Defined.
#[global] Instance Ingredient_eq_dec : EqDecision Ingredient.
Proof. solve_decision. Defined.
#[global] Instance FloorPlanTable_eq_dec : EqDecision FloorPlanTable.
Proof. solve_decision. Defined.
#[global] Instance FloorPlan_eq_dec : EqDecision FloorPlan.
Proof. solve_decision. Defined.

(** ** The Firestore database

    Three collections, each a finite map from document id to document.
    [update] on a document that does not exist fails, and a batch commits
    all of its writes or none. *)

Record Firestore := {
  db_orders : gmap string Order;
  db_ingredients : gmap string Ingredient;
  db_floorPlans : gmap string FloorPlan;
}.

(** The fields an [update] of an order document names; [None] leaves the
    stored field alone. *)
Record OrderUpdate := {
  u_items : option (list OrderItem);
  u_subtotal : option Qc;
  u_taxes : option (list AppliedTax);
  u_taxAmount : option Qc;
  u_total : option Qc;
  u_status : option OrderStatus;
  u_paymentMethod : option PaymentMethod;
}.

Definition update_order (u : OrderUpdate) (o : Order) : Order :=
  {| o_items := default (o_items o) (u_items u);
     o_plateNumber := o_plateNumber o;
     o_subtotal := default (o_subtotal o) (u_subtotal u);
     o_taxes := default (o_taxes o) (u_taxes u);
     o_taxAmount := default (o_taxAmount o) (u_taxAmount u);
     o_tip := o_tip o;
     o_platformFee := o_platformFee o;
     o_total := default (o_total o) (u_total u);
     o_status := default (o_status o) (u_status u);
     o_createdAt := o_createdAt o;
     o_userId := o_userId o;
     o_notes := o_notes o;
     o_orderType := o_orderType o;
     o_paymentMethod :=
       match u_paymentMethod u with
       | Some pm => Some pm
       | None => o_paymentMethod o
       end;
     o_appliedDiscounts := o_appliedDiscounts o |}.

Inductive Write :=
  | SetOrder (id : string) (data : Order)
      (* batch.set(doc(orders, id), data) / addDoc *)
  | UpdateOrder (id : string) (u : OrderUpdate)
      (* batch.update(doc(orders, id), u) / updateDoc *)
  | IncrementStock (id : string) (delta : Qc)
      (* batch.update(doc(ingredients, id), { stock: increment(delta) }) *)
  | UpdateTables (id : string) (ts : list FloorPlanTable).
      (* batch.update(doc(floorPlans, id), { tables: ts }) *)

Definition with_orders (db : Firestore) (m : gmap string Order) : Firestore :=
  {| db_orders := m; db_ingredients := db_ingredients db;
     db_floorPlans := db_floorPlans db |}.

Definition with_ingredients (db : Firestore) (m : gmap string Ingredient)
  : Firestore :=
  {| db_orders := db_orders db; db_ingredients := m;
     db_floorPlans := db_floorPlans db |}.

Definition with_floorPlans (db : Firestore) (m : gmap string FloorPlan)
  : Firestore :=
  {| db_orders := db_orders db; db_ingredients := db_ingredients db;
     db_floorPlans := m |}.

Definition apply_write (db : Firestore) (w : Write) : option Firestore :=
  match w with
  | SetOrder id data => Some (with_orders db (<[id := data]> (db_orders db)))
  | UpdateOrder id u =>
      o ← db_orders db !! id;
      Some (with_orders db (<[id := update_order u o]> (db_orders db)))
  | IncrementStock id delta =>
      i ← db_ingredients db !! id;
      Some (with_ingredients db
              (<[id := {| ing_name := ing_name i; stock := stock i + delta |}]>
                 (db_ingredients db)))
  | UpdateTables id ts =>
      _ ← db_floorPlans db !! id;
      Some (with_floorPlans db (<[id := {| fp_tables := ts |}]> (db_floorPlans db)))
  end.

(** [batch.commit()]: [None] when the commit is rejected. *)
Fixpoint commit (db : Firestore) (batch : list Write) : option Firestore :=
  match batch with
  | [] => Some db
  | w :: batch => db' ← apply_write db w; commit db' batch
  end.

(** A handler awaits the commit inside [try]; a rejected commit is caught
    (an alert is shown) and the database is as it was. *)
Definition commit_or_keep (db : Firestore) (batch : list Write) : Firestore :=
  default db (commit db batch).

(** A query on the orders collection: the documents that pass the filter,
    each with its id, in ascending order of document id. *)
Fixpoint insertById (o : string * Order) (l : list (string * Order))
  : list (string * Order) :=
  match l with
  | [] => [o]
  | x :: l' => if String.leb o.1 x.1 then o :: l else x :: insertById o l'
  end.

Definition queryOrders (p : Order → bool) (db : Firestore) : list (string * Order) :=
  foldr insertById [] (List.filter (λ o, p o.2) (map_to_list (db_orders db))).

(** The key of a persisted line, as the re-hydration of [POSModal] builds it:
    [(item.selectedModifiers || []).map(m => m.optionName.replace(/\s/g, '')).sort().join('-')]. *)
Definition modifiersString (mods : option (list SelectedModifier)) : string :=
  join "-" (sort_strings (map (λ m, strip_spaces (optionName m)) (default [] mods))).

(** ** Numpad (src/components/DigiMate.tsx, lines 317-362)

    The keys of the pad and what a click on one does with the callbacks
    of the component that shows it. *)

Module Numpad.

Definition buttons : list string :=
  ["1"; "2"; "3"; "4"; "5"; "6"; "7"; "8"; "9"; "C"; "0"; "."].

Definition handleClick {State} (onInput : string → State) (onClear : State)
    (value : string) : State :=
  if bool_decide (value = "C") then onClear else onInput value.

End Numpad.

(** ** POSModal (src/unnamed/part_001) *)

Module POSModal.

Section Props.

(** The props of the component; [type], [tableNumber] and [orderIds] come
    from [context]. *)
Variable userId : string.
Variable type : OrderType.
Variable tableNumber : option string.
Variable orderIds : option (list string).
Variable allItems : list MenuItem.
Variable profile : option RestaurantProfile.

(** [orderIds && orderIds.length > 0] *)
Definition hasOrderIds : bool :=
  match orderIds with
  | Some (_ :: _) => true
  | _ => false
  end.

(** *** The re-hydration effect

    [onSnapshot] hands over the fetched orders; the cart is rebuilt from
    all their items.  [Date_now k] is the clock reading of the call of
    [Date.now()] made for the line pushed at position [k]. *)
Section Rehydration.

Variable Date_now : nat → N.

Definition rehydrateItem (combinedCart : list CartItem) (item : OrderItem)
  : list CartItem :=
  let cartItemId' := menuItemId item +:+ "-" +:+ modifiersString (oi_selectedModifiers item) in
  let existingItemIndex :=
    findIndex (λ ci, bool_decide (cartItemId ci = cartItemId' ∧ ci_notes ci = oi_notes item))
              combinedCart in
  match existingItemIndex with
  | Some i =>
      alter (λ ci, {| cartItemId := cartItemId ci; ci_id := ci_id ci;
                      ci_name := ci_name ci; basePrice := basePrice ci;
                      ci_quantity := ci_quantity ci + oi_quantity item;
                      ci_selectedModifiers := ci_selectedModifiers ci;
                      ci_notes := ci_notes ci |}) i combinedCart
  | None =>
      combinedCart ++
      [ {| cartItemId := cartItemId' +:+ "-" +:+ pretty (Date_now (length combinedCart));
           ci_id := menuItemId item;
           ci_name := oi_name item;
           basePrice :=
             match find (λ mi, bool_decide (mi_id mi = menuItemId item)) allItems with
             | Some mi => if truthy_number (price mi) then price mi else oi_price item
             | None => oi_price item
             end;
           ci_quantity := oi_quantity item;
           ci_selectedModifiers := default [] (oi_selectedModifiers item);
           ci_notes := oi_notes item |} ]
  end.

(** The cart set by the snapshot callback. *)
Definition rehydrate (fetchedOrders : list Order) : list CartItem :=
  fold_left (λ combinedCart order, fold_left rehydrateItem (o_items order) combinedCart)
            fetchedOrders [].

(** The order notes set by the snapshot callback: the distinct non-empty
    notes, in the order they are met, joined by ["; "]. *)
Definition rehydrateNotes (fetchedOrders : list Order) : string :=
  join "; "
    (fold_left (λ combinedNotes order,
                  match o_notes order with
                  | Some n => if truthy_string n && negb (bool_decide (n ∈ combinedNotes))
                              then combinedNotes ++ [n] else combinedNotes
                  | None => combinedNotes
                  end) fetchedOrders []).

End Rehydration.

(** *** Cart handlers ([setCart] with a function of the previous cart) *)

Definition handleAddToCart (item : CartItem) (prevCart : list CartItem)
  : list CartItem :=
  let existingItemIndex :=
    findIndex (λ cartItem, bool_decide (cartItemId cartItem = cartItemId item
                                        ∧ ci_notes cartItem = ci_notes item))
              prevCart in
  match existingItemIndex with
  | Some i =>
      alter (λ ci, {| cartItemId := cartItemId ci; ci_id := ci_id ci;
                      ci_name := ci_name ci; basePrice := basePrice ci;
                      ci_quantity := ci_quantity ci + ci_quantity item;
                      ci_selectedModifiers := ci_selectedModifiers ci;
                      ci_notes := ci_notes ci |}) i prevCart
  | None => prevCart ++ [item]
  end.

Definition handleUpdateQuantity (cartItemId' : string) (change : Qc)
    (prevCart : list CartItem) : list CartItem :=
  match findIndex (λ item, bool_decide (cartItemId item = cartItemId')) prevCart with
  | None => prevCart
  | Some itemIndex =>
      match prevCart !! itemIndex with
      | None => prevCart
      | Some it =>
          let newQuantity := ci_quantity it + change in
          if bool_decide (newQuantity ≤ 0) then delete itemIndex prevCart
          else <[itemIndex := {| cartItemId := cartItemId it; ci_id := ci_id it;
                                 ci_name := ci_name it; basePrice := basePrice it;
                                 ci_quantity := newQuantity;
                                 ci_selectedModifiers := ci_selectedModifiers it;
                                 ci_notes := ci_notes it |}]> prevCart
      end
  end.

Definition handleNoteChange (cartItemId' : string) (note : string)
    (prevCart : list CartItem) : list CartItem :=
  map (λ item, if bool_decide (cartItemId item = cartItemId')
               then {| cartItemId := cartItemId item; ci_id := ci_id item;
                       ci_name := ci_name item; basePrice := basePrice item;
                       ci_quantity := ci_quantity item;
                       ci_selectedModifiers := ci_selectedModifiers item;
                       ci_notes := Some note |}
               else item) prevCart.

(** A quick note is appended to the note of the lines with that id,
    after ", " when there already is a note. *)
Definition handleQuickNote (cartItemId' : string) (noteText : string)
    (prevCart : list CartItem) : list CartItem :=
  map (λ item, if bool_decide (cartItemId item = cartItemId')
               then {| cartItemId := cartItemId item; ci_id := ci_id item;
                       ci_name := ci_name item; basePrice := basePrice item;
                       ci_quantity := ci_quantity item;
                       ci_selectedModifiers := ci_selectedModifiers item;
                       ci_notes :=
                         Some ((if truthy_ostring (ci_notes item)
                                then default "" (ci_notes item) +:+ ", " else "")
                               +:+ noteText) |}
               else item) prevCart.

(** A tap on a menu item at clock reading [now].  An item with modifier
    groups opens the detail dialog and leaves the cart alone. *)
Definition handleSelectItem (now : N) (item : MenuItem)
    (prevCart : list CartItem) : list CartItem :=
  let hasModifiers :=
    match modifierGroups item with
    | Some (_ :: _) => true
    | _ => false
    end in
  if hasModifiers then prevCart
  else
    handleAddToCart
      {| cartItemId := mi_id item +:+ "-" +:+ pretty now;
         ci_id := mi_id item;
         ci_name := mi_name item;
         basePrice := price item;
         ci_quantity := 1;
         ci_selectedModifiers := [];
         ci_notes := None |} prevCart.

(** *** The amount tendered

    The state [tenderedAmount] is a number or the empty string ([None]).
    The numpad sets it with [parseFloat], so the number can be NaN. *)

(** [String(prev)]; [None] where the text of the number is not modelled. *)
Definition tenderText (prev : option JsNumber) : option string :=
  match prev with
  | None => Some ""
  | Some x => numberText x
  end.

(** [onInput]: [setTenderedAmount(prev => parseFloat(String(prev) + v))].
    The outer [None] says that the text of [prev] is not modelled. *)
Definition onInput (v : string) (prev : option JsNumber) : option (option JsNumber) :=
  text ← tenderText prev;
  Some (Some (parseFloat (text +:+ v))).

(** [onClear]: [setTenderedAmount('')]. *)
Definition onClear : option (option JsNumber) := Some None.

(** [onBackspace]: [String(prev).slice(0, -1) === '' ? ''
      : parseFloat(String(prev).slice(0, -1))]. *)
Definition onBackspace (prev : option JsNumber) : option (option JsNumber) :=
  text ← tenderText prev;
  let shorter := String.substring 0 (String.length text - 1) text in
  Some (if bool_decide (shorter = "") then None else Some (parseFloat shorter)).

(** A click on a key of the numpad. *)
Definition numpadClick (value : string) (prev : option JsNumber)
  : option (option JsNumber) :=
  Numpad.handleClick (λ v, onInput v prev) onClear value.

(** *** One render: the state the handlers close over *)
Section Render.

Variable cart : list CartItem.
Variable taxes : list Tax.
Variable identifier : string.
Variable paymentMethod : PaymentMethod.
Variable tenderedAmount : option JsNumber.     (* [None] is the empty string *)
Variable orderNotes : string.
Variable loading : bool.

Definition subtotal : Qc :=
  fold_left (λ sum item,
               sum + (basePrice item
                      + fold_left (λ p c, p + optionPrice c) (ci_selectedModifiers item) 0)
                     * ci_quantity item) cart 0.

(** [(profile?.appliedTaxIds || []).map(taxId => taxes.find(...))
      .filter(Boolean).map(t => ({ name, rate, amount: s * (rate / 100) }))]
    at a subtotal [s]. *)
Definition appliedTaxesAt (s : Qc) : list AppliedTax :=
  map (λ t, {| at_name := tax_name t; rate := tax_rate t;
               amount := s * (tax_rate t / qc 100 1) |})
      (omap (λ taxId, find (λ t, bool_decide (tax_id t = taxId)) taxes)
            (default [] (profile ≫= appliedTaxIds))).

Definition appliedTaxes : list AppliedTax := appliedTaxesAt subtotal.

Definition taxAmount : Qc :=
  fold_left (λ sum t, sum + amount t) appliedTaxes 0.

Definition total : Qc := subtotal + taxAmount.

(** [typeof tenderedAmount === 'number' ? tenderedAmount - total : 0] *)
Definition changeDue : JsNumber :=
  match tenderedAmount with
  | Some tendered => js_minus tendered total
  | None => Num 0
  end.

(** The text shown after the change-due label:
    [changeDue > 0 ? changeDue.toFixed(3) : '0.000']. *)
Definition changeDueShown : string :=
  if js_gt changeDue 0 then js_toFixed3 changeDue else "0.000".

(** The [disabled] attribute of the complete-order button. *)
Definition finalizeDisabled : bool :=
  loading ||
  (bool_decide (paymentMethod = cash) &&
   match tenderedAmount with
   | None => true
   | Some tendered => js_lt tendered total
   end).

(** *** Send to kitchen *)

(** The guard both handlers start with:
    [cart.length === 0 || (type === 'takeaway' && !identifier)]. *)
Definition nothingToSend : bool :=
  bool_decide (cart = []) ||
  (bool_decide (type = Takeaway) && negb (truthy_string identifier)).

Definition kitchenOrderItems : list OrderItem :=
  map (λ cartItem,
         {| oi_name := ci_name cartItem;
            menuItemId := ci_id cartItem;
            oi_price := basePrice cartItem
                        + fold_left (λ p c, p + optionPrice c)
                                    (ci_selectedModifiers cartItem) 0;
            oi_quantity := ci_quantity cartItem;
            oi_selectedModifiers := Some (ci_selectedModifiers cartItem);
            isCompleted := false;
            oi_notes := Some (or_string (ci_notes cartItem) "");
            inventoryDeducted := None |}) cart.

(** The update written to the first order of [orderIds]. *)
Definition appendUpdate (existingOrder : Order) : OrderUpdate :=
  let combinedItems := o_items existingOrder ++ kitchenOrderItems in
  let newSubtotal :=
    fold_left (λ acc item, acc + oi_price item * oi_quantity item) combinedItems 0 in
  let newAppliedTaxes := appliedTaxesAt newSubtotal in
  let newTaxAmount := fold_left (λ sum t, sum + amount t) newAppliedTaxes 0 in
  let newTotal := newSubtotal + newTaxAmount + o_tip existingOrder in
  {| u_items := Some combinedItems; u_subtotal := Some newSubtotal;
     u_taxes := Some newAppliedTaxes; u_taxAmount := Some newTaxAmount;
     u_total := Some newTotal; u_status := Some InProgress;
     u_paymentMethod := None |}.

Definition newKitchenOrder (now : Z) : Order :=
  {| o_items := kitchenOrderItems; o_plateNumber := Some identifier;
     o_subtotal := subtotal; o_taxes := appliedTaxes; o_taxAmount := taxAmount;
     o_tip := 0; o_platformFee := 0; o_total := total; o_status := New;
     o_createdAt := now; o_userId := userId;
     o_notes := Some (trim orderNotes);
     o_orderType := Some type; o_paymentMethod := None;
     o_appliedDiscounts := [] |}.

(** [floorPlan.tables.map(table => table.label === tableNumber
      ? { ...table, status } : table)] *)
Definition markTables (st : TableStatus) (ts : list FloorPlanTable)
  : list FloorPlanTable :=
  map (λ table, if bool_decide (Some (label table) = tableNumber)
                then {| t_id := t_id table; label := label table;
                        t_status := Some st |}
                else table) ts.

(** The batch [handleSendToKitchen] builds from the database [db];
    [newOrderId] is the id Firestore generates for a new document and
    [now] the reading of [Timestamp.now()]. *)
Definition sendToKitchenBatch (db : Firestore) (newOrderId : string) (now : Z)
  : list Write :=
  match orderIds with
  | Some (orderId :: _) =>
      (* appending to the first order of [orderIds] *)
      match db_orders db !! orderId with
      | Some existingOrder => [UpdateOrder orderId (appendUpdate existingOrder)]
      | None => []
      end
  | _ => [SetOrder newOrderId (newKitchenOrder now)]
  end
  ++
  (if bool_decide (type = DineIn) && negb hasOrderIds && truthy_ostring tableNumber then
     match db_floorPlans db !! userId with
     | Some floorPlan => [UpdateTables userId (markTables ordered (fp_tables floorPlan))]
     | None => []
     end
   else []).

Definition handleSendToKitchen (db : Firestore) (newOrderId : string) (now : Z)
  : Firestore :=
  if nothingToSend then db
  else commit_or_keep db (sendToKitchenBatch db newOrderId now).

(** *** Finalization and inventory deduction *)

(** The order items as first built: completed, not yet deducted. *)
Definition finalOrderItems : list OrderItem :=
  map (λ cartItem,
         {| oi_name := ci_name cartItem;
            menuItemId := ci_id cartItem;
            oi_price := basePrice cartItem
                        + fold_left (λ p c, p + optionPrice c)
                                    (ci_selectedModifiers cartItem) 0;
            oi_quantity := ci_quantity cartItem;
            oi_selectedModifiers := Some (ci_selectedModifiers cartItem);
            isCompleted := true;
            oi_notes := Some (or_string (ci_notes cartItem) "");
            inventoryDeducted := Some false |}) cart.

(** One turn of the [orderItems.forEach] loop on the map [deductions]. *)
Definition deductItem (deductions : gmap string Qc) (orderItem : OrderItem)
  : gmap string Qc :=
  match find (λ mi, bool_decide (mi_id mi = menuItemId orderItem)) allItems with
  | Some menuItem =>
      fold_left (λ (d : gmap string Qc) recipeItem,
                   let totalDeduction := ri_quantity recipeItem * oi_quantity orderItem in
                   <[ingredientId recipeItem :=
                       default 0 (d !! ingredientId recipeItem) + totalDeduction]> d)
                (default [] (recipe menuItem)) deductions
  | None => deductions
  end.

Definition deductions : gmap string Qc :=
  fold_left deductItem finalOrderItems ∅.

(** The order items after the loop has set [inventoryDeducted = true]
    on each of them. *)
Definition deductedOrderItems : list OrderItem :=
  map (λ orderItem,
         {| oi_name := oi_name orderItem; menuItemId := menuItemId orderItem;
            oi_price := oi_price orderItem; oi_quantity := oi_quantity orderItem;
            oi_selectedModifiers := oi_selectedModifiers orderItem;
            isCompleted := isCompleted orderItem; oi_notes := oi_notes orderItem;
            inventoryDeducted := Some true |}) finalOrderItems.

Definition newFinalOrder (now : Z) : Order :=
  {| o_items := deductedOrderItems; o_plateNumber := Some identifier;
     o_subtotal := subtotal; o_taxes := appliedTaxes; o_taxAmount := taxAmount;
     o_tip := 0; o_platformFee := 0; o_total := total; o_status := Completed;
     o_createdAt := now; o_userId := userId;
     o_notes := Some (trim orderNotes);
     o_orderType := Some type; o_paymentMethod := Some paymentMethod;
     o_appliedDiscounts := [] |}.

Definition completedUpdate : OrderUpdate :=
  {| u_items := None; u_subtotal := None; u_taxes := None; u_taxAmount := None;
     u_total := None; u_status := Some Completed;
     u_paymentMethod := Some paymentMethod |}.

(** The batch [handleFinalizeOrder] builds: one stock decrement per
    ingredient of [deductions], then the order and table writes. *)
Definition finalizeBatch (db : Firestore) (newOrderId : string) (now : Z)
  : list Write :=
  map (λ '(ingredientId, quantity), IncrementStock ingredientId (- quantity))
      (map_to_list deductions)
  ++
  (if hasOrderIds then
     map (λ orderId, UpdateOrder orderId completedUpdate) (default [] orderIds)
     ++
     (if truthy_ostring tableNumber then
        match db_floorPlans db !! userId with
        | Some floorPlan =>
            [UpdateTables userId (markTables needs_cleaning (fp_tables floorPlan))]
        | None => []
        end
      else [])
   else [SetOrder newOrderId (newFinalOrder now)]).

Definition handleFinalizeOrder (db : Firestore) (newOrderId : string) (now : Z)
  : Firestore :=
  if nothingToSend then db
  else commit_or_keep db (finalizeBatch db newOrderId now).

(** A click on the complete-order button: a disabled button does not
    call its handler. *)
Definition clickFinalize (db : Firestore) (newOrderId : string) (now : Z)
  : Firestore :=
  if finalizeDisabled then db else handleFinalizeOrder db newOrderId now.

(** *** Quick cash suggestions *)

(** The amounts offered as tender: the total rounded up to a whole unit,
    to a multiple of 5 and to a multiple of 10, each added to a set when
    it exceeds the one before; at most three. *)
Definition quickCashOptions : list Qc :=
  if bool_decide (total ≤ 0) then []
  else
    let nextWhole := ceil total in
    let next5 := ceil (total / qc 5 1) * qc 5 1 in
    let next10 := ceil (total / qc 10 1) * qc 10 1 in
    let options := [nextWhole] in
    let options := if bool_decide (nextWhole < next5) then setAdd next5 options
                   else options in
    let options := if bool_decide (next5 < next10) then setAdd next10 options
                   else options in
    take 3 options.

End Render.

End Props.

End POSModal.

(** ** RapidOrderModal (src/unnamed/part_003) *)

Module RapidOrderModal.

Section Props.

Variable restaurantId : string.
Variable type : OrderType.
Variable tableNumber : option string.
Variable orderIdToAppend : option string.
Variable allItems : list MenuItem.

Definition handleAddToCart (item : CartItem) (prevCart : list CartItem)
  : list CartItem :=
  let existingItemIndex :=
    findIndex (λ cartItem, bool_decide (cartItemId cartItem = cartItemId item
                                        ∧ ci_notes cartItem = ci_notes item))
              prevCart in
  match existingItemIndex with
  | Some i =>
      alter (λ ci, {| cartItemId := cartItemId ci; ci_id := ci_id ci;
                      ci_name := ci_name ci; basePrice := basePrice ci;
                      ci_quantity := ci_quantity ci + ci_quantity item;
                      ci_selectedModifiers := ci_selectedModifiers ci;
                      ci_notes := ci_notes ci |}) i prevCart
  | None => prevCart ++ [item]
  end.

(** Here the key of an item without modifiers is its menu item id. *)
Definition handleSelectItem (item : MenuItem) (prevCart : list CartItem)
  : list CartItem :=
  match modifierGroups item with
  | Some (_ :: _) => prevCart
  | _ =>
      handleAddToCart
        {| cartItemId := mi_id item;
           ci_id := mi_id item;
           ci_name := mi_name item;
           basePrice := price item;
           ci_quantity := 1;
           ci_selectedModifiers := [];
           ci_notes := None |} prevCart
  end.

Definition handleUpdateQuantity (cartItemId' : string) (change : Qc)
    (prevCart : list CartItem) : list CartItem :=
  match findIndex (λ item, bool_decide (cartItemId item = cartItemId')) prevCart with
  | None => prevCart
  | Some itemIndex =>
      match prevCart !! itemIndex with
      | None => prevCart
      | Some it =>
          let newQuantity := ci_quantity it + change in
          if bool_decide (newQuantity ≤ 0) then delete itemIndex prevCart
          else <[itemIndex := {| cartItemId := cartItemId it; ci_id := ci_id it;
                                 ci_name := ci_name it; basePrice := basePrice it;
                                 ci_quantity := newQuantity;
                                 ci_selectedModifiers := ci_selectedModifiers it;
                                 ci_notes := ci_notes it |}]> prevCart
      end
  end.

Definition handleNoteChange (cartItemId' : string) (note : string)
    (prevCart : list CartItem) : list CartItem :=
  map (λ item, if bool_decide (cartItemId item = cartItemId')
               then {| cartItemId := cartItemId item; ci_id := ci_id item;
                       ci_name := ci_name item; basePrice := basePrice item;
                       ci_quantity := ci_quantity item;
                       ci_selectedModifiers := ci_selectedModifiers item;
                       ci_notes := Some note |}
               else item) prevCart.

Section Render.

Variable cart : list CartItem.
Variable taxes : list Tax.
Variable profile : option RestaurantProfile.
Variable identifier : string.
Variable paymentMethod : PaymentMethod.
Variable tenderedAmount : option Qc.
Variable orderNotes : string.
Variable loading : bool.

Definition subtotal : Qc :=
  fold_left (λ sum item,
               sum + (basePrice item
                      + fold_left (λ p c, p + optionPrice c) (ci_selectedModifiers item) 0)
                     * ci_quantity item) cart 0.

(** [taxes.filter(t => profile.appliedTaxIds.includes(t.id))
      .map(t => ({ name, rate, amount: s * (rate / 100) }))], and the
    empty list without a profile or without [appliedTaxIds]. *)
Definition appliedTaxesAt (s : Qc) : list AppliedTax :=
  match profile ≫= appliedTaxIds with
  | None => []
  | Some ids =>
      map (λ t, {| at_name := tax_name t; rate := tax_rate t;
                   amount := s * (tax_rate t / qc 100 1) |})
          (List.filter (λ t, bool_decide (tax_id t ∈ ids)) taxes)
  end.

Definition appliedTaxes : list AppliedTax := appliedTaxesAt subtotal.

Definition taxAmount : Qc :=
  fold_left (λ sum t, sum + amount t) appliedTaxes 0.

Definition total : Qc := subtotal + taxAmount.

Definition changeDue : Qc := default 0 tenderedAmount - total.

Definition submitOrderItems : list OrderItem :=
  map (λ cartItem,
         {| oi_name := ci_name cartItem;
            menuItemId := ci_id cartItem;
            oi_price := basePrice cartItem
                        + fold_left (λ p c, p + optionPrice c)
                                    (ci_selectedModifiers cartItem) 0;
            oi_quantity := ci_quantity cartItem;
            oi_selectedModifiers := Some (ci_selectedModifiers cartItem);
            isCompleted := false;
            oi_notes := if truthy_ostring (ci_notes cartItem)
                        then ci_notes cartItem else None;
            inventoryDeducted := None |}) cart.

Definition appendUpdate (existingOrder : Order) : OrderUpdate :=
  let combinedItems := o_items existingOrder ++ submitOrderItems in
  let newSubtotal :=
    fold_left (λ acc item, acc + oi_price item * oi_quantity item) combinedItems 0 in
  let newAppliedTaxes := appliedTaxesAt newSubtotal in
  let newTaxAmount := fold_left (λ sum t, sum + amount t) newAppliedTaxes 0 in
  let newTotal := newSubtotal + newTaxAmount + o_tip existingOrder in
  {| u_items := Some combinedItems; u_subtotal := Some newSubtotal;
     u_taxes := Some newAppliedTaxes; u_taxAmount := Some newTaxAmount;
     u_total := Some newTotal; u_status := None; u_paymentMethod := None |}.

Definition newOrderData (now : Z) : Order :=
  {| o_items := submitOrderItems; o_plateNumber := Some identifier;
     o_subtotal := subtotal; o_taxes := appliedTaxes; o_taxAmount := taxAmount;
     o_tip := 0; o_platformFee := 0; o_total := total; o_status := New;
     o_createdAt := now; o_userId := restaurantId;
     o_notes := Some (trim orderNotes);
     o_orderType := Some type; o_paymentMethod := Some paymentMethod;
     o_appliedDiscounts := [] |}.

Definition handleSubmitOrder (db : Firestore) (newOrderId : string) (now : Z)
  : Firestore :=
  if bool_decide (cart = []) ||
     (bool_decide (type = Takeaway) && negb (truthy_string identifier))
  then db
  else
    match orderIdToAppend with
    | Some (String _ _ as orderId) =>
        (* [orderIdToAppend] is truthy: append to that order *)
        match db_orders db !! orderId with
        | Some existingOrder =>
            commit_or_keep db [UpdateOrder orderId (appendUpdate existingOrder)]
        | None => db
        end
    | _ => commit_or_keep db [SetOrder newOrderId (newOrderData now)]
    end.

Definition quickCashOptions : list Qc :=
  if bool_decide (total ≤ 0) then []
  else
    let nextWhole := ceil total in
    let next5 := ceil (total / qc 5 1) * qc 5 1 in
    let next10 := ceil (total / qc 10 1) * qc 10 1 in
    let options := [nextWhole] in
    let options := if bool_decide (nextWhole < next5) then setAdd next5 options
                   else options in
    let options := if bool_decide (next5 < next10) then setAdd next10 options
                   else options in
    take 3 options.

(** The [disabled] attribute of the complete-order button, and a click on
    it. *)
Definition submitDisabled : bool :=
  loading ||
  (bool_decide (paymentMethod = cash) &&
   match tenderedAmount with
   | None => true
   | Some tendered => bool_decide (tendered < total)
   end).

Definition clickSubmit (db : Firestore) (newOrderId : string) (now : Z) : Firestore :=
  if submitDisabled then db else handleSubmitOrder db newOrderId now.

End Render.

End Props.

End RapidOrderModal.

(** ** FloorPlanPage (src/unnamed/part_002) *)

Module FloorPlanPage.

(** A table of the live view: the stored table, its derived status and
    its open orders (each with its document id). *)
Record TableWithStatus := {
  tws_table : FloorPlanTable;
  tws_status : TableStatus;
  tws_orders : list (string * Order);
}.

(** One turn of [orders.forEach] on the map [ordersByTable]. *)
Definition addOrderByTable (m : gmap string (list (string * Order)))
    (order : string * Order) : gmap string (list (string * Order)) :=
  match o_plateNumber order.2 with
  | Some plate =>
      if truthy_string plate && negb (bool_decide (o_orderType order.2 = Some Takeaway))
      then
        let plateKey := toUpperCase plate in
        let m' := if bool_decide (is_Some (m !! plateKey)) then m
                  else <[plateKey := []]> m in
        alter (λ l, l ++ [order]) plateKey m'
      else m
  | None => m
  end.

Definition ordersByTable (orders : list (string * Order))
  : gmap string (list (string * Order)) :=
  fold_left addOrderByTable orders ∅.

(** [tableOrders.sort((a, b) => a.createdAt.seconds - b.createdAt.seconds)]:
    a stable sort, oldest order first. *)
Fixpoint insertByCreatedAt (o : string * Order) (l : list (string * Order))
  : list (string * Order) :=
  match l with
  | [] => [o]
  | x :: l' =>
      if bool_decide (o_createdAt x.2 < o_createdAt o.2)%Z
      then x :: insertByCreatedAt o l' else o :: l
  end.

Definition sortByCreatedAt (l : list (string * Order)) : list (string * Order) :=
  foldr insertByCreatedAt [] l.

Definition deriveStatus (table : FloorPlanTable) (tableOrders : list (string * Order))
  : TableStatus :=
  if bool_decide (t_status table = Some needs_cleaning) then needs_cleaning
  else if bool_decide (0 < length tableOrders)%nat then
    let hasReadyOrder := existsb (λ o, bool_decide (o_status o.2 = Ready)) tableOrders in
    let hasActiveOrder :=
      existsb (λ o, bool_decide (o_status o.2 = InProgress)
                    || bool_decide (o_status o.2 = New)) tableOrders in
    if hasReadyOrder then attention
    else if hasActiveOrder then ordered
    else available
  else if bool_decide (t_status table = Some seated) then seated
  else available.

Definition tablesWithStatus (floorPlan : option FloorPlan)
    (orders : list (string * Order)) : list TableWithStatus :=
  match floorPlan with
  | None => []
  | Some floorPlan =>
      let byTable := ordersByTable orders in
      map (λ table,
             let tableOrders :=
               sortByCreatedAt (default [] (byTable !! toUpperCase (label table))) in
             {| tws_table := table;
                tws_status := deriveStatus table tableOrders;
                tws_orders := tableOrders |})
          (fp_tables floorPlan)
  end.

(** The query of the page: the tenant's orders whose status is one of
    ['Pending', 'New', 'In Progress', 'Ready']. *)
Definition activeOrders (userId' : string) (db : Firestore) : list (string * Order) :=
  queryOrders (λ o, bool_decide (o_userId o = userId')
                    && bool_decide (o_status o ∈ [Pending; New; InProgress; Ready])) db.

(** *** Occupancy, table selection and manual status *)

(** [{ filled, total }]: the tables shown as seated, ordered or attention,
    and all tables. *)
Definition occupancy (tws : list TableWithStatus) : nat * nat :=
  (length (List.filter (λ t, bool_decide (tws_status t = seated)
                             || bool_decide (tws_status t = ordered)
                             || bool_decide (tws_status t = attention)) tws),
   length tws).

(** The sum of the totals of the fetched orders whose plate number is the
    label of a table of the plan, up to case. *)
Definition liveRevenue (floorPlan : option FloorPlan) (orders : list (string * Order))
  : Qc :=
  fold_left (λ acc order,
               let tableOnPlan :=
                 floorPlan ≫= λ fp,
                   find (λ t, bool_decide (Some (toUpperCase (label t))
                                           = toUpperCase <$> o_plateNumber order.2))
                        (fp_tables fp) in
               match tableOnPlan with
               | Some _ => acc + o_total order.2
               | None => acc
               end) orders 0.

(** Modelled from the spec: the staff roles of types.ts, as the security
    rules of the repository name them. *)
Inductive Role := admin | manager | front_of_house | kitchen_staff.

#[global] Instance Role_eq_dec : EqDecision Role.
Proof. solve_decision. Defined.

(** [floorPlan.tables.map(t => t.id === tableId ? { ...t, status } : t)],
    written to the floor plan document [floorPlanId] (the [id] of the plan
    held by the page). *)
Definition handleUpdateTableStatus (floorPlan : option FloorPlan) (floorPlanId : string)
    (tableId : string) (status : TableStatus) (db : Firestore) : Firestore :=
  match floorPlan with
  | None => db
  | Some fp =>
      let newTables :=
        map (λ t, if bool_decide (t_id t = tableId)
                  then {| t_id := t_id t; label := label t; t_status := Some status |}
                  else t) (fp_tables fp) in
      commit_or_keep db [UpdateTables floorPlanId newTables]
  end.

(** What selecting a table of the live view leads to. *)
Inductive Selection :=
  | Nothing
  | OpenPOS (tableNumber : string) (orderIds : list string).

(** [handleSelectTable]: kitchen staff cannot select; a table that needs
    cleaning is set to available once the prompt is confirmed; any other
    table opens the POS on its label and the ids of its orders. *)
Definition handleSelectTable (role : option Role) (confirmed : bool)
    (floorPlan : option FloorPlan) (floorPlanId : string) (table : TableWithStatus)
    (db : Firestore) : Firestore * Selection :=
  if bool_decide (role = Some kitchen_staff) then (db, Nothing)
  else if bool_decide (tws_status table = needs_cleaning) then
    (if confirmed
     then handleUpdateTableStatus floorPlan floorPlanId (t_id (tws_table table)) available db
     else db, Nothing)
  else (db, OpenPOS (label (tws_table table)) (map fst (tws_orders table))).

(** [handleSaveLayout]: the tables are stored without their status, by a
    [setDoc] with merge, which also creates the document; after the write
    the page takes the plan as it was handed over, statuses included
    ([setFloorPlan(newPlan)]).  The result is the database and the
    [floorPlan] state of the page. *)
Definition handleSaveLayout (newPlanId : string) (newPlan : FloorPlan) (db : Firestore)
  : Firestore * option FloorPlan :=
  let tablesToSave :=
    map (λ t, {| t_id := t_id t; label := label t; t_status := None |}) (fp_tables newPlan) in
  (with_floorPlans db (<[newPlanId := {| fp_tables := tablesToSave |}]> (db_floorPlans db)),
   Some newPlan).

(** The tables of the live view for the state the two listeners of the
    page deliver from a database: the floor plan document of the tenant
    and the tenant's active orders. *)
Definition liveTables (userId' : string) (db : Firestore)
  : list TableWithStatus :=
  tablesWithStatus (db_floorPlans db !! userId')
    (activeOrders userId' db).

End FloorPlanPage.

(** ** KitchenDisplayPage *)

Module KitchenDisplayPage.

(** Modelled from the spec: [KDSIndividualOrder] and [KDSItemSummary] of
    types.ts, one occurrence of a dish and the group of a dish. *)
Record KDSIndividualOrder := {
  orderId : string;
  itemIndex : nat;
  kds_plateNumber : option string;
  kds_quantity : Qc;
  kds_createdAt : Z;
  kds_prepTimeMinutes : option Qc;
  orderStatus : OrderStatus;
  kds_notes : option string;
  kds_selectedModifiers : option (list SelectedModifier);
}.

Record KDSItemSummary := {
  kds_menuItemId : string;
  itemName : string;
  kds_modifiersString : string;
  uniqueKey : string;
  totalQuantity : Qc;
  individualOrders : list KDSIndividualOrder;
}.

#[global] Instance KDSIndividualOrder_eq_dec : EqDecision KDSIndividualOrder.
Proof. solve_decision. Defined.
#[global] Instance KDSItemSummary_eq_dec : EqDecision KDSItemSummary.
Proof. solve_decision. Defined.

(** *** The aggregated work queue ([itemSummaries])

    [orders] is the live set of the tenant's orders with status New or In
    Progress, each with its document id; [summaries] is the JavaScript
    [Map] of the groups, kept as an association list in insertion order. *)

(** [new Map(menuItems.map(item => [item.id, { stationName, prepTimeMinutes }]))]:
    of two menu items with one id the later one stays. *)
Definition itemStationMap (menuItems : list MenuItem)
  : gmap string (option string * option Qc) :=
  fold_left (λ m item, <[mi_id item := (stationName item, prepTimeMinutes item)]> m)
            menuItems ∅.

(** [item.selectedModifiers?.map(m => m.optionName).sort().join(', ') || 'none'] *)
Definition kdsModifiersString (item : OrderItem) : string :=
  match oi_selectedModifiers item with
  | Some mods =>
      let s := join ", " (sort_strings (map optionName mods)) in
      if truthy_string s then s else "none"
  | None => "none"
  end.

(** The group of [key] with one more occurrence, created first if the map
    does not have it. *)
Fixpoint addToSummary (key : string) (fresh : KDSItemSummary) (q : Qc)
    (occ : KDSIndividualOrder) (summaries : list (string * KDSItemSummary))
  : list (string * KDSItemSummary) :=
  let push (summary : KDSItemSummary) :=
    {| kds_menuItemId := kds_menuItemId summary; itemName := itemName summary;
       kds_modifiersString := kds_modifiersString summary;
       uniqueKey := uniqueKey summary;
       totalQuantity := totalQuantity summary + q;
       individualOrders := individualOrders summary ++ [occ] |} in
  match summaries with
  | [] => [(key, push fresh)]
  | (k, summary) :: rest =>
      if bool_decide (k = key) then (k, push summary) :: rest
      else (k, summary) :: addToSummary key fresh q occ rest
  end.

(** One turn of [order.items.forEach((item, index) => ...)]. *)
Definition summarizeItem (menuItems : list MenuItem) (selectedStation : string)
    (order : string * Order) (summaries : list (string * KDSItemSummary))
    (indexed : nat * OrderItem) : list (string * KDSItemSummary) :=
  let '(index, item) := indexed in
  if isCompleted item then summaries
  else
    let itemDetails := itemStationMap menuItems !! menuItemId item in
    if negb (bool_decide (selectedStation = "all"))
       && negb (bool_decide (itemDetails ≫= fst = Some selectedStation))
    then summaries
    else
      let modifiersString := kdsModifiersString item in
      let uniqueKey' := menuItemId item +:+ "-" +:+ modifiersString in
      addToSummary uniqueKey'
        {| kds_menuItemId := menuItemId item; itemName := oi_name item;
           kds_modifiersString := modifiersString; uniqueKey := uniqueKey';
           totalQuantity := 0; individualOrders := [] |}
        (oi_quantity item)
        {| orderId := order.1; itemIndex := index;
           kds_plateNumber := o_plateNumber order.2;
           kds_quantity := oi_quantity item;
           kds_createdAt := o_createdAt order.2;
           kds_prepTimeMinutes := itemDetails ≫= snd;
           orderStatus := o_status order.2;
           kds_notes := oi_notes item;
           kds_selectedModifiers := oi_selectedModifiers item |}
        summaries.

(** [summaries.sort((a, b) => b.totalQuantity - a.totalQuantity)]: a stable
    sort, largest group first. *)
Fixpoint insertByQuantity (s : KDSItemSummary) (l : list KDSItemSummary)
  : list KDSItemSummary :=
  match l with
  | [] => [s]
  | x :: l' =>
      if bool_decide (totalQuantity s < totalQuantity x)
      then x :: insertByQuantity s l' else s :: l
  end.

Definition itemSummaries (orders : list (string * Order)) (menuItems : list MenuItem)
    (selectedStation : string) : list KDSItemSummary :=
  let summaries :=
    fold_left (λ summaries order,
                 fold_left (summarizeItem menuItems selectedStation order)
                           (imap pair (o_items order.2)) summaries)
              orders [] in
  foldr insertByQuantity [] (map snd summaries).

(** The query of the page: the tenant's orders with status New or In
    Progress. *)
Definition activeOrders (userId' : string) (db : Firestore) : list (string * Order) :=
  queryOrders (λ o, bool_decide (o_userId o = userId')
                    && bool_decide (o_status o ∈ [New; InProgress])) db.

(** [items[i].isCompleted = true] *)
Definition complete (item : OrderItem) : OrderItem :=
  {| oi_name := oi_name item; menuItemId := menuItemId item;
     oi_price := oi_price item; oi_quantity := oi_quantity item;
     oi_selectedModifiers := oi_selectedModifiers item;
     isCompleted := true; oi_notes := oi_notes item;
     inventoryDeducted := inventoryDeducted item |}.

(** [allItemsDone ? 'Ready' : status === 'New' ? 'In Progress' : status] *)
Definition newStatus (items : list OrderItem) (status : OrderStatus) : OrderStatus :=
  let allItemsDone := forallb isCompleted items in
  if allItemsDone then Ready
  else if bool_decide (status = New) then InProgress else status.

Definition itemsStatusUpdate (items : list OrderItem) (status : OrderStatus)
  : OrderUpdate :=
  {| u_items := Some items; u_subtotal := None; u_taxes := None;
     u_taxAmount := None; u_total := None; u_status := Some status;
     u_paymentMethod := None |}.

(** An index outside the item array makes the assignment throw, and the
    handler ends without a write. *)
Definition handleCompleteIndividual (db : Firestore) (orderId' : string)
    (itemIndex' : nat) : Firestore :=
  match db_orders db !! orderId' with
  | None => db
  | Some orderData =>
      match o_items orderData !! itemIndex' with
      | None => db
      | Some _ =>
          let updatedItems := alter complete itemIndex' (o_items orderData) in
          commit_or_keep db
            [UpdateOrder orderId'
               (itemsStatusUpdate updatedItems (newStatus updatedItems (o_status orderData)))]
      end
  end.

(** An order document with its item array replaced. *)
Definition with_items (o : Order) (its : list OrderItem) : Order :=
  {| o_items := its; o_plateNumber := o_plateNumber o; o_subtotal := o_subtotal o;
     o_taxes := o_taxes o; o_taxAmount := o_taxAmount o; o_tip := o_tip o;
     o_platformFee := o_platformFee o; o_total := o_total o; o_status := o_status o;
     o_createdAt := o_createdAt o; o_userId := o_userId o; o_notes := o_notes o;
     o_orderType := o_orderType o; o_paymentMethod := o_paymentMethod o;
     o_appliedDiscounts := o_appliedDiscounts o |}.

(** The documents [handleBumpAll] fetches: those of the distinct order
    ids of the group that exist. *)
Definition fetchOrderDocs (db : Firestore) (affectedOrderIds : list string)
  : gmap string Order :=
  fold_left (λ (orderDocs : gmap string Order) orderId',
               match db_orders db !! orderId' with
               | Some orderData => <[orderId' := orderData]> orderDocs
               | None => orderDocs
               end) affectedOrderIds ∅.

(** One turn of [summary.individualOrders.forEach]; [None] when the
    assignment throws. *)
Definition markOccurrence (orderDocs : option (gmap string Order))
    (indOrder : KDSIndividualOrder) : option (gmap string Order) :=
  docs ← orderDocs;
  match docs !! orderId indOrder with
  | None => Some docs
  | Some orderData =>
      match o_items orderData !! itemIndex indOrder with
      | None => None
      | Some _ =>
          Some (<[orderId indOrder :=
                    with_items orderData
                      (alter complete (itemIndex indOrder) (o_items orderData))]> docs)
      end
  end.

Definition bumpBatch (orderDocs : gmap string Order) : list Write :=
  map (λ '(orderId', orderData),
         UpdateOrder orderId'
           (itemsStatusUpdate (o_items orderData)
              (newStatus (o_items orderData) (o_status orderData))))
      (map_to_list orderDocs).

Definition handleBumpAll (db : Firestore) (summary : KDSItemSummary) : Firestore :=
  let affectedOrderIds := remove_dups (map orderId (individualOrders summary)) in
  let orderDocs := fetchOrderDocs db affectedOrderIds in
  match fold_left markOccurrence (individualOrders summary) (Some orderDocs) with
  | None => db
  | Some orderDocs' => commit_or_keep db (bumpBatch orderDocs')
  end.

(** *** The timer of an occurrence *)

Inductive TimerColor := green | amber | red.

#[global] Instance TimerColor_eq_dec : EqDecision TimerColor.
Proof. solve_decision. Defined.

(** The colour of [OrderTimer]: the whole minutes elapsed as a share of
    the target preparation time; green without a positive target. *)
Definition timerColor (elapsedSeconds : Qc) (prepTimeMinutes' : option Qc) : TimerColor :=
  let minutes := floor (elapsedSeconds / qc 60 1) in
  match prepTimeMinutes' with
  | Some prep =>
      if truthy_number prep && bool_decide (0 < prep) then
        let percentage := minutes / prep in
        if bool_decide (qc 8 10 ≤ percentage) then red
        else if bool_decide (qc 5 10 ≤ percentage) then amber
        else green
      else green
  | None => green
  end.

End KitchenDisplayPage.

(** ** ExpoPage (src/unnamed/part_003) *)

Module ExpoPage.

(** The query of the page: the tenant's orders with status In Progress or
    Ready, then sorted in place, oldest first. *)
Definition orders (userId' : string) (db : Firestore) : list (string * Order) :=
  FloorPlanPage.sortByCreatedAt
    (queryOrders (λ o, bool_decide (o_userId o = userId')
                       && bool_decide (o_status o ∈ [InProgress; Ready])) db).

(** The POS context of "proceed to payment", offered for a Ready order:
    [type: order.orderType || (order.plateNumber ? 'dine-in' : 'takeaway')],
    [orderIds: [order.id]], [tableNumber: order.plateNumber]. *)
Definition posContext (order : string * Order)
  : OrderType * option string * option (list string) :=
  (match o_orderType order.2 with
   | Some ty => ty
   | None => if truthy_ostring (o_plateNumber order.2) then DineIn else Takeaway
   end,
   o_plateNumber order.2,
   Some [order.1]).

End ExpoPage.

(** ** ZReportModal (components/reports/ZReportModal.tsx) *)

Module ZReportModal.







End ZReportModal.

(** ** TaxSettings (src/unnamed/part_000) *)

Module TaxSettings.




End TaxSettings.

(** ** Notions the properties are stated with *)

(** The sum of a list of amounts. *)
Definition sumQc (l : list Qc) : Qc := foldr Qcplus 0 l.

(** The price of one cart line: base price plus the prices of its selected
    modifier options, times the quantity. *)
Definition lineTotal (item : CartItem) : Qc :=
  (basePrice item + sumQc (map optionPrice (ci_selectedModifiers item)))
  * ci_quantity item.

(** The discounts of an order, as the Z report adds them up. *)
Definition discounts (o : Order) : Qc := sumQc (map ad_amount (o_appliedDiscounts o)).

(** The invariant of a persisted order. *)
Definition totalInvariant (o : Order) : Prop :=
  o_total o = o_subtotal o - discounts o + o_taxAmount o + o_tip o + o_platformFee o.

#[global] Instance totalInvariant_dec o : Decision (totalInvariant o).
Proof. unfold totalInvariant. apply _. Defined.

(** An occurrence of a kitchen group is valid for a database when its
    line index lies inside the item array of its order, if that order
    exists. *)
Definition validOccurrence (db : Firestore)
    (occ : KitchenDisplayPage.KDSIndividualOrder) : Prop :=
  match db_orders db !! KitchenDisplayPage.orderId occ with
  | Some o => (KitchenDisplayPage.itemIndex occ < length (o_items o))%nat
  | None => True
  end.

#[global] Instance validOccurrence_dec db occ : Decision (validOccurrence db occ).
Proof. unfold validOccurrence. destruct (db_orders db !! _); apply _. Defined.

(** What marking a line as done asks of the stored line: the completion
    flag is set and every other field is as it was. *)
Definition markedDone (item item' : OrderItem) : Prop :=
  isCompleted item' = true
  ∧ oi_name item' = oi_name item
  ∧ menuItemId item' = menuItemId item
  ∧ oi_price item' = oi_price item
  ∧ oi_quantity item' = oi_quantity item
  ∧ oi_selectedModifiers item' = oi_selectedModifiers item
  ∧ oi_notes item' = oi_notes item
  ∧ inventoryDeducted item' = inventoryDeducted item.

(** Two order documents that differ in their items and status at most. *)
Definition sameButItemsAndStatus (o o' : Order) : Prop :=
  o_plateNumber o' = o_plateNumber o
  ∧ o_subtotal o' = o_subtotal o
  ∧ o_taxes o' = o_taxes o
  ∧ o_taxAmount o' = o_taxAmount o
  ∧ o_tip o' = o_tip o
  ∧ o_platformFee o' = o_platformFee o
  ∧ o_total o' = o_total o
  ∧ o_createdAt o' = o_createdAt o
  ∧ o_userId o' = o_userId o
  ∧ o_notes o' = o_notes o
  ∧ o_orderType o' = o_orderType o
  ∧ o_paymentMethod o' = o_paymentMethod o
  ∧ o_appliedDiscounts o' = o_appliedDiscounts o.

(** The single-item completion rule on one order document: line [i] is
    completed and the status recomputed. *)
Definition completeLine (i : nat) (o : Order) : Order :=
  let its := alter KitchenDisplayPage.complete i (o_items o) in
  update_order
    (KitchenDisplayPage.itemsStatusUpdate its
       (KitchenDisplayPage.newStatus its (o_status o))) o.

(** Single-item completion applied to every occurrence of a group, one
    after the other. *)
Definition completeEach (db : Firestore)
    (occs : list KitchenDisplayPage.KDSIndividualOrder) : Firestore :=
  fold_left (λ db occ,
               KitchenDisplayPage.handleCompleteIndividual db
                 (KitchenDisplayPage.orderId occ) (KitchenDisplayPage.itemIndex occ))
            occs db.

(** What the occurrences of a group do to the order [id]: completed one
    by one with the single-item rule ([seqOrder]), or only marked
    ([markOrder]). *)
Definition seqOrder (occs : list KitchenDisplayPage.KDSIndividualOrder) (id : string)
    (o : Order) : Order :=
  fold_left (λ o occ, if bool_decide (KitchenDisplayPage.orderId occ = id)
                      then completeLine (KitchenDisplayPage.itemIndex occ) o else o)
            occs o.

Definition markOrder (occs : list KitchenDisplayPage.KDSIndividualOrder) (id : string)
    (o : Order) : Order :=
  fold_left (λ o occ, if bool_decide (KitchenDisplayPage.orderId occ = id)
                      then KitchenDisplayPage.with_items o
                             (alter KitchenDisplayPage.complete
                                    (KitchenDisplayPage.itemIndex occ) (o_items o))
                      else o) occs o.

Arguments seqOrder : simpl never.
Arguments markOrder : simpl never.

(** The open orders of a table as the page collects them: a non-empty
    plate number equal to the table label up to case, and an order type
    other than takeaway. *)
Definition matchesKey (key : string) (order : string * Order) : bool :=
  match o_plateNumber order.2 with
  | Some plate =>
      truthy_string plate
      && negb (bool_decide (o_orderType order.2 = Some Takeaway))
      && bool_decide (toUpperCase plate = key)
  | None => false
  end.

Definition openOrdersOf (table : FloorPlanTable) (orders : list (string * Order))
  : list (string * Order) :=
  List.filter (matchesKey (toUpperCase (label table))) orders.

(** The five-step priority in the words of the specification: the open
    orders of a table are those whose plate number matches the label
    ignoring case and whose type is not takeaway. *)
Definition specOpenOrders (table : FloorPlanTable) (orders : list (string * Order))
  : list (string * Order) :=
  List.filter (λ order, bool_decide (toUpperCase <$> o_plateNumber order.2
                                     = Some (toUpperCase (label table)))
                        && negb (bool_decide (o_orderType order.2 = Some Takeaway)))
              orders.

Definition floorStatusSpec (table : FloorPlanTable) (orders : list (string * Order))
  : TableStatus :=
  let open := specOpenOrders table orders in
  if bool_decide (t_status table = Some needs_cleaning) then needs_cleaning
  else if existsb (λ o, bool_decide (o_status o.2 = Ready)) open then attention
  else if existsb (λ o, bool_decide (o_status o.2 = New ∨ o_status o.2 = InProgress)) open
       then ordered
  else if bool_decide (t_status table = Some seated) then seated
  else available.


(** A cart line stems from a persisted order item under the menu
    [allItems]: id, name, modifiers and note are those of the item, and
    the base price is the price of the first menu item with that id when
    it is not zero, else the price stored on the order item. *)
Definition stemsFrom (allItems : list MenuItem) (line : CartItem) (item : OrderItem)
  : Prop :=
  ci_id line = menuItemId item
  ∧ ci_name line = oi_name item
  ∧ ci_selectedModifiers line = default [] (oi_selectedModifiers item)
  ∧ ci_notes line = oi_notes item
  ∧ (∀ mi, find (λ mi, bool_decide (mi_id mi = menuItemId item)) allItems = Some mi →
           price mi ≠ 0 → basePrice line = price mi)
  ∧ (∀ mi, find (λ mi, bool_decide (mi_id mi = menuItemId item)) allItems = Some mi →
           price mi = 0 → basePrice line = oi_price item)
  ∧ (find (λ mi, bool_decide (mi_id mi = menuItemId item)) allItems = None →
     basePrice line = oi_price item).

(** The recipe of an order item: that of the first menu item with its id. *)
Definition recipeOf (allItems : list MenuItem) (orderItem : OrderItem) : list RecipeItem :=
  match find (λ mi, bool_decide (mi_id mi = menuItemId orderItem)) allItems with
  | Some menuItem => default [] (recipe menuItem)
  | None => []
  end.

(** What a batch of order items needs of one ingredient: the sum, over the
    items and over their recipe lines naming the ingredient, of recipe
    quantity x item quantity. *)
Definition required (allItems : list MenuItem) (orderItems : list OrderItem)
    (ingredient : string) : Qc :=
  sumQc (map (λ orderItem,
                sumQc (map (λ r, ri_quantity r * oi_quantity orderItem)
                           (List.filter (λ r, bool_decide (ingredientId r = ingredient))
                                        (recipeOf allItems orderItem))))
             orderItems).

(** A write that is not a stock update. *)
Definition keepsStock (w : Write) : Prop :=
  match w with IncrementStock _ _ => False | _ => True end.

(** Two cart lines are the same line for [handleAddToCart] when their
    [cartItemId] and their note agree. *)
Definition sameLine (a b : CartItem) : Prop :=
  cartItemId a = cartItemId b ∧ ci_notes a = ci_notes b.

#[global] Instance sameLine_dec a b : Decision (sameLine a b).
Proof. unfold sameLine. apply _. Defined.

(** A cart line with a quantity added. *)
Definition addQuantity (q : Qc) (line : CartItem) : CartItem :=
  {| cartItemId := cartItemId line; ci_id := ci_id line; ci_name := ci_name line;
     basePrice := basePrice line; ci_quantity := ci_quantity line + q;
     ci_selectedModifiers := ci_selectedModifiers line; ci_notes := ci_notes line |}.

(** An occurrence points into a set of fetched orders when it names one
    of them and a line of it that is not completed. *)
Definition pointsInto (orders : list (string * Order))
    (occ : KitchenDisplayPage.KDSIndividualOrder) : Prop :=
  ∃ o item, (KitchenDisplayPage.orderId occ, o) ∈ orders
            ∧ o_items o !! KitchenDisplayPage.itemIndex occ = Some item
            ∧ isCompleted item = false.


(** A cart line but for its note. *)
Definition withoutNote (line : CartItem)
  : string * string * string * Qc * Qc * list SelectedModifier :=
  (cartItemId line, ci_id line, ci_name line, basePrice line, ci_quantity line,
   ci_selectedModifiers line).

(** A cart all of whose lines have a positive quantity. *)
Definition positiveCart (cart : list CartItem) : Prop :=
  Forall (λ line, 0 < ci_quantity line) cart.

(** The first line of a cart with a given [cartItemId], the line
    [handleUpdateQuantity] acts on. *)
Definition firstWithId (id : string) (cart : list CartItem) : option CartItem :=
  find (λ line, bool_decide (cartItemId line = id)) cart.


(** A whole multiple of [k]. *)
Definition multipleOf (k : Z) (x : Qc) : Prop := ∃ z : Z, x = Q2Qc (inject_Z (z * k)).

(** The subtotal the items of an order add up to. *)
Definition itemsSubtotal (items : list OrderItem) : Qc :=
  sumQc (map (λ item, oi_price item * oi_quantity item) items).

(** The floor plan documents after the tables labelled [tableNumber] of
    the plan of [userId] have been marked [st]. *)
Definition markedPlans (userId : string) (tableNumber : option string) (st : TableStatus)
    (plans : gmap string FloorPlan) : gmap string FloorPlan :=
  alter (λ fp, {| fp_tables := POSModal.markTables tableNumber st (fp_tables fp) |})
        userId plans.

(** One order is not younger than another. *)
Definition notYounger (a b : string * Order) : Prop :=
  (o_createdAt a.2 ≤ o_createdAt b.2)%Z.

(** A group of the kitchen queue with one more occurrence. *)
Definition pushOccurrence (q : Qc) (occ : KitchenDisplayPage.KDSIndividualOrder)
    (summary : KitchenDisplayPage.KDSItemSummary) : KitchenDisplayPage.KDSItemSummary :=
  {| KitchenDisplayPage.kds_menuItemId := KitchenDisplayPage.kds_menuItemId summary;
     KitchenDisplayPage.itemName := KitchenDisplayPage.itemName summary;
     KitchenDisplayPage.kds_modifiersString := KitchenDisplayPage.kds_modifiersString summary;
     KitchenDisplayPage.uniqueKey := KitchenDisplayPage.uniqueKey summary;
     KitchenDisplayPage.totalQuantity := KitchenDisplayPage.totalQuantity summary + q;
     KitchenDisplayPage.individualOrders :=
       KitchenDisplayPage.individualOrders summary ++ [occ] |}.

(** The key of the group an order item falls into. *)
Definition groupKey (item : OrderItem) : string :=
  menuItemId item +:+ "-" +:+ KitchenDisplayPage.kdsModifiersString item.

(** An order item is shown under the selected station: all stations are
    selected, or the station of its menu item is the selected one. *)
Definition shownAt (selectedStation : string) (menuItems : list MenuItem)
    (item : OrderItem) : Prop :=
  selectedStation = "all"
  ∨ KitchenDisplayPage.itemStationMap menuItems !! menuItemId item ≫= fst
    = Some selectedStation.

(** A group is well formed: its quantity is the sum of the quantities of
    its occurrences, it has an occurrence, and its key is made of its
    menu item id and its modifiers. *)
Definition wellFormedGroup (summary : KitchenDisplayPage.KDSItemSummary) : Prop :=
  KitchenDisplayPage.totalQuantity summary
  = sumQc (map KitchenDisplayPage.kds_quantity (KitchenDisplayPage.individualOrders summary))
  ∧ KitchenDisplayPage.individualOrders summary ≠ []
  ∧ KitchenDisplayPage.uniqueKey summary
    = KitchenDisplayPage.kds_menuItemId summary +:+ "-"
      +:+ KitchenDisplayPage.kds_modifiersString summary.

(** The larger of two groups comes first. *)
Definition largerFirst (a b : KitchenDisplayPage.KDSItemSummary) : Prop :=
  KitchenDisplayPage.totalQuantity b ≤ KitchenDisplayPage.totalQuantity a.

(** The colours of the timer, from calm to urgent. *)
Definition urgency (c : KitchenDisplayPage.TimerColor) : nat :=
  match c with
  | KitchenDisplayPage.green => 0
  | KitchenDisplayPage.amber => 1
  | KitchenDisplayPage.red => 2
  end.



(** The order the rapid-order screen writes to: the one to append to, or
    the new one. *)
Definition submitTarget (orderIdToAppend : option string) (newOrderId : string) : string :=
  match orderIdToAppend with
  | Some (String a s) => String a s
  | _ => newOrderId
  end.

(** An order of the staff screens whose figures are consistent: the
    subtotal is the sum of its items, every tax amount is the rate's share
    of the subtotal, the tax amount is the sum of the tax amounts, the
    total is subtotal + taxes + tip, and there is neither a platform fee
    nor a discount. *)
Definition soundOrder (o : Order) : Prop :=
  o_subtotal o = itemsSubtotal (o_items o)
  ∧ Forall (λ t, amount t = o_subtotal o * (rate t / qc 100 1)) (o_taxes o)
  ∧ o_taxAmount o = sumQc (map amount (o_taxes o))
  ∧ o_total o = o_subtotal o + o_taxAmount o + o_tip o
  ∧ o_platformFee o = 0
  ∧ o_appliedDiscounts o = [].

(** [db'] has a consistent order wherever [db] had a consistent order or
    none. *)
Definition keepsSound (db db' : Firestore) : Prop :=
  ∀ id o', db_orders db' !! id = Some o' →
           (∀ o, db_orders db !! id = Some o → soundOrder o) → soundOrder o'.

(** A write that leaves a consistent order behind: on the order it finds
    in [db] ([soundWriteAt]), or on any order ([soundWrite]). *)
Definition soundWriteAt (db : Firestore) (w : Write) : Prop :=
  match w with
  | SetOrder _ data => soundOrder data
  | UpdateOrder id u =>
      ∀ o, db_orders db !! id = Some o → soundOrder o → soundOrder (update_order u o)
  | _ => True
  end.

Definition soundWrite (w : Write) : Prop := ∀ db, soundWriteAt db w.

(** ** Sample data *)

Module Sample.

(** A 2.000 item with one +0.500 modifier, three times. *)
Definition cart1 : list CartItem :=
  [ {| cartItemId := "latte-Oatmilk"; ci_id := "latte"; ci_name := "Latte";
       basePrice := qc 2 1; ci_quantity := qc 3 1;
       ci_selectedModifiers := [ {| optionName := "Oat milk"; optionPrice := qc 1 2 |} ];
       ci_notes := None |} ].

Definition vat5 : Tax :=
  {| tax_id := "vat"; tax_userId := "r1"; tax_name := "VAT"; tax_rate := qc 5 1;
     isDefault := true |}.

Definition profile1 : option RestaurantProfile :=
  Some {| appliedTaxIds := Some ["vat"] |}.

(** Three open orders that share the dish "burger". *)
Definition line (name' : string) (done : bool) : OrderItem :=
  {| oi_name := name'; menuItemId := name'; oi_price := qc 2 1; oi_quantity := 1;
     oi_selectedModifiers := Some []; isCompleted := done; oi_notes := Some "";
     inventoryDeducted := None |}.

Definition openOrder (plate : string) (its : list OrderItem) (st : OrderStatus)
    (at_ : Z) : Order :=
  let s := sumQc (map (λ it, oi_price it * oi_quantity it) its) in
  {| o_items := its; o_plateNumber := Some plate; o_subtotal := s; o_taxes := [];
     o_taxAmount := 0; o_tip := 0; o_platformFee := 0; o_total := s; o_status := st;
     o_createdAt := at_; o_userId := "r1"; o_notes := Some "";
     o_orderType := Some DineIn; o_paymentMethod := None; o_appliedDiscounts := [] |}.

Definition kitchenDb : Firestore :=
  {| db_orders :=
       {[ "o1" := openOrder "T1" [line "burger" false; line "fries" false] New 100;
          "o2" := openOrder "T2" [line "burger" false] New 110;
          "o3" := openOrder "T3" [line "salad" true; line "burger" false] InProgress 120 ]};
     db_ingredients := ∅; db_floorPlans := ∅ |}.

Definition occurrence (id : string) (i : nat) (plate : string) (st : OrderStatus)
    (at_ : Z) : KitchenDisplayPage.KDSIndividualOrder :=
  {| KitchenDisplayPage.orderId := id; KitchenDisplayPage.itemIndex := i;
     KitchenDisplayPage.kds_plateNumber := Some plate;
     KitchenDisplayPage.kds_quantity := 1;
     KitchenDisplayPage.kds_createdAt := at_;
     KitchenDisplayPage.kds_prepTimeMinutes := None;
     KitchenDisplayPage.orderStatus := st;
     KitchenDisplayPage.kds_notes := Some "";
     KitchenDisplayPage.kds_selectedModifiers := Some [] |}.

(** The group of the burgers, as the kitchen page aggregates it. *)
Definition burgerGroup : KitchenDisplayPage.KDSItemSummary :=
  {| KitchenDisplayPage.kds_menuItemId := "burger";
     KitchenDisplayPage.itemName := "burger";
     KitchenDisplayPage.kds_modifiersString := "none";
     KitchenDisplayPage.uniqueKey := "burger-none";
     KitchenDisplayPage.totalQuantity := 0 + 1 + 1 + 1;
     KitchenDisplayPage.individualOrders :=
       [occurrence "o1" 0 "T1" New 100; occurrence "o2" 0 "T2" New 110;
        occurrence "o3" 1 "T3" InProgress 120] |}.

(** A floor with four tables and the open orders of the tenant. *)
Definition floor1 : FloorPlan :=
  {| fp_tables :=
       [ {| t_id := "1"; label := "T1"; t_status := None |};
         {| t_id := "2"; label := "T2"; t_status := Some needs_cleaning |};
         {| t_id := "3"; label := "T3"; t_status := Some seated |};
         {| t_id := "4"; label := "T4"; t_status := Some seated |} ] |}.

Definition floorOrders : list (string * Order) :=
  [ ("a", openOrder "t1" [line "burger" true] Ready 100);
    ("b", openOrder "T1" [line "fries" false] InProgress 90);
    ("c", openOrder "T2" [line "salad" false] New 95);
    ("d", openOrder "T3" [line "soup" false] Pending 97) ].



(** A latte ordered at 2.000, and the menu before and after its price is
    raised to 3.000. *)
Definition latte (p : Qc) : MenuItem :=
  {| mi_id := "latte"; mi_name := "Latte"; price := p; isAvailable := true;
     recipe := None; modifierGroups := None; stationName := None;
     prepTimeMinutes := None |}.

Definition latteLine : OrderItem :=
  {| oi_name := "Latte"; menuItemId := "latte"; oi_price := qc 2 1; oi_quantity := 1;
     oi_selectedModifiers := Some []; isCompleted := false; oi_notes := Some "";
     inventoryDeducted := None |}.

Definition latteOrder : Order := openOrder "T1" [latteLine] New 100.

Definition clock : nat → N := λ k, (1700000000000 + N.of_nat k)%N.

(** The latte order on table T1, untaxed; and the order the POS stores
    for [cart1]: three lattes with oat milk, stored at 2.500 each with
    the modifier beside the price. *)
Definition latteDb : Firestore :=
  {| db_orders := {[ "o1" := latteOrder ]}; db_ingredients := ∅; db_floorPlans := ∅ |}.

Definition oatOrder : Order :=
  POSModal.newKitchenOrder "r1" DineIn None cart1 [] "T1" "" 100.

(** Two dishes that share the ingredient X, at 2 and at 3 units a serving;
    a table that ordered the first twice and the second once. *)
Definition dish (id' : string) (perServing : Qc) : MenuItem :=
  {| mi_id := id'; mi_name := id'; price := qc 2 1; isAvailable := true;
     recipe := Some [ {| ingredientId := "X"; ri_quantity := perServing; unit_ := "g" |} ];
     modifierGroups := None; stationName := None; prepTimeMinutes := None |}.

Definition menu2 : list MenuItem := [dish "dishA" (qc 2 1); dish "dishB" (qc 3 1)].

Definition servings (id' : string) (n : Qc) : OrderItem :=
  {| oi_name := id'; menuItemId := id'; oi_price := qc 2 1; oi_quantity := n;
     oi_selectedModifiers := Some []; isCompleted := true; oi_notes := Some "";
     inventoryDeducted := None |}.

Definition stockDb : Firestore :=
  {| db_orders :=
       {[ "o1" := openOrder "T1" [servings "dishA" (qc 2 1); servings "dishB" 1] Ready 100 ]};
     db_ingredients := {[ "X" := {| ing_name := "X"; stock := qc 100 1 |} ]};
     db_floorPlans := {[ "r1" := floor1 ]} |}.

(** The cart of the POS opened on that table, and its finalization (card
    payment) as a step on the database. *)
Definition tableCart (db : Firestore) : list CartItem :=
  POSModal.rehydrate menu2 clock (omap (λ id, db_orders db !! id) ["o1"]).

Definition finalizeTable (db : Firestore) : Firestore :=
  POSModal.handleFinalizeOrder "r1" DineIn (Some "T1") (Some ["o1"]) menu2 profile1
    (tableCart db) [vat5] "T1" card "" db "n1" 200.

(** A table whose burger is already served; the waiter opens the table
    and taps "fries". *)
Definition plain (id' : string) : MenuItem :=
  {| mi_id := id'; mi_name := id'; price := qc 2 1; isAvailable := true;
     recipe := None; modifierGroups := None; stationName := None;
     prepTimeMinutes := None |}.

Definition menu3 : list MenuItem := [plain "burger"; plain "fries"].

Definition appendDb : Firestore :=
  {| db_orders := {[ "o1" := openOrder "T1" [line "burger" true] InProgress 100 ]};
     db_ingredients := ∅;
     db_floorPlans := {[ "r1" := floor1 ]} |}.

Definition posAppend : Firestore :=
  let cart := POSModal.handleSelectItem 1700000005000 (plain "fries")
                (POSModal.rehydrate menu3 clock (omap (λ id, db_orders appendDb !! id) ["o1"])) in
  POSModal.handleSendToKitchen "r1" DineIn (Some "T1") (Some ["o1"]) profile1 cart [vat5]
    "T1" "" appendDb "n1" 200.

Definition rapidAppend : Firestore :=
  let cart := RapidOrderModal.handleSelectItem (plain "fries") [] in
  RapidOrderModal.handleSubmitOrder "r1" DineIn (Some "o1") cart [vat5] profile1 "T1" card
    "" appendDb "n1" 200.

(** An order placed from the customer menu, with a platform fee of 0.500:
    subtotal 2.000, tax 0.100, total 2.600.  The staff then append fries
    to it from the rapid-order screen. *)
Definition feeOrder : Order :=
  {| o_items := [line "burger" false]; o_plateNumber := Some "T1"; o_subtotal := qc 2 1;
     o_taxes := [ {| at_name := "VAT"; rate := qc 5 1; amount := qc 1 10 |} ];
     o_taxAmount := qc 1 10; o_tip := 0; o_platformFee := qc 1 2; o_total := qc 26 10;
     o_status := New; o_createdAt := 100; o_userId := "r1"; o_notes := Some "";
     o_orderType := Some DineIn; o_paymentMethod := None; o_appliedDiscounts := [] |}.

Definition feeDb : Firestore :=
  {| db_orders := {[ "o1" := feeOrder ]}; db_ingredients := ∅;
     db_floorPlans := {[ "r1" := floor1 ]} |}.

Definition feeAppend : Firestore :=
  let cart := RapidOrderModal.handleSelectItem (plain "fries") [] in
  RapidOrderModal.handleSubmitOrder "r1" DineIn (Some "o1") cart [vat5] profile1 "T1" card
    "" feeDb "n1" 200.

End Sample.

(** * Verification *)

(** ** Arithmetic of sums *)

Lemma fold_left_sum {A} (f : A → Qc) (l : list A) (a : Qc) :
  fold_left (λ s x, s + f x) l a = a + sumQc (map f l).
Proof.
  revert a. induction l as [|x l IH]; intros a; simpl.
  - ring.
  - rewrite IH. ring.
Qed.

Lemma fold_left_pointwise {A B} (f g : A → B → A) (l : list B) (a : A) :
  (∀ a x, f a x = g a x) → fold_left f l a = fold_left g l a.
Proof.
  intros Hfg. revert a. induction l as [|x l IH]; intros a; simpl; [done|].
  by rewrite Hfg, IH.
Qed.

Lemma sumQc_app (l1 l2 : list Qc) : sumQc (l1 ++ l2) = sumQc l1 + sumQc l2.
Proof.
  induction l1 as [|x l1 IH]; simpl.
  - ring.
  - rewrite IH. ring.
Qed.

(** Closed equalities between rationals are decided by evaluation. *)
Ltac by_eval := apply (bool_decide_unpack _); vm_compute; exact I.

(** ** Pricing *)

Lemma POS_subtotal_sum (cart : list CartItem) :
  POSModal.subtotal cart = sumQc (map lineTotal cart).
Proof.
  unfold POSModal.subtotal.
  rewrite (fold_left_pointwise _ (λ s item, s + lineTotal item)).
  - rewrite fold_left_sum. ring.
  - intros s item. unfold lineTotal. rewrite fold_left_sum. f_equal. f_equal. ring.
Qed.

Lemma Rapid_subtotal_sum (cart : list CartItem) :
  RapidOrderModal.subtotal cart = sumQc (map lineTotal cart).
Proof. apply POS_subtotal_sum. Qed.

Lemma POS_appliedTaxesAt_amount profile taxes (s : Qc) :
  Forall (λ t, amount t = s * (rate t / qc 100 1)
               ∧ ∃ tax, tax ∈ taxes ∧ at_name t = tax_name tax ∧ rate t = tax_rate tax
                        ∧ tax_id tax ∈ default [] (profile ≫= appliedTaxIds))
         (POSModal.appliedTaxesAt profile taxes s).
Proof.
  unfold POSModal.appliedTaxesAt.
  apply Forall_forall. intros t Ht.
  apply list_elem_of_fmap in Ht as (tax & -> & Htax).
  apply list_elem_of_omap in Htax as (taxId & Hid & Hfind).
  apply find_some in Hfind as [Hin Heq].
  apply bool_decide_eq_true in Heq. subst taxId.
  split; [reflexivity|].
  exists tax. by rewrite list_elem_of_In.
Qed.

Lemma Rapid_appliedTaxesAt_amount profile taxes (s : Qc) :
  Forall (λ t, amount t = s * (rate t / qc 100 1)
               ∧ ∃ tax, tax ∈ taxes ∧ at_name t = tax_name tax ∧ rate t = tax_rate tax
                        ∧ tax_id tax ∈ default [] (profile ≫= appliedTaxIds))
         (RapidOrderModal.appliedTaxesAt taxes profile s).
Proof.
  unfold RapidOrderModal.appliedTaxesAt.
  destruct (profile ≫= appliedTaxIds) as [ids|]; [|constructor].
  apply Forall_forall. intros t Ht.
  apply list_elem_of_fmap in Ht as (tax & -> & Htax).
  apply list_elem_of_In, filter_In in Htax as [Hin Hid].
  apply bool_decide_eq_true in Hid.
  split; [reflexivity|].
  exists tax. by rewrite list_elem_of_In.
Qed.


(** ** Change due and the guard of the complete-order button *)

Lemma toFixed3_sample_change : toFixed3 (qc 2125 1000) = "2.125".
Proof. vm_compute. reflexivity. Qed.

(** With a number tendered, the change due is tendered - total and the
    text shown is "0.000" whenever that difference is not positive; with
    cash as payment method a click on the complete-order button leaves
    the database untouched when the number tendered is below the total or
    the field is empty.  With total 7.875: tendering 10.000 gives change
    2.125, tendering 7.000 shows 0.000 and the click writes nothing. *)
Lemma change_due_and_guard
    userId type tableNumber orderIds allItems profile cart taxes identifier
    orderNotes loading db newOrderId now :
  (∀ tendered,
      POSModal.changeDue profile cart taxes (Some (Num tendered))
      = Num (tendered - POSModal.total profile cart taxes))
  ∧ (∀ tendered,
      tendered - POSModal.total profile cart taxes ≤ 0 →
      POSModal.changeDueShown profile cart taxes (Some (Num tendered)) = "0.000")
  ∧ (∀ tendered,
      tendered < POSModal.total profile cart taxes →
      POSModal.clickFinalize userId type tableNumber orderIds allItems profile cart
        taxes identifier cash (Some (Num tendered)) orderNotes loading db newOrderId now
      = db)
  ∧ POSModal.clickFinalize userId type tableNumber orderIds allItems profile cart
      taxes identifier cash None orderNotes loading db newOrderId now = db
  ∧ (POSModal.total Sample.profile1 Sample.cart1 [Sample.vat5] = qc 7875 1000
     ∧ POSModal.changeDue Sample.profile1 Sample.cart1 [Sample.vat5] (Some (Num (qc 10 1)))
       = Num (qc 2125 1000)
     ∧ POSModal.changeDueShown Sample.profile1 Sample.cart1 [Sample.vat5]
         (Some (Num (qc 10 1))) = "2.125"
     ∧ POSModal.changeDueShown Sample.profile1 Sample.cart1 [Sample.vat5]
         (Some (Num (qc 7 1))) = "0.000"
     ∧ POSModal.finalizeDisabled Sample.profile1 Sample.cart1 [Sample.vat5] cash
         (Some (Num (qc 7 1))) false = true).
Proof.
  split; [done|]. split; [|split; [|split]].
  - intros tendered Hle. unfold POSModal.changeDueShown, POSModal.changeDue. simpl.
    rewrite bool_decide_eq_false_2; [done|]. by apply Qcle_not_lt.
  - intros tendered Hlt. unfold POSModal.clickFinalize, POSModal.finalizeDisabled.
    rewrite (bool_decide_eq_true_2 (cash = cash)) by done. simpl.
    rewrite (bool_decide_eq_true_2 _ Hlt). by rewrite orb_true_r.
  - unfold POSModal.clickFinalize, POSModal.finalizeDisabled.
    rewrite (bool_decide_eq_true_2 (cash = cash)) by done. by rewrite orb_true_r.
  - split; [by_eval|]. split; [by_eval|]. repeat split; vm_compute; reflexivity.
Qed.

(** C9, on the code.  The "." key of the numpad pressed on the empty
    field makes the amount tendered NaN, and NaN stays under every
    further key but "C".  The guard of the complete-order button compares
    [tenderedAmount < total], which is false for NaN: for a cash payment
    the button is enabled whatever the total, the change shown is 0.000,
    and the click runs [handleFinalizeOrder].  With the sample cart
    (total 7.875) the click stores a Completed cash order of 7.875 although
    no amount was tendered. *)
Theorem nan_tender_is_not_blocked :
  "." ∈ Numpad.buttons
  ∧ POSModal.numpadClick "." None = Some (Some NaN)
  ∧ (∀ key, key ∈ Numpad.buttons → key ≠ "C" →
            POSModal.numpadClick key (Some NaN) = Some (Some NaN))
  ∧ POSModal.onBackspace (Some NaN) = Some (Some NaN)
  ∧ (∀ userId type tableNumber orderIds allItems profile cart taxes identifier
       orderNotes db newOrderId now,
       POSModal.finalizeDisabled profile cart taxes cash (Some NaN) false = false
       ∧ POSModal.changeDueShown profile cart taxes (Some NaN) = "0.000"
       ∧ POSModal.clickFinalize userId type tableNumber orderIds allItems profile cart
           taxes identifier cash (Some NaN) orderNotes false db newOrderId now
         = POSModal.handleFinalizeOrder userId type tableNumber orderIds allItems profile
             cart taxes identifier cash orderNotes db newOrderId now)
  ∧ (let db := {| db_orders := ∅; db_ingredients := ∅; db_floorPlans := ∅ |} in
     let db' := POSModal.clickFinalize "r1" Takeaway None None [] Sample.profile1
                  Sample.cart1 [Sample.vat5] "Amal" cash (Some NaN) "" false db "o9"
                  1700000000 in
     POSModal.total Sample.profile1 Sample.cart1 [Sample.vat5] = qc 7875 1000
     ∧ db' ≠ db
     ∧ (o_status <$> db_orders db' !! "o9") = Some Completed
     ∧ (o_paymentMethod <$> db_orders db' !! "o9") = Some (Some cash)
     ∧ (o_total <$> db_orders db' !! "o9") = Some (qc 7875 1000)).
Proof.
  split; [by_eval|]. split; [vm_compute; reflexivity|].
  split.
  { intros key Hkey Hne. unfold Numpad.buttons in Hkey.
    repeat (apply elem_of_cons in Hkey as [->|Hkey]; [try done; vm_compute; reflexivity|]).
    by apply elem_of_nil in Hkey. }
  split; [vm_compute; reflexivity|]. split.
  { intros. split; [done|]. split; [done|]. done. }
  cbv zeta. split; [by_eval|]. split.
  { intros Heq. apply (f_equal (λ d, db_orders d !! "o9")) in Heq.
    vm_compute in Heq. discriminate Heq. }
  split; [by_eval|]. split; by_eval.
Qed.

(** ** Sending appended items to the kitchen *)

(** With a non-empty [orderIds], what [handleSendToKitchen] leaves behind
    is the database itself or the database with the one update of the
    first order applied. *)
Lemma handleSendToKitchen_append_cases
    userId type tableNumber profile cart taxes identifier orderNotes db
    newOrderId now first rest :
  let db' := POSModal.handleSendToKitchen userId type tableNumber (Some (first :: rest))
               profile cart taxes identifier orderNotes db newOrderId now in
  db' = db
  ∨ ∃ existingOrder,
      cart ≠ []
      ∧ db_orders db !! first = Some existingOrder
      ∧ db' = with_orders db
                (<[first := update_order (POSModal.appendUpdate profile cart taxes existingOrder)
                                         existingOrder]> (db_orders db)).
Proof.
  intros db'. subst db'. unfold POSModal.handleSendToKitchen.
  destruct (POSModal.nothingToSend type cart identifier) eqn:Hguard; [by left|].
  unfold POSModal.sendToKitchenBatch, POSModal.hasOrderIds. simpl.
  rewrite andb_false_r. simpl.
  destruct (db_orders db !! first) as [existingOrder|] eqn:Hfirst; simpl; [|by left].
  right. exists existingOrder. split; [|split; [done|]].
  - intros ->. unfold POSModal.nothingToSend in Hguard.
    by rewrite bool_decide_eq_true_2 in Hguard.
  - unfold commit_or_keep. simpl. by rewrite Hfirst.
Qed.

(** C10.  When [handleSendToKitchen] appends for a table with the open
    orders [first :: rest], every order document other than [first] is as
    it was, as are the ingredients and the floor plans; and in the
    document [first] only items, subtotal, taxes, taxAmount, total and
    status can differ from before. *)
Theorem send_to_kitchen_only_first_order
    userId type tableNumber profile cart taxes identifier orderNotes db
    newOrderId now first rest :
  let db' := POSModal.handleSendToKitchen userId type tableNumber (Some (first :: rest))
               profile cart taxes identifier orderNotes db newOrderId now in
  (∀ id, id ≠ first → db_orders db' !! id = db_orders db !! id)
  ∧ db_ingredients db' = db_ingredients db
  ∧ db_floorPlans db' = db_floorPlans db
  ∧ (db_orders db !! first = None → db_orders db' !! first = None)
  ∧ (∀ o, db_orders db !! first = Some o →
       ∃ o', db_orders db' !! first = Some o'
             ∧ o_plateNumber o' = o_plateNumber o ∧ o_tip o' = o_tip o
             ∧ o_platformFee o' = o_platformFee o ∧ o_createdAt o' = o_createdAt o
             ∧ o_userId o' = o_userId o ∧ o_notes o' = o_notes o
             ∧ o_orderType o' = o_orderType o ∧ o_paymentMethod o' = o_paymentMethod o
             ∧ o_appliedDiscounts o' = o_appliedDiscounts o).
Proof.
  intros db'.
  destruct (handleSendToKitchen_append_cases userId type tableNumber profile cart taxes
              identifier orderNotes db newOrderId now first rest)
    as [Hsame | (existingOrder & _ & Hfirst & Hdb')]; fold db' in Hsame || fold db' in Hdb'.
  - rewrite Hsame. repeat split; try done. intros o Ho. exists o. by rewrite Ho.
  - rewrite Hdb'. simpl. split; [|split; [done|split; [done|split]]].
    + intros id Hne. by rewrite lookup_insert_ne.
    + intros Hnone. congruence.
    + intros o Ho. assert (o = existingOrder) as -> by congruence.
      eexists. rewrite lookup_insert_eq. split; [reflexivity|]. by simpl.
Qed.

Lemma send_to_kitchen_only_first_order_witness :
  let o1 := {| o_items := []; o_plateNumber := Some "T1"; o_subtotal := 0; o_taxes := [];
               o_taxAmount := 0; o_tip := 0; o_platformFee := 0; o_total := 0;
               o_status := New; o_createdAt := 10; o_userId := "r1"; o_notes := None;
               o_orderType := Some DineIn; o_paymentMethod := None;
               o_appliedDiscounts := [] |} in
  let db := {| db_orders := {[ "a" := o1; "b" := o1 ]}; db_ingredients := ∅;
               db_floorPlans := ∅ |} in
  "b" ≠ "a"
  ∧ db_orders (POSModal.handleSendToKitchen "r1" DineIn (Some "T1") (Some ["a"; "b"])
                 Sample.profile1 Sample.cart1 [Sample.vat5] "T1" "" db "n" 20) !! "b"
    = db_orders db !! "b".
Proof.
  intros o1 db.
  assert (Hne : "b" ≠ "a") by discriminate.
  split; [exact Hne|].
  exact (proj1 (send_to_kitchen_only_first_order "r1" DineIn (Some "T1") Sample.profile1
                  Sample.cart1 [Sample.vat5] "T1" "" db "n" 20 "a" ["b"]) "b" Hne).
Defined.

(** ** Kitchen completion *)

Section Kitchen.

Import KitchenDisplayPage.


Lemma Firestore_eq (db1 db2 : Firestore) :
  db_orders db1 = db_orders db2 →
  db_ingredients db1 = db_ingredients db2 →
  db_floorPlans db1 = db_floorPlans db2 →
  db1 = db2.
Proof. destruct db1, db2; simpl; congruence. Qed.

Lemma validOccurrence_spec db occ :
  validOccurrence db occ ↔
  ∀ o, db_orders db !! orderId occ = Some o → (itemIndex occ < length (o_items o))%nat.
Proof.
  unfold validOccurrence. destruct (db_orders db !! orderId occ) as [o|].
  - split; [by intros H o' [= <-] | by intros H; apply H].
  - split; [by intros _ o' | done].
Qed.

Lemma handleCompleteIndividual_valid db id i :
  (∀ o, db_orders db !! id = Some o → (i < length (o_items o))%nat) →
  handleCompleteIndividual db id i =
  match db_orders db !! id with
  | Some o => with_orders db (<[id := completeLine i o]> (db_orders db))
  | None => db
  end.
Proof.
  intros Hvalid. unfold handleCompleteIndividual.
  destruct (db_orders db !! id) as [o|] eqn:Ho; [|done].
  destruct (lookup_lt_is_Some_2 (o_items o) i (Hvalid o eq_refl)) as [item Hitem].
  rewrite Hitem. unfold commit_or_keep. simpl. by rewrite Ho.
Qed.

Lemma markOrder_cons occ occs id o :
  markOrder (occ :: occs) id o =
  markOrder occs id (if bool_decide (orderId occ = id)
                     then with_items o (alter complete (itemIndex occ) (o_items o))
                     else o).
Proof. reflexivity. Qed.

Lemma seqOrder_cons occ occs id o :
  seqOrder (occ :: occs) id o =
  seqOrder occs id (if bool_decide (orderId occ = id)
                    then completeLine (itemIndex occ) o else o).
Proof. reflexivity. Qed.

Lemma completeLine_length i o : length (o_items (completeLine i o)) = length (o_items o).
Proof. unfold completeLine. simpl. apply length_alter. Qed.

Lemma completeEach_lookup occs : ∀ db,
  Forall (validOccurrence db) occs →
  db_ingredients (completeEach db occs) = db_ingredients db
  ∧ db_floorPlans (completeEach db occs) = db_floorPlans db
  ∧ ∀ id, db_orders (completeEach db occs) !! id = seqOrder occs id <$> db_orders db !! id.
Proof.
  induction occs as [|occ occs IH]; intros db Hvalid.
  - repeat split. intros id. simpl. by destruct (db_orders db !! id).
  - apply Forall_cons in Hvalid as [Hocc Hoccs].
    unfold completeEach. simpl. fold (completeEach (handleCompleteIndividual db (orderId occ) (itemIndex occ)) occs).
    rewrite (handleCompleteIndividual_valid _ _ _ (proj1 (validOccurrence_spec _ _) Hocc)).
    destruct (db_orders db !! orderId occ) as [o|] eqn:Ho.
    + destruct (IH (with_orders db (<[orderId occ := completeLine (itemIndex occ) o]> (db_orders db))))
        as (Hi & Hf & Hl).
      { eapply Forall_impl; [exact Hoccs|]. intros occ' Hv.
        rewrite validOccurrence_spec in Hv. apply validOccurrence_spec. intros o'. simpl.
        destruct (decide (orderId occ = orderId occ')) as [Heq|Hne].
        - rewrite <- Heq, lookup_insert_eq. intros [= <-].
          rewrite completeLine_length. apply Hv. by rewrite <- Heq.
        - rewrite lookup_insert_ne by done. apply Hv. }
      split; [done|]. split; [done|].
      intros id. rewrite Hl. simpl.
      destruct (decide (orderId occ = id)) as [<-|Hne].
      * rewrite lookup_insert_eq, Ho. simpl.
        by rewrite seqOrder_cons, bool_decide_eq_true_2.
      * rewrite lookup_insert_ne by done.
        destruct (db_orders db !! id); simpl; [|done].
        by rewrite seqOrder_cons, bool_decide_eq_false_2.
    + destruct (IH db Hoccs) as (Hi & Hf & Hl).
      split; [done|]. split; [done|].
      intros id. rewrite Hl.
      destruct (db_orders db !! id) eqn:Hid; simpl; [|done].
      rewrite seqOrder_cons, bool_decide_eq_false_2; [done|]. congruence.
Qed.

Lemma fetchOrderDocs_lookup db ids id :
  fetchOrderDocs db ids !! id = if bool_decide (id ∈ ids) then db_orders db !! id else None.
Proof.
  unfold fetchOrderDocs.
  assert (Hgen : ∀ acc : gmap string Order,
    fold_left (λ (orderDocs : gmap string Order) orderId',
                 match db_orders db !! orderId' with
                 | Some orderData => <[orderId' := orderData]> orderDocs
                 | None => orderDocs
                 end) ids acc !! id
    = if bool_decide (id ∈ ids)
      then match db_orders db !! id with Some o => Some o | None => acc !! id end
      else acc !! id).
  { induction ids as [|k ids IH]; intros acc; cbn [fold_left].
    - by rewrite bool_decide_eq_false_2 by apply not_elem_of_nil.
    - rewrite IH. destruct (decide (id = k)) as [->|Hne].
      + rewrite (bool_decide_eq_true_2 (k ∈ k :: ids)) by apply list_elem_of_here.
        destruct (db_orders db !! k) as [o|] eqn:Hk.
        * rewrite lookup_insert_eq. by case_bool_decide.
        * by case_bool_decide.
      + assert (Hiff : id ∈ k :: ids ↔ id ∈ ids).
        { rewrite elem_of_cons. split; [intros [?|?]; [congruence|done] | by right]. }
        rewrite (bool_decide_ext _ _ Hiff).
        destruct (db_orders db !! k) as [o|] eqn:Hk; [|done].
        by rewrite lookup_insert_ne. }
  rewrite Hgen. case_bool_decide; [|done]. by destruct (db_orders db !! id).
Qed.

Lemma markOccurrences_lookup occs : ∀ docs : gmap string Order,
  (∀ occ o, occ ∈ occs → docs !! orderId occ = Some o →
            (itemIndex occ < length (o_items o))%nat) →
  ∃ docs' : gmap string Order,
    fold_left markOccurrence occs (Some docs) = Some docs'
    ∧ ∀ id, docs' !! id = markOrder occs id <$> docs !! id.
Proof.
  induction occs as [|occ occs IH]; intros docs Hvalid.
  - exists docs. split; [done|]. intros id. simpl. by destruct (docs !! id).
  - simpl. destruct (docs !! orderId occ) as [o|] eqn:Ho.
    + destruct (lookup_lt_is_Some_2 (o_items o) (itemIndex occ)) as [item Hitem].
      { eapply Hvalid; [apply list_elem_of_here|done]. }
      rewrite Hitem.
      destruct (IH (<[orderId occ := with_items o (alter complete (itemIndex occ) (o_items o))]> docs))
        as (docs' & Hfold & Hl).
      { intros occ' o' Hin. destruct (decide (orderId occ = orderId occ')) as [Heq|Hne].
        - rewrite <- Heq, lookup_insert_eq. intros [= <-]. simpl. rewrite length_alter.
          eapply Hvalid; [by apply list_elem_of_further|]. by rewrite <- Heq.
        - rewrite lookup_insert_ne by done. apply Hvalid. by apply list_elem_of_further. }
      exists docs'. split; [done|]. intros id. rewrite Hl.
      destruct (decide (orderId occ = id)) as [<-|Hne].
      * rewrite lookup_insert_eq, Ho. simpl.
        by rewrite markOrder_cons, bool_decide_eq_true_2.
      * rewrite lookup_insert_ne by done.
        destruct (docs !! id); simpl; [|done].
        by rewrite markOrder_cons, bool_decide_eq_false_2.
    + destruct (IH docs) as (docs' & Hfold & Hl).
      { intros occ' o' Hin. apply Hvalid. by apply list_elem_of_further. }
      exists docs'. split; [done|]. intros id. rewrite Hl.
      destruct (docs !! id) eqn:Hid; simpl; [|done].
      rewrite markOrder_cons, bool_decide_eq_false_2; [done|]. congruence.
Qed.

(** Committing one update per entry of a list of documents with distinct
    ids, all present in the database. *)
Lemma commit_order_updates (F : Order → OrderUpdate) (l : list (string * Order)) : ∀ db,
  NoDup l.*1 →
  (∀ k d, (k, d) ∈ l → is_Some (db_orders db !! k)) →
  ∃ db', commit db (map (λ '(k, d), UpdateOrder k (F d)) l) = Some db'
         ∧ db_ingredients db' = db_ingredients db
         ∧ db_floorPlans db' = db_floorPlans db
         ∧ ∀ k, db_orders db' !! k =
                match (list_to_map l : gmap string Order) !! k with
                | Some d => update_order (F d) <$> db_orders db !! k
                | None => db_orders db !! k
                end.
Proof.
  induction l as [|[k d] l IH]; intros db Hnd Hex.
  - exists db. repeat split; done.
  - apply NoDup_cons in Hnd as [Hk Hnd]. simpl.
    destruct (Hex k d) as [o Ho]; [apply list_elem_of_here|]. rewrite Ho. simpl.
    destruct (IH (with_orders db (<[k := update_order (F d) o]> (db_orders db))) Hnd)
      as (db' & Hc & Hi & Hf & Hl).
    { intros k' d' Hin. simpl.
      destruct (decide (k = k')) as [->|Hne]; [by rewrite lookup_insert_eq|].
      rewrite lookup_insert_ne by done. eapply Hex. by apply list_elem_of_further. }
    exists db'. split; [done|]. split; [done|]. split; [done|].
    intros k'. rewrite Hl. simpl.
    destruct (decide (k = k')) as [<-|Hne].
    + rewrite lookup_insert_eq.
      rewrite (not_elem_of_list_to_map_1 (M := gmap string) l k Hk).
      by rewrite lookup_insert_eq, Ho.
    + rewrite !lookup_insert_ne by done. done.
Qed.

(** *** One order under a list of occurrences *)

Lemma forallb_alter_complete i (its : list OrderItem) :
  forallb isCompleted its = true →
  forallb isCompleted (alter complete i its) = true.
Proof.
  revert i. induction its as [|it its IH]; intros i; [done|].
  simpl. intros [Hit Hits]%andb_true_iff.
  destruct i as [|i]; simpl.
  - by rewrite Hits.
  - rewrite Hit. by apply IH.
Qed.

Lemma markOrder_fields occs id : ∀ o,
  markOrder occs id o = with_items o (o_items (markOrder occs id o)).
Proof.
  induction occs as [|occ occs IH]; intros o.
  - by destruct o.
  - rewrite markOrder_cons. case_bool_decide; [|apply IH].
    rewrite IH at 1. reflexivity.
Qed.

Lemma markOrder_monotone occs id : ∀ o,
  forallb isCompleted (o_items o) = true →
  forallb isCompleted (o_items (markOrder occs id o)) = true.
Proof.
  induction occs as [|occ occs IH]; intros o Hdone; [done|].
  rewrite markOrder_cons. case_bool_decide; apply IH; [|done].
  simpl. by apply forallb_alter_complete.
Qed.

Lemma markOrder_items_ext occs id : ∀ o1 o2,
  o_items o1 = o_items o2 →
  o_items (markOrder occs id o1) = o_items (markOrder occs id o2).
Proof.
  induction occs as [|occ occs IH]; intros o1 o2 Heq; [done|].
  rewrite !markOrder_cons. case_bool_decide; apply IH; [|done].
  simpl. by rewrite Heq.
Qed.

Lemma newStatus_twice its its' s :
  (forallb isCompleted its = true → forallb isCompleted its' = true) →
  newStatus its' (newStatus its s) = newStatus its' s.
Proof.
  intros Hmono. unfold newStatus.
  destruct (forallb isCompleted its') eqn:Hdone'; [done|].
  destruct (forallb isCompleted its) eqn:Hdone; [by specialize (Hmono eq_refl)|].
  by destruct s.
Qed.

Lemma markOrder_none occs id o :
  existsb (λ occ, bool_decide (orderId occ = id)) occs = false →
  markOrder occs id o = o.
Proof.
  revert o. induction occs as [|occ occs IH]; intros o; [done|].
  simpl. intros [Hocc Hoccs]%orb_false_iff.
  rewrite markOrder_cons, Hocc. by apply IH.
Qed.

Lemma seqOrder_none occs id o :
  existsb (λ occ, bool_decide (orderId occ = id)) occs = false →
  seqOrder occs id o = o.
Proof.
  revert o. induction occs as [|occ occs IH]; intros o; [done|].
  simpl. intros [Hocc Hoccs]%orb_false_iff.
  rewrite seqOrder_cons, Hocc. by apply IH.
Qed.

(** Completing the occurrences of an order one by one ends in the same
    document as marking them all and recomputing the status once. *)
Lemma seqOrder_markOrder occs id : ∀ o,
  existsb (λ occ, bool_decide (orderId occ = id)) occs = true →
  seqOrder occs id o =
  update_order
    (itemsStatusUpdate (o_items (markOrder occs id o))
       (newStatus (o_items (markOrder occs id o)) (o_status o))) o.
Proof.
  induction occs as [|occ occs IH]; intros o Hex; [done|].
  rewrite seqOrder_cons, markOrder_cons.
  destruct (bool_decide (orderId occ = id)) eqn:Hocc.
  - destruct (existsb (λ occ, bool_decide (orderId occ = id)) occs) eqn:Hoccs.
    + rewrite (IH _ eq_refl).
      set (its1 := alter complete (itemIndex occ) (o_items o)).
      assert (Hitems : o_items (markOrder occs id (completeLine (itemIndex occ) o))
                       = o_items (markOrder occs id (with_items o its1)))
        by (by apply markOrder_items_ext).
      rewrite Hitems. unfold completeLine. fold its1. simpl.
      rewrite newStatus_twice; [by destruct o|].
      intros Hdone. apply (markOrder_monotone occs id (with_items o its1)), Hdone.
    + rewrite (seqOrder_none _ _ _ Hoccs), (markOrder_none _ _ _ Hoccs). reflexivity.
  - simpl in Hex. rewrite Hocc in Hex. by apply IH.
Qed.

(** *** The two handlers *)

Lemma handleBumpAll_lookup db summary :
  Forall (validOccurrence db) (individualOrders summary) →
  db_ingredients (handleBumpAll db summary) = db_ingredients db
  ∧ db_floorPlans (handleBumpAll db summary) = db_floorPlans db
  ∧ ∀ id, db_orders (handleBumpAll db summary) !! id
          = seqOrder (individualOrders summary) id <$> db_orders db !! id.
Proof.
  intros Hvalid. unfold handleBumpAll.
  set (occs := individualOrders summary) in *.
  set (ids := remove_dups (map orderId occs)).
  destruct (markOccurrences_lookup occs (fetchOrderDocs db ids)) as (docs' & Hfold & Hdocs').
  { intros occ o Hin. rewrite fetchOrderDocs_lookup.
    case_bool_decide; [|done]. intros Ho.
    by apply (proj1 (validOccurrence_spec _ _) (proj1 (Forall_forall _ _) Hvalid occ Hin)). }
  rewrite Hfold.
  destruct (commit_order_updates
              (λ d, itemsStatusUpdate (o_items d) (newStatus (o_items d) (o_status d)))
              (map_to_list docs') db) as (db' & Hcommit & Hi & Hf & Hl).
  { apply NoDup_fst_map_to_list. }
  { intros k d Hin%elem_of_map_to_list.
    rewrite Hdocs', fetchOrderDocs_lookup in Hin.
    case_bool_decide; [|done]. destruct (db_orders db !! k); [by eexists|done]. }
  unfold commit_or_keep, bumpBatch. rewrite Hcommit. simpl.
  split; [done|]. split; [done|].
  intros id. rewrite Hl, list_to_map_to_list, Hdocs', fetchOrderDocs_lookup.
  assert (Hmem : bool_decide (id ∈ ids)
                 = existsb (λ occ, bool_decide (orderId occ = id)) occs).
  { apply eq_true_iff_eq. rewrite bool_decide_eq_true, existsb_exists.
    unfold ids. rewrite elem_of_remove_dups, list_elem_of_fmap.
    split.
    - intros (occ & -> & Hin). exists occ. rewrite <- list_elem_of_In.
      split; [done|]. by apply bool_decide_eq_true.
    - intros (occ & Hin & Heq). exists occ. apply bool_decide_eq_true in Heq.
      by rewrite list_elem_of_In. }
  rewrite Hmem.
  destruct (existsb (λ occ, bool_decide (orderId occ = id)) occs) eqn:Hex.
  - destruct (db_orders db !! id) as [o|]; simpl; [|done].
    rewrite (seqOrder_markOrder _ _ _ Hex).
    by rewrite (markOrder_fields occs id o) at 3.
  - simpl. destruct (db_orders db !! id) as [o|]; simpl; [|done].
    by rewrite (seqOrder_none _ _ _ Hex).
Qed.

Lemma handleBumpAll_completeEach db summary :
  Forall (validOccurrence db) (individualOrders summary) →
  handleBumpAll db summary = completeEach db (individualOrders summary).
Proof.
  intros Hvalid.
  destruct (handleBumpAll_lookup db summary Hvalid) as (Hi & Hf & Hl).
  destruct (completeEach_lookup (individualOrders summary) db Hvalid) as (Hi' & Hf' & Hl').
  apply Firestore_eq; [|congruence|congruence].
  apply map_eq. intros id. by rewrite Hl, Hl'.
Qed.

Lemma forallb_isCompleted_Forall (its : list OrderItem) :
  forallb isCompleted its = true ↔ Forall (λ it, isCompleted it = true) its.
Proof. rewrite forallb_forall, Forall_forall. by setoid_rewrite list_elem_of_In. Qed.

(** C7.  Marking one occurrence done sets the completion flag of that
    line and leaves every other field of the line, the other lines, the
    other fields of the order and the other documents as they are; the
    status of the order becomes Ready if all its lines are now completed,
    else In Progress if it was New, else stays.  Bumping a whole group
    leaves the database exactly as completing each of its occurrences
    one by one would, across all the orders the group spans. *)
Theorem kitchen_completion_rules (db : Firestore) :
  (∀ id i o item,
      db_orders db !! id = Some o →
      o_items o !! i = Some item →
      ∃ o' item',
        db_orders (handleCompleteIndividual db id i) !! id = Some o'
        ∧ o_items o' !! i = Some item'
        ∧ markedDone item item'
        ∧ length (o_items o') = length (o_items o)
        ∧ (∀ j, j ≠ i → o_items o' !! j = o_items o !! j)
        ∧ (Forall (λ it, isCompleted it = true) (o_items o') → o_status o' = Ready)
        ∧ (¬ Forall (λ it, isCompleted it = true) (o_items o') →
           o_status o = New → o_status o' = InProgress)
        ∧ (¬ Forall (λ it, isCompleted it = true) (o_items o') →
           o_status o ≠ New → o_status o' = o_status o)
        ∧ sameButItemsAndStatus o o'
        ∧ (∀ id', id' ≠ id →
           db_orders (handleCompleteIndividual db id i) !! id' = db_orders db !! id')
        ∧ db_ingredients (handleCompleteIndividual db id i) = db_ingredients db
        ∧ db_floorPlans (handleCompleteIndividual db id i) = db_floorPlans db)
  ∧ (∀ summary,
      Forall (validOccurrence db) (individualOrders summary) →
      handleBumpAll db summary = completeEach db (individualOrders summary)).
Proof.
  split; [|apply handleBumpAll_completeEach].
  intros id i o item Ho Hitem.
  rewrite (handleCompleteIndividual_valid db id i), Ho.
  2:{ intros o' Ho'. assert (o' = o) as -> by congruence. by eapply lookup_lt_Some. }
  exists (completeLine i o), (complete item). simpl. rewrite lookup_insert_eq.
  split; [done|]. split; [by rewrite list_lookup_alter, decide_True, Hitem|].
  split; [by unfold markedDone|]. split; [by rewrite length_alter|].
  split; [by intros j Hne; rewrite list_lookup_alter_ne|].
  assert (Hothers : ∀ id', id' ≠ id →
            <[id := completeLine i o]> (db_orders db) !! id' = db_orders db !! id')
    by (by intros id' Hne; rewrite lookup_insert_ne).
  assert (Hsame : sameButItemsAndStatus o (completeLine i o))
    by (by unfold sameButItemsAndStatus).
  unfold newStatus. rewrite <- forallb_isCompleted_Forall.
  destruct (forallb isCompleted (alter complete i (o_items o))).
  - split; [done|]. split; [by intros Hnot|]. split; [by intros Hnot|done].
  - split; [done|]. split; [|split; [|done]]; intros _ Hst.
    + by rewrite bool_decide_eq_true_2.
    + by rewrite bool_decide_eq_false_2.
Qed.

End Kitchen.

Lemma kitchen_completion_rules_witness :
  Forall (validOccurrence Sample.kitchenDb)
         (KitchenDisplayPage.individualOrders Sample.burgerGroup)
  ∧ KitchenDisplayPage.handleBumpAll Sample.kitchenDb Sample.burgerGroup
    = completeEach Sample.kitchenDb (KitchenDisplayPage.individualOrders Sample.burgerGroup)
  ∧ ∃ o' item',
      db_orders (KitchenDisplayPage.handleCompleteIndividual Sample.kitchenDb "o1" 0) !! "o1"
      = Some o'
      ∧ o_items o' !! 0%nat = Some item'
      ∧ markedDone (Sample.line "burger" false) item'
      ∧ o_items o' !! 1%nat = Some (Sample.line "fries" false)
      ∧ o_status o' = InProgress.
Proof.
  assert (Hvalid : Forall (validOccurrence Sample.kitchenDb)
                          (KitchenDisplayPage.individualOrders Sample.burgerGroup))
    by (apply (bool_decide_unpack _); vm_compute; exact I).
  split; [exact Hvalid|].
  split; [exact (proj2 (kitchen_completion_rules Sample.kitchenDb) Sample.burgerGroup Hvalid)|].
  destruct (proj1 (kitchen_completion_rules Sample.kitchenDb) "o1" 0%nat
              (Sample.openOrder "T1" [Sample.line "burger" false; Sample.line "fries" false]
                                New 100)
              (Sample.line "burger" false) eq_refl eq_refl)
    as (o' & item' & Ho' & Hitem' & Hdone & _ & Hrest & _ & Hnew & _).
  exists o', item'. split; [exact Ho'|]. split; [exact Hitem'|]. split; [exact Hdone|].
  split; [by rewrite Hrest|].
  apply Hnew; [|reflexivity].
  intros Hall. rewrite Forall_forall in Hall.
  specialize (Hall (Sample.line "fries" false)).
  discriminate Hall. apply list_elem_of_lookup. exists 1%nat. by rewrite Hrest.
Defined.

Example bump_burgers_statuses :
  o_status <$> db_orders (KitchenDisplayPage.handleBumpAll Sample.kitchenDb Sample.burgerGroup)
  = {[ "o1" := InProgress; "o2" := Ready; "o3" := Ready ]}.
Proof. apply (bool_decide_unpack _). vm_compute. exact I. Qed.

(** *** The groups of the work queue *)

Section Aggregator.

Import KitchenDisplayPage.

Lemma addToSummary_occurrences (P : KDSIndividualOrder → Prop) key fresh q occ summaries :
  individualOrders fresh = [] →
  P occ →
  (∀ k s o, (k, s) ∈ summaries → o ∈ individualOrders s → P o) →
  ∀ k s o, (k, s) ∈ addToSummary key fresh q occ summaries → o ∈ individualOrders s → P o.
Proof.
  intros Hfresh Hocc. induction summaries as [|[k0 s0] rest IH]; intros Hinv k s o; simpl.
  - intros [= -> ->]%list_elem_of_singleton. simpl. rewrite Hfresh. simpl.
    by intros ->%list_elem_of_singleton.
  - case_bool_decide as Hk.
    + intros [[= -> ->] | Hin]%elem_of_cons.
      * simpl. intros [Ho | ->%list_elem_of_singleton]%elem_of_app; [|done].
        apply (Hinv k0 s0 o); [left|done].
      * apply (Hinv k s o). by right.
    + intros [[= -> ->] | Hin]%elem_of_cons.
      * apply (Hinv k0 s0 o). left.
      * intros Ho. refine (IH _ k s o Hin Ho).
        intros k' s' o' Hin'. apply (Hinv k' s' o'). by right.
Qed.

Lemma summarizeItem_occurrences orders menuItems selectedStation order summaries index item :
  order ∈ orders →
  o_items order.2 !! index = Some item →
  (∀ k s o, (k, s) ∈ summaries → o ∈ individualOrders s → pointsInto orders o) →
  ∀ k s o, (k, s) ∈ summarizeItem menuItems selectedStation order summaries (index, item) →
           o ∈ individualOrders s → pointsInto orders o.
Proof.
  intros Horder Hitem Hinv. unfold summarizeItem.
  destruct (isCompleted item) eqn:Hdone; [done|].
  destruct (negb _ && negb _); [done|].
  apply addToSummary_occurrences; [done| |done].
  exists order.2, item. simpl. split; [by destruct order|done].
Qed.

Lemma insertByQuantity_Permutation s l : insertByQuantity s l ≡ₚ s :: l.
Proof.
  induction l as [|x l IH]; simpl; [done|].
  case_bool_decide; [|done]. rewrite IH. apply Permutation_swap.
Qed.

(** Every occurrence of every group of the work queue names a fetched
    order and a line of it that is not completed. *)
Lemma itemSummaries_occurrences orders menuItems selectedStation summary occ :
  summary ∈ itemSummaries orders menuItems selectedStation →
  occ ∈ individualOrders summary →
  pointsInto orders occ.
Proof.
  unfold itemSummaries.
  set (step := λ summaries order,
         fold_left (summarizeItem menuItems selectedStation order)
                   (imap pair (o_items order.2)) summaries).
  assert (Hinner : ∀ order (l : list (nat * OrderItem)) summaries,
            order ∈ orders →
            (∀ i x, (i, x) ∈ l → o_items order.2 !! i = Some x) →
            (∀ k s o, (k, s) ∈ summaries → o ∈ individualOrders s → pointsInto orders o) →
            ∀ k s o, (k, s) ∈ fold_left (summarizeItem menuItems selectedStation order)
                                        l summaries →
                     o ∈ individualOrders s → pointsInto orders o).
  { intros order l. induction l as [|[i x] l IH]; intros summaries Horder Hl Hinv; [done|].
    simpl. apply IH; [done| |].
    - intros i' x' Hin. apply Hl. by right.
    - apply summarizeItem_occurrences; [done| |done]. apply Hl. left. }
  assert (Houter : ∀ (os : list (string * Order)) summaries,
            (∀ order, order ∈ os → order ∈ orders) →
            (∀ k s o, (k, s) ∈ summaries → o ∈ individualOrders s → pointsInto orders o) →
            ∀ k s o, (k, s) ∈ fold_left step os summaries →
                     o ∈ individualOrders s → pointsInto orders o).
  { intros os. induction os as [|order os IH]; intros summaries Hos Hinv; [done|].
    simpl. apply IH.
    - intros order' Hin. apply Hos. by right.
    - unfold step. apply Hinner; [apply Hos; left| |done].
      intros i x (i' & y & [= -> ->] & Hy)%elem_of_lookup_imap. done. }
  intros Hsummary Hocc.
  assert (Hperm : ∀ l : list KDSItemSummary, foldr insertByQuantity [] l ≡ₚ l).
  { induction l as [|x l IH]; simpl; [done|]. by rewrite insertByQuantity_Permutation, IH. }
  rewrite Hperm in Hsummary.
  apply list_elem_of_fmap in Hsummary as ([k s] & -> & Hin).
  eapply (Houter orders []); [done| |exact Hin|exact Hocc].
  intros k' s' o' Hnil. by apply elem_of_nil in Hnil.
Qed.

Lemma insertById_Permutation o l : insertById o l ≡ₚ o :: l.
Proof.
  induction l as [|x l IH]; simpl; [done|].
  destruct (String.leb o.1 x.1); [done|]. rewrite IH. apply Permutation_swap.
Qed.

Lemma elem_of_queryOrders p db id o :
  (id, o) ∈ queryOrders p db ↔ db_orders db !! id = Some o ∧ p o = true.
Proof.
  unfold queryOrders.
  assert (Hperm : ∀ l : list (string * Order), foldr insertById [] l ≡ₚ l).
  { induction l as [|x l IH]; simpl; [done|]. by rewrite insertById_Permutation, IH. }
  rewrite Hperm, list_elem_of_In, filter_In, <- list_elem_of_In, elem_of_map_to_list.
  done.
Qed.

(** The groups aggregated from the kitchen's query on a database are
    valid for that database. *)
Lemma itemSummaries_valid userId db menuItems selectedStation summary :
  summary ∈ itemSummaries (activeOrders userId db) menuItems selectedStation →
  Forall (validOccurrence db) (individualOrders summary).
Proof.
  intros Hsummary. apply Forall_forall. intros occ Hocc.
  destruct (itemSummaries_occurrences _ _ _ _ _ Hsummary Hocc) as (o & item & Hin & Hitem & _).
  apply elem_of_queryOrders in Hin as [Ho _].
  unfold validOccurrence. rewrite Ho. by eapply lookup_lt_Some.
Qed.

End Aggregator.

(** Bumping a group the page has aggregated from the current database is
    completing its occurrences one by one. *)
Lemma handleBumpAll_current_group userId db menuItems selectedStation summary :
  summary ∈ KitchenDisplayPage.itemSummaries (KitchenDisplayPage.activeOrders userId db)
              menuItems selectedStation →
  KitchenDisplayPage.handleBumpAll db summary
  = completeEach db (KitchenDisplayPage.individualOrders summary).
Proof.
  intros Hsummary. apply handleBumpAll_completeEach.
  by eapply itemSummaries_valid.
Qed.

Example burgerGroup_aggregated :
  KitchenDisplayPage.itemSummaries (KitchenDisplayPage.activeOrders "r1" Sample.kitchenDb)
    Sample.menu3 "all" !! 0%nat
  = Some Sample.burgerGroup.
Proof. by_eval. Qed.


(** ** Floor status *)

Section Floor.

Import FloorPlanPage.

Lemma addOrderByTable_lookup (m : gmap string (list (string * Order))) order key :
  default [] (addOrderByTable m order !! key)
  = default [] (m !! key) ++ (if matchesKey key order then [order] else []).
Proof.
  unfold addOrderByTable, matchesKey.
  destruct (o_plateNumber order.2) as [plate|]; [|by rewrite app_nil_r].
  destruct (truthy_string plate && negb (bool_decide (o_orderType order.2 = Some Takeaway)));
    simpl; [|by rewrite app_nil_r].
  destruct (decide (toUpperCase plate = key)) as [<-|Hne].
  - rewrite (bool_decide_eq_true_2 (toUpperCase plate = toUpperCase plate)) by done.
    rewrite lookup_alter_eq.
    case_bool_decide as Hsome.
    + destruct Hsome as [l Hl]. by rewrite Hl.
    + rewrite lookup_insert_eq. apply eq_None_not_Some in Hsome. by rewrite Hsome.
  - rewrite (bool_decide_eq_false_2 _ Hne), lookup_alter_ne by done. rewrite app_nil_r.
    case_bool_decide; [done|]. by rewrite lookup_insert_ne.
Qed.

Lemma ordersByTable_lookup orders key :
  default [] (ordersByTable orders !! key) = List.filter (matchesKey key) orders.
Proof.
  unfold ordersByTable.
  assert (Hgen : ∀ m : gmap string (list (string * Order)),
            default [] (fold_left addOrderByTable orders m !! key)
            = default [] (m !! key) ++ List.filter (matchesKey key) orders).
  { induction orders as [|order orders IH]; intros m; simpl.
    - by rewrite app_nil_r.
    - rewrite IH, addOrderByTable_lookup.
      destruct (matchesKey key order); simpl; by rewrite <- app_assoc. }
  by rewrite Hgen, lookup_empty.
Qed.

Lemma insertByCreatedAt_Permutation o l : insertByCreatedAt o l ≡ₚ o :: l.
Proof.
  induction l as [|x l IH]; simpl; [done|].
  case_bool_decide; [|done]. rewrite IH. apply Permutation_swap.
Qed.

Lemma sortByCreatedAt_Permutation l : sortByCreatedAt l ≡ₚ l.
Proof.
  induction l as [|x l IH]; simpl; [done|].
  by rewrite insertByCreatedAt_Permutation, IH.
Qed.

Lemma existsb_Permutation {A} (p : A → bool) (l1 l2 : list A) :
  l1 ≡ₚ l2 → existsb p l1 = existsb p l2.
Proof.
  intros Hperm. apply eq_true_iff_eq. rewrite !existsb_exists.
  by setoid_rewrite <- list_elem_of_In; setoid_rewrite Hperm.
Qed.

Lemma existsb_true_elem_of {A} (p : A → bool) (l : list A) :
  existsb p l = true ↔ ∃ x, x ∈ l ∧ p x = true.
Proof. rewrite existsb_exists. by setoid_rewrite list_elem_of_In. Qed.

Lemma existsb_false_elem_of {A} (p : A → bool) (l : list A) :
  existsb p l = false ↔ ∀ x, x ∈ l → p x = false.
Proof.
  rewrite <- not_true_iff_false, existsb_true_elem_of. split.
  - intros Hno x Hx. apply not_true_iff_false. intros Hp. apply Hno. by exists x.
  - intros Hall (x & Hx & Hp). by rewrite (Hall x Hx) in Hp.
Qed.

(** The status [deriveStatus] gives, case by case. *)
Lemma deriveStatus_cases table (tableOrders : list (string * Order)) :
  let st := deriveStatus table tableOrders in
  (t_status table = Some needs_cleaning → st = needs_cleaning)
  ∧ (t_status table ≠ Some needs_cleaning →
     (∃ o, o ∈ tableOrders ∧ o_status o.2 = Ready) → st = attention)
  ∧ (t_status table ≠ Some needs_cleaning →
     (∀ o, o ∈ tableOrders → o_status o.2 ≠ Ready) →
     (∃ o, o ∈ tableOrders ∧ (o_status o.2 = New ∨ o_status o.2 = InProgress)) →
     st = ordered)
  ∧ (t_status table ≠ Some needs_cleaning →
     tableOrders ≠ [] →
     (∀ o, o ∈ tableOrders →
           o_status o.2 ≠ Ready ∧ o_status o.2 ≠ New ∧ o_status o.2 ≠ InProgress) →
     st = available)
  ∧ (t_status table ≠ Some needs_cleaning → tableOrders = [] →
     t_status table = Some seated → st = seated)
  ∧ (t_status table ≠ Some needs_cleaning → tableOrders = [] →
     t_status table ≠ Some seated → st = available).
Proof.
  intros st. subst st. unfold deriveStatus.
  split; [by intros ->|].
  assert (Hready : ∀ l : list (string * Order),
            (∃ o, o ∈ l ∧ o_status o.2 = Ready)
            → existsb (λ o, bool_decide (o_status o.2 = Ready)) l = true).
  { intros l (o & Ho & Hst). apply existsb_true_elem_of. exists o.
    by rewrite bool_decide_eq_true. }
  assert (Hnoready : ∀ l : list (string * Order),
            (∀ o, o ∈ l → o_status o.2 ≠ Ready)
            → existsb (λ o, bool_decide (o_status o.2 = Ready)) l = false).
  { intros l Hall. apply existsb_false_elem_of. intros o Ho.
    by apply bool_decide_eq_false, Hall. }
  assert (Hpos : ∀ l : list (string * Order), l ≠ [] → bool_decide (0 < length l)%nat = true).
  { intros [|x l] Hne; [done|]. apply bool_decide_eq_true. simpl. lia. }
  repeat split; intros Hnc.
  - intros Hex. rewrite bool_decide_eq_false_2 by done.
    rewrite Hpos by (destruct Hex as (o & Ho & _); by intros ->; inversion Ho).
    by rewrite Hready.
  - intros Hno Hex. rewrite bool_decide_eq_false_2 by done.
    rewrite Hpos by (destruct Hex as (o & Ho & _); by intros ->; inversion Ho).
    rewrite Hnoready by done.
    assert (Hact : existsb (λ o, bool_decide (o_status o.2 = InProgress)
                                 || bool_decide (o_status o.2 = New)) tableOrders = true).
    { destruct Hex as (o & Ho & Hst). apply existsb_true_elem_of. exists o.
      split; [done|]. destruct Hst as [-> | ->]; by vm_compute. }
    by rewrite Hact.
  - intros Hne Hall. rewrite bool_decide_eq_false_2 by done.
    rewrite Hpos by done. rewrite Hnoready by (intros o Ho; by apply Hall).
    assert (Hact : existsb (λ o, bool_decide (o_status o.2 = InProgress)
                                 || bool_decide (o_status o.2 = New)) tableOrders = false).
    { apply existsb_false_elem_of. intros o Ho. destruct (Hall o Ho) as (_ & Hn & Hp).
      by rewrite !bool_decide_eq_false_2. }
    by rewrite Hact.
  - intros -> Hs. rewrite bool_decide_eq_false_2 by done. simpl.
    by rewrite bool_decide_eq_true_2.
  - intros -> Hs. rewrite bool_decide_eq_false_2 by done. simpl.
    by rewrite bool_decide_eq_false_2.
Qed.

Lemma tablesWithStatus_lookup floorPlan orders i table :
  fp_tables floorPlan !! i = Some table →
  tablesWithStatus (Some floorPlan) orders !! i
  = Some {| tws_table := table;
            tws_status := deriveStatus table (sortByCreatedAt (openOrdersOf table orders));
            tws_orders := sortByCreatedAt (openOrdersOf table orders) |}.
Proof.
  intros Htable. unfold tablesWithStatus. rewrite list_lookup_fmap, Htable. simpl.
  by rewrite ordersByTable_lookup.
Qed.

Lemma elem_of_sortByCreatedAt o l : o ∈ sortByCreatedAt l ↔ o ∈ l.
Proof. by rewrite sortByCreatedAt_Permutation. Qed.



Lemma specOpenOrders_openOrdersOf table orders :
  label table ≠ "" → specOpenOrders table orders = openOrdersOf table orders.
Proof.
  intros Hlabel. unfold specOpenOrders, openOrdersOf.
  induction orders as [|order orders IH]; [done|]. simpl. rewrite IH.
  assert (Hsame : bool_decide (toUpperCase <$> o_plateNumber order.2
                               = Some (toUpperCase (label table)))
                  && negb (bool_decide (o_orderType order.2 = Some Takeaway))
                  = matchesKey (toUpperCase (label table)) order); [|by rewrite Hsame].
  unfold matchesKey. destruct (o_plateNumber order.2) as [plate|]; simpl; [|done].
  destruct (decide (toUpperCase plate = toUpperCase (label table))) as [Heq|Hne].
  - rewrite (bool_decide_eq_true_2 (Some _ = Some _)) by congruence.
    rewrite (bool_decide_eq_true_2 (toUpperCase plate = _) Heq).
    assert (truthy_string plate = true) as ->; [|by rewrite andb_true_r].
    destruct plate; [|done]. destruct (label table); [done|discriminate].
  - rewrite (bool_decide_eq_false_2 (Some _ = Some _)) by congruence.
    rewrite (bool_decide_eq_false_2 (toUpperCase plate = _) Hne). by rewrite andb_false_r.
Qed.

(** Where every matched order is New, In Progress or Ready and the label
    is not empty, the derived status is the one of the five-step
    priority. *)
Lemma tablesWithStatus_five_step floorPlan orders :
  (∀ table, table ∈ fp_tables floorPlan →
     label table ≠ ""
     ∧ ∀ o, o ∈ openOrdersOf table orders →
            o_status o.2 = New ∨ o_status o.2 = InProgress ∨ o_status o.2 = Ready) →
  tws_status <$> tablesWithStatus (Some floorPlan) orders
  = (λ table, floorStatusSpec table orders) <$> fp_tables floorPlan.
Proof.
  intros Hall. unfold tablesWithStatus. rewrite <- list_fmap_compose.
  apply Forall_fmap_ext_1, Forall_forall. intros table Htable. simpl.
  rewrite ordersByTable_lookup.
  destruct (Hall table Htable) as [Hlabel Hst].
  unfold floorStatusSpec. rewrite (specOpenOrders_openOrdersOf _ _ Hlabel).
  fold (openOrdersOf table orders). unfold deriveStatus.
  rewrite !(existsb_Permutation _ _ _ (sortByCreatedAt_Permutation _)).
  rewrite (Permutation_length (sortByCreatedAt_Permutation _)).
  case_bool_decide as Hnc; [done|].
  destruct (openOrdersOf table orders) as [|o l] eqn:Hopen; [done|].
  rewrite bool_decide_eq_true_2 by (simpl; lia).
  destruct (existsb (λ o, bool_decide (o_status o.2 = Ready)) (o :: l)) eqn:Hready; [done|].
  assert (Hactive : existsb (λ o, bool_decide (o_status o.2 = InProgress)
                                  || bool_decide (o_status o.2 = New)) (o :: l) = true).
  { apply existsb_true_elem_of. exists o. split; [apply list_elem_of_here|].
    rewrite existsb_false_elem_of in Hready.
    specialize (Hready o (list_elem_of_here _ _)). apply bool_decide_eq_false in Hready.
    destruct (Hst o (list_elem_of_here _ _)) as [-> | [-> | ?]]; done. }
  rewrite Hactive.
  assert (Hactive' : existsb (λ o, bool_decide (o_status o.2 = New ∨ o_status o.2 = InProgress))
                             (o :: l) = true); [|by rewrite Hactive'].
  apply existsb_true_elem_of. apply existsb_true_elem_of in Hactive as (x & Hx & Hp).
  exists x. split; [done|]. apply bool_decide_eq_true.
  apply orb_true_iff in Hp as [Hp|Hp]; apply bool_decide_eq_true in Hp; tauto.
Qed.



End Floor.


(** The statuses of the sample floor: Ready beside In Progress gives
    attention, needs_cleaning wins over a New order, a seated table with
    only a Pending order shows available, a seated table without orders
    shows seated. *)
Example floor1_statuses :
  FloorPlanPage.tws_status
    <$> FloorPlanPage.tablesWithStatus (Some Sample.floor1) Sample.floorOrders
  = [attention; needs_cleaning; available; seated].
Proof. vm_compute. reflexivity. Qed.


(** ** Re-hydration of a table's orders *)

Lemma elem_of_alter {A} (f : A → A) (i : nat) (l : list A) (x : A) :
  x ∈ alter f i l → ∃ y, y ∈ l ∧ (x = y ∨ x = f y).
Proof.
  revert i. induction l as [|y l IH]; intros i; [by intros ?%elem_of_nil|].
  destruct i as [|i]; simpl; intros [->|Hx]%elem_of_cons.
  - exists y. split; [left|by right].
  - exists x. split; [by right|by left].
  - exists y. split; [left|by left].
  - destruct (IH _ Hx) as (z & Hz & Hxz). exists z. split; [by right|done].
Qed.

Lemma fold_left_concat {A B C} (f : A → B → A) (g : C → list B) (ls : list C) (a : A) :
  fold_left (λ a l, fold_left f (g l) a) ls a = fold_left f (concat (g <$> ls)) a.
Proof.
  revert a. induction ls as [|l ls IH]; intros a; simpl; [done|].
  by rewrite IH, fold_left_app.
Qed.

Lemma rehydrateItem_stemsFrom allItems Date_now (cart : list CartItem) item line :
  line ∈ POSModal.rehydrateItem allItems Date_now cart item →
  (∃ line0, line0 ∈ cart
            ∧ ∀ item0, stemsFrom allItems line0 item0 → stemsFrom allItems line item0)
  ∨ stemsFrom allItems line item.
Proof.
  unfold POSModal.rehydrateItem.
  destruct (findIndex _ cart) as [i|].
  - intros (line0 & Hin & [-> | ->])%elem_of_alter; left; exists line0; by split.
  - intros [Hin | ->%list_elem_of_singleton]%elem_of_app.
    + left. exists line. by split.
    + right. unfold stemsFrom. simpl. repeat split; try done.
      * intros mi -> Hprice. unfold truthy_number.
        by rewrite bool_decide_eq_false_2.
      * intros mi -> Hprice. unfold truthy_number.
        by rewrite bool_decide_eq_true_2.
      * by intros ->.
Qed.

Lemma rehydrate_fold_stemsFrom allItems Date_now (its : list OrderItem) : ∀ cart line,
  line ∈ fold_left (POSModal.rehydrateItem allItems Date_now) its cart →
  (∃ line0, line0 ∈ cart
            ∧ ∀ item0, stemsFrom allItems line0 item0 → stemsFrom allItems line item0)
  ∨ ∃ item, item ∈ its ∧ stemsFrom allItems line item.
Proof.
  induction its as [|item its IH]; intros cart line; simpl.
  - intros Hin. left. exists line. by split.
  - intros [(line1 & Hin1 & Hkeep) | (item' & Hin' & Hstem)]%IH.
    + destruct (rehydrateItem_stemsFrom _ _ _ _ _ Hin1) as [(line0 & Hin0 & Hkeep0) | Hstem].
      * left. exists line0. split; [done|]. intros item0 H0. by apply Hkeep, Hkeep0.
      * right. exists item. split; [left|by apply Hkeep].
    + right. exists item'. split; [by right|done].
Qed.

(** Every line of the cart re-hydrated from the persisted orders of a
    table stems from one of their order items: its menu item id, name,
    selected modifiers and note are the ones snapshotted on that item,
    while its base price is the current price of the menu item with that
    id when the menu has one with a non-zero price, and otherwise the
    price stored on the order item (base price plus modifier prices). *)
Lemma rehydrated_lines_stem_from_items allItems Date_now fetchedOrders line :
  line ∈ POSModal.rehydrate allItems Date_now fetchedOrders →
  ∃ order item,
    order ∈ fetchedOrders ∧ item ∈ o_items order ∧ stemsFrom allItems line item.
Proof.
  unfold POSModal.rehydrate. rewrite (fold_left_concat _ o_items).
  intros [(line0 & Hin0 & _) | (item & Hitem & Hstem)]%rehydrate_fold_stemsFrom.
  - by apply elem_of_nil in Hin0.
  - apply list_elem_of_In, in_concat in Hitem as (its & Hits & Hitem).
    apply list_elem_of_In, list_elem_of_fmap in Hits as (order & -> & Horder).
    exists order, item. split; [done|]. split; [by apply list_elem_of_In|done].
Qed.

Example rehydrated_latte_stems_from_its_item :
  let line := {| cartItemId := "latte--1700000000000"; ci_id := "latte";
                 ci_name := "Latte"; basePrice := qc 3 1; ci_quantity := 1;
                 ci_selectedModifiers := []; ci_notes := Some "" |} in
  line ∈ POSModal.rehydrate [Sample.latte (qc 3 1)] Sample.clock [Sample.latteOrder]
  ∧ ∃ order item,
      order ∈ [Sample.latteOrder] ∧ item ∈ o_items order
      ∧ stemsFrom [Sample.latte (qc 3 1)] line item.
Proof.
  intros line.
  assert (Hin : line ∈ POSModal.rehydrate [Sample.latte (qc 3 1)] Sample.clock
                         [Sample.latteOrder])
    by (vm_compute; left).
  split; [exact Hin|].
  exact (rehydrated_lines_stem_from_items _ _ _ _ Hin).
Qed.

(** C6, on the code.  The re-hydration effect takes the base price
    of a line from the live menu and falls back on the stored price.

    - A latte ordered at 2.000 comes back at 2.000 under the menu of the
      time and at 3.000 once the menu price is 3.000.  The POS then asks
      3.000 for the table, and finalizing leaves the stored order at its
      total of 2.000.
    - The stored price of an item holds its modifiers already.  When the
      menu has no item with the id, the stored price becomes the base
      price and the modifiers are attached again: three lattes with oat
      milk stored at a subtotal of 7.500 come back at 9.000. *)
Theorem rehydrate_reprices_stored_lines :
  (oi_price <$> o_items Sample.latteOrder = [qc 2 1]
   ∧ basePrice <$> POSModal.rehydrate [Sample.latte (qc 2 1)] Sample.clock [Sample.latteOrder]
     = [qc 2 1]
   ∧ basePrice <$> POSModal.rehydrate [Sample.latte (qc 3 1)] Sample.clock [Sample.latteOrder]
     = [qc 3 1])
  ∧ (let menu := [Sample.latte (qc 3 1)] in
     let cart := POSModal.rehydrate menu Sample.clock
                   (omap (λ id, db_orders Sample.latteDb !! id) ["o1"]) in
     let db' := POSModal.handleFinalizeOrder "r1" DineIn (Some "T1") (Some ["o1"]) menu None
                  cart [] "T1" cash "" Sample.latteDb "n1" 200 in
     POSModal.total None cart [] = qc 3 1
     ∧ (o_status <$> db_orders db' !! "o1") = Some Completed
     ∧ (o_total <$> db_orders db' !! "o1") = Some (qc 2 1)
     ∧ dom (db_orders db') = {[ "o1" ]})
  ∧ (oi_price <$> o_items Sample.oatOrder = [qc 25 10]
     ∧ o_subtotal Sample.oatOrder = qc 75 10
     ∧ POSModal.subtotal (POSModal.rehydrate [Sample.latte (qc 2 1)] Sample.clock
                            [Sample.oatOrder]) = qc 75 10
     ∧ POSModal.subtotal (POSModal.rehydrate [] Sample.clock [Sample.oatOrder]) = qc 9 1)
  ∧ ¬ (∀ allItems allItems' Date_now fetchedOrders,
         basePrice <$> POSModal.rehydrate allItems Date_now fetchedOrders
         = basePrice <$> POSModal.rehydrate allItems' Date_now fetchedOrders).
Proof.
  split; [split; [by_eval|split; by_eval]|].
  split; [cbv zeta; split; [by_eval|split; [by_eval|split; [by_eval|by_eval]]]|].
  split; [split; [by_eval|split; [by_eval|split; by_eval]]|].
  intros Hclaim.
  specialize (Hclaim [Sample.latte (qc 2 1)] [Sample.latte (qc 3 1)] Sample.clock
                     [Sample.latteOrder]).
  vm_compute in Hclaim. discriminate Hclaim.
Qed.

(** ** Inventory deduction *)

Lemma deductRecipe_lookup (q : Qc) (rs : list RecipeItem) ing : ∀ d : gmap string Qc,
  default 0 (fold_left (λ (d : gmap string Qc) recipeItem,
                          <[ingredientId recipeItem :=
                              default 0 (d !! ingredientId recipeItem)
                              + ri_quantity recipeItem * q]> d) rs d !! ing)
  = default 0 (d !! ing)
    + sumQc (map (λ r, ri_quantity r * q)
                 (List.filter (λ r, bool_decide (ingredientId r = ing)) rs)).
Proof.
  induction rs as [|r rs IH]; intros d; simpl; [ring|].
  rewrite IH. case_bool_decide as Hr; simpl.
  - rewrite Hr, lookup_insert_eq. simpl. ring.
  - by rewrite lookup_insert_ne.
Qed.

Lemma deductItem_lookup allItems (d : gmap string Qc) orderItem ing :
  default 0 (POSModal.deductItem allItems d orderItem !! ing)
  = default 0 (d !! ing) + required allItems [orderItem] ing.
Proof.
  unfold POSModal.deductItem, required, recipeOf. simpl.
  destruct (find _ allItems) as [menuItem|]; simpl.
  - rewrite deductRecipe_lookup. ring.
  - ring.
Qed.

Lemma required_cons allItems orderItem orderItems ing :
  required allItems (orderItem :: orderItems) ing
  = required allItems [orderItem] ing + required allItems orderItems ing.
Proof. unfold required. simpl. ring. Qed.

(** The map [deductions] holds, for every ingredient, the total the whole
    batch needs of it. *)
Lemma deductions_required allItems cart ing :
  default 0 (POSModal.deductions allItems cart !! ing)
  = required allItems (POSModal.finalOrderItems cart) ing.
Proof.
  unfold POSModal.deductions.
  assert (Hgen : ∀ (its : list OrderItem) (d : gmap string Qc),
            default 0 (fold_left (POSModal.deductItem allItems) its d !! ing)
            = default 0 (d !! ing) + required allItems its ing).
  { induction its as [|it its IH]; intros d; simpl.
    - unfold required. simpl. ring.
    - rewrite IH, deductItem_lookup, (required_cons _ it its). ring. }
  rewrite Hgen, lookup_empty. simpl. ring.
Qed.

Lemma commit_app db (l1 l2 : list Write) :
  commit db (l1 ++ l2) = commit db l1 ≫= λ db1, commit db1 l2.
Proof.
  revert db. induction l1 as [|w l1 IH]; intros db; simpl; [done|].
  destruct (apply_write db w) as [db1|]; simpl; [apply IH|done].
Qed.

(** Committing one stock decrement per entry of a list with distinct
    ingredient ids. *)
Lemma commit_decrements (l : list (string * Qc)) : ∀ db db',
  NoDup l.*1 →
  commit db (map (λ '(ingredientId, quantity), IncrementStock ingredientId (- quantity)) l)
  = Some db' →
  db_orders db' = db_orders db
  ∧ db_floorPlans db' = db_floorPlans db
  ∧ ∀ k, match db_ingredients db !! k with
         | Some i =>
             ∃ i', db_ingredients db' !! k = Some i'
                   ∧ ing_name i' = ing_name i
                   ∧ stock i' = stock i - default 0 ((list_to_map l : gmap string Qc) !! k)
         | None => db_ingredients db' !! k = None
         end.
Proof.
  induction l as [|[k q] l IH]; intros db db' Hnd Hcommit.
  - simpl in Hcommit. injection Hcommit as <-. repeat split.
    intros k. destruct (db_ingredients db !! k) as [i|]; [|done].
    exists i. repeat split. change (list_to_map [] : gmap string Qc) with (∅ : gmap string Qc).
    rewrite lookup_empty. simpl. ring.
  - apply NoDup_cons in Hnd as [Hk Hnd]. simpl in Hcommit.
    destruct (db_ingredients db !! k) as [i|] eqn:Hi; [|done]. simpl in Hcommit.
    destruct (IH _ _ Hnd Hcommit) as (Ho & Hf & Hl).
    split; [done|]. split; [done|].
    intros k'. specialize (Hl k'). simpl in Hl.
    destruct (decide (k = k')) as [<-|Hne].
    + rewrite lookup_insert_eq in Hl. destruct Hl as (i' & Hi' & Hname & Hstock).
      rewrite Hi. exists i'. split; [done|]. split; [done|].
      rewrite Hstock. simpl.
      rewrite (not_elem_of_list_to_map_1 (M := gmap string) l k Hk), lookup_insert_eq.
      simpl. ring.
    + rewrite lookup_insert_ne in Hl by done.
      simpl. by rewrite lookup_insert_ne.
Qed.

(** Writes to orders and floor plans leave the ingredients alone. *)
Lemma commit_keepsStock (l : list Write) : ∀ db db',
  Forall keepsStock l → commit db l = Some db' →
  db_ingredients db' = db_ingredients db.
Proof.
  induction l as [|w l IH]; intros db db' Hl Hcommit; simpl in Hcommit.
  - by injection Hcommit as <-.
  - apply Forall_cons in Hl as [Hw Hl].
    destruct (apply_write db w) as [db1|] eqn:Hw1; [|done]. simpl in Hcommit.
    rewrite (IH _ _ Hl Hcommit).
    destruct w; simpl in *; try done.
    + by injection Hw1 as <-.
    + destruct (db_orders db !! id); [|done]. by injection Hw1 as <-.
    + destruct (db_floorPlans db !! id); [|done]. by injection Hw1 as <-.
Qed.

(** A finalization that commits takes from the stock of every ingredient
    exactly what the batch of order items needs of it, once. *)
Lemma finalize_deducts_required
    userId type tableNumber orderIds allItems profile cart taxes identifier
    paymentMethod orderNotes db newOrderId now db' :
  commit db (POSModal.finalizeBatch userId type tableNumber orderIds allItems profile
               cart taxes identifier paymentMethod orderNotes db newOrderId now)
  = Some db' →
  ∀ k i, db_ingredients db !! k = Some i →
         ∃ i', db_ingredients db' !! k = Some i'
               ∧ ing_name i' = ing_name i
               ∧ stock i' = stock i - required allItems (POSModal.finalOrderItems cart) k.
Proof.
  unfold POSModal.finalizeBatch. rewrite commit_app.
  destruct (commit db _) as [db1|] eqn:Hdec; [|done]. simpl. intros Hrest k i Hi.
  apply commit_decrements in Hdec as (_ & _ & Hl); [|apply NoDup_fst_map_to_list].
  specialize (Hl k). rewrite Hi in Hl. destruct Hl as (i' & Hi' & Hname & Hstock).
  exists i'. rewrite list_to_map_to_list, deductions_required in Hstock.
  split; [|done].
  assert (Hkeep : db_ingredients db' = db_ingredients db1); [|by rewrite Hkeep].
  eapply commit_keepsStock; [|exact Hrest].
  destruct (POSModal.hasOrderIds orderIds).
  - apply Forall_app. split.
    + apply Forall_forall. by intros w (orderId & -> & _)%list_elem_of_fmap.
    + destruct (truthy_ostring tableNumber); [|constructor].
      destruct (db_floorPlans db !! userId); by repeat constructor.
  - by repeat constructor.
Qed.

(** C1, on the code.  The two dishes need 7 units of X.  Finalizing the
    table takes 7 units from the stock; the order is then Completed, with
    no [inventoryDeducted] flag stored on its lines; finalizing the same
    order again takes 7 more units. *)
Theorem finalize_twice_deducts_twice :
  required Sample.menu2 (POSModal.finalOrderItems (Sample.tableCart Sample.stockDb)) "X"
  = qc 7 1
  ∧ stock <$> db_ingredients Sample.stockDb !! "X" = Some (qc 100 1)
  ∧ stock <$> db_ingredients (Sample.finalizeTable Sample.stockDb) !! "X" = Some (qc 93 1)
  ∧ o_status <$> db_orders (Sample.finalizeTable Sample.stockDb) !! "o1" = Some Completed
  ∧ (map inventoryDeducted ∘ o_items)
      <$> db_orders (Sample.finalizeTable Sample.stockDb) !! "o1" = Some [None; None]
  ∧ stock <$> db_ingredients (Sample.finalizeTable (Sample.finalizeTable Sample.stockDb)) !! "X"
    = Some (qc 86 1).
Proof. repeat split; by_eval. Qed.

(** ** Appending to an open order *)

(** In the rapid-order screen an append writes the stored items followed
    by the order items of the cart, each not completed, and nothing else
    changes in the item list. *)
Lemma rapid_append_is_additive
    restaurantId type cart taxes profile identifier paymentMethod orderNotes db
    newOrderId now a orderId existingOrder :
  cart ≠ [] →
  (type = Takeaway → identifier ≠ "") →
  db_orders db !! String a orderId = Some existingOrder →
  ∃ o', db_orders (RapidOrderModal.handleSubmitOrder restaurantId type
                     (Some (String a orderId)) cart taxes profile identifier
                     paymentMethod orderNotes db newOrderId now) !! String a orderId
        = Some o'
        ∧ o_items o' = o_items existingOrder ++ RapidOrderModal.submitOrderItems cart
        ∧ length (RapidOrderModal.submitOrderItems cart) = length cart
        ∧ Forall (λ item, isCompleted item = false) (RapidOrderModal.submitOrderItems cart).
Proof.
  intros Hcart Hid Hexisting. unfold RapidOrderModal.handleSubmitOrder.
  rewrite (bool_decide_eq_false_2 _ Hcart). simpl.
  assert (bool_decide (type = Takeaway) && negb (truthy_string identifier) = false) as ->.
  { case_bool_decide as Ht; [|done]. simpl. destruct identifier; [by destruct (Hid Ht)|done]. }
  rewrite Hexisting. unfold commit_or_keep. simpl. rewrite Hexisting. simpl.
  rewrite lookup_insert_eq. eexists. split; [reflexivity|]. simpl.
  split; [done|]. unfold RapidOrderModal.submitOrderItems.
  split; [by rewrite length_map|].
  apply Forall_forall. by intros item (cartItem & -> & _)%list_elem_of_fmap.
Qed.

(** In the POS the same holds of the function: the stored items followed
    by the order items of the whole cart. *)
Lemma pos_append_appends_cart
    userId type tableNumber profile cart taxes identifier orderNotes db newOrderId
    now first rest existingOrder :
  POSModal.nothingToSend type cart identifier = false →
  db_orders db !! first = Some existingOrder →
  ∃ o', db_orders (POSModal.handleSendToKitchen userId type tableNumber
                     (Some (first :: rest)) profile cart taxes identifier orderNotes
                     db newOrderId now) !! first = Some o'
        ∧ o_items o' = o_items existingOrder ++ POSModal.kitchenOrderItems cart
        ∧ length (POSModal.kitchenOrderItems cart) = length cart
        ∧ Forall (λ item, isCompleted item = false) (POSModal.kitchenOrderItems cart).
Proof.
  intros Hguard Hexisting. unfold POSModal.handleSendToKitchen. rewrite Hguard.
  unfold POSModal.sendToKitchenBatch, POSModal.hasOrderIds. simpl.
  rewrite andb_false_r, Hexisting. unfold commit_or_keep. simpl. rewrite Hexisting. simpl.
  rewrite lookup_insert_eq. eexists. split; [reflexivity|]. simpl.
  split; [done|]. unfold POSModal.kitchenOrderItems.
  split; [by rewrite length_map|].
  apply Forall_forall. by intros item (cartItem & -> & _)%list_elem_of_fmap.
Qed.

(** C2, on the code.  The POS opened on a table holds the re-hydrated
    lines of its orders in the cart, and sending to the kitchen appends
    the whole cart: the served burger is appended once more, not
    completed, beside the new fries.  The rapid-order screen, whose cart
    starts empty, appends the fries alone. *)
Theorem pos_append_duplicates_existing_lines :
  (map (λ item, (oi_name item, isCompleted item)) ∘ o_items)
    <$> db_orders Sample.appendDb !! "o1"
  = Some [("burger", true)]
  ∧ (map (λ item, (oi_name item, isCompleted item)) ∘ o_items)
      <$> db_orders Sample.posAppend !! "o1"
    = Some [("burger", true); ("burger", false); ("fries", false)]
  ∧ (map (λ item, (oi_name item, isCompleted item)) ∘ o_items)
      <$> db_orders Sample.rapidAppend !! "o1"
    = Some [("burger", true); ("fries", false)].
Proof. repeat split; by_eval. Qed.

(** ** The total of a persisted order *)

(** Orders created by the two screens satisfy the invariant: tip, platform
    fee and discounts are zero and total = subtotal + taxAmount. *)
Lemma new_orders_totalInvariant
    userId type profile cart taxes identifier paymentMethod orderNotes now :
  totalInvariant (POSModal.newKitchenOrder userId type profile cart taxes identifier
                    orderNotes now)
  ∧ totalInvariant (POSModal.newFinalOrder userId type profile cart taxes identifier
                      paymentMethod orderNotes now)
  ∧ totalInvariant (RapidOrderModal.newOrderData userId type cart taxes profile identifier
                      paymentMethod orderNotes now).
Proof.
  unfold totalInvariant, discounts; simpl.
  unfold POSModal.total, RapidOrderModal.total. repeat split; ring.
Qed.

(** An append keeps the invariant exactly when the platform fee of the
    stored order equals its discounts: the new total is
    subtotal + taxAmount + tip. *)
Lemma append_totalInvariant_iff profile cart taxes existingOrder :
  (totalInvariant (update_order (POSModal.appendUpdate profile cart taxes existingOrder)
                                existingOrder)
   ↔ o_platformFee existingOrder = discounts existingOrder)
  ∧ (totalInvariant (update_order (RapidOrderModal.appendUpdate cart taxes profile
                                     existingOrder) existingOrder)
     ↔ o_platformFee existingOrder = discounts existingOrder).
Proof.
  unfold totalInvariant, discounts; simpl.
  set (d := sumQc (map ad_amount (o_appliedDiscounts existingOrder))).
  set (f := o_platformFee existingOrder).
  split.
  - set (s := fold_left _ _ 0). set (t := fold_left _ _ 0).
    split; intros H.
    + assert (Hf : f = (s - d + t + o_tip existingOrder + f)
                       - (s + t + o_tip existingOrder) + d) by ring.
      rewrite Hf, <- H. ring.
    + rewrite H. ring.
  - set (s := fold_left _ _ 0). set (t := fold_left _ _ 0).
    split; intros H.
    + assert (Hf : f = (s - d + t + o_tip existingOrder + f)
                       - (s + t + o_tip existingOrder) + d) by ring.
      rewrite Hf, <- H. ring.
    + rewrite H. ring.
Qed.

(** In particular an append keeps the invariant of an order these screens
    created, whose platform fee is zero and which has no discounts. *)
Lemma append_keeps_totalInvariant_of_staff_orders profile cart taxes existingOrder :
  o_platformFee existingOrder = 0 →
  o_appliedDiscounts existingOrder = [] →
  totalInvariant (update_order (POSModal.appendUpdate profile cart taxes existingOrder)
                               existingOrder)
  ∧ totalInvariant (update_order (RapidOrderModal.appendUpdate cart taxes profile
                                    existingOrder) existingOrder).
Proof.
  intros Hfee Hdisc.
  destruct (append_totalInvariant_iff profile cart taxes existingOrder) as [Hpos Hrapid].
  split; [apply Hpos | apply Hrapid]; unfold discounts; by rewrite Hfee, Hdisc.
Qed.

(** Completion and finalization updates do not touch the priced fields. *)
Lemma status_updates_keep_totalInvariant o paymentMethod its st :
  totalInvariant o →
  totalInvariant (update_order (POSModal.completedUpdate paymentMethod) o)
  ∧ totalInvariant (update_order (KitchenDisplayPage.itemsStatusUpdate its st) o).
Proof. by unfold totalInvariant. Qed.

(** C3, on the code.  An order with a platform fee satisfies the invariant
    when it is placed; after an append its stored total is
    subtotal + taxAmount + tip (4.200), the fee (0.500) is still stored,
    and the invariant no longer holds. *)
Theorem append_breaks_total_invariant :
  totalInvariant Sample.feeOrder
  ∧ ∃ o, db_orders Sample.feeAppend !! "o1" = Some o
         ∧ o_subtotal o = qc 4 1 ∧ o_taxAmount o = qc 2 10 ∧ o_tip o = 0
         ∧ o_platformFee o = qc 1 2 ∧ discounts o = 0
         ∧ o_total o = qc 42 10
         ∧ ¬ totalInvariant o.
Proof.
  split; [by_eval|].
  destruct (db_orders Sample.feeAppend !! "o1") as [o|] eqn:Ho;
    [|by vm_compute in Ho].
  exists o. split; [done|].
  vm_compute in Ho. injection Ho as <-.
  repeat split; by_eval.
Qed.

(** ** Merging cart lines *)

Lemma findIndex_Some {A} (p : A → bool) (l : list A) i :
  findIndex p l = Some i →
  ∃ x, l !! i = Some x ∧ p x = true ∧ ∀ j y, (j < i)%nat → l !! j = Some y → p y = false.
Proof.
  revert i. induction l as [|x l IH]; intros i; simpl; [done|].
  destruct (p x) eqn:Hpx.
  - intros [= <-]. exists x. repeat split; [done|]. intros j y Hj. lia.
  - destruct (findIndex p l) as [i'|]; [|done]. simpl. intros [= <-].
    destruct (IH i' eq_refl) as (y & Hy & Hpy & Hbefore).
    exists y. repeat split; [done..|].
    intros [|j] z Hj; simpl; [by intros [= <-]|]. apply Hbefore. lia.
Qed.

Lemma findIndex_None {A} (p : A → bool) (l : list A) :
  findIndex p l = None ↔ ∀ x, x ∈ l → p x = false.
Proof.
  induction l as [|x l IH]; simpl.
  - split; [by intros _ y ?%elem_of_nil|done].
  - destruct (p x) eqn:Hpx.
    + split; [done|]. intros Hall. specialize (Hall x (list_elem_of_here _ _)). congruence.
    + destruct (findIndex p l) as [i|]; simpl.
      * split; [done|]. intros Hall. apply proj2 in IH.
        discriminate IH. intros y Hy. apply Hall. by right.
      * split; [|done]. intros _ y [->|Hy]%elem_of_cons; [done|]. by apply IH.
Qed.

(** Adding an item that is the same line as a line of the cart adds its
    quantity to the first such line; the cart keeps its length and its
    other lines. *)
Lemma handleAddToCart_merge item (cart : list CartItem) :
  (∃ line, line ∈ cart ∧ sameLine line item) →
  ∃ i line, cart !! i = Some line ∧ sameLine line item
            ∧ POSModal.handleAddToCart item cart
              = <[i := addQuantity (ci_quantity item) line]> cart
            ∧ RapidOrderModal.handleAddToCart item cart
              = <[i := addQuantity (ci_quantity item) line]> cart.
Proof.
  intros (line & Hin & Hsame).
  unfold POSModal.handleAddToCart, RapidOrderModal.handleAddToCart.
  destruct (findIndex _ cart) as [i|] eqn:Hfind.
  - apply findIndex_Some in Hfind as (line' & Hi & Hp & _).
    apply bool_decide_eq_true in Hp. exists i, line'. split; [done|]. split; [exact Hp|].
    assert (Halter : alter (addQuantity (ci_quantity item)) i cart
                     = <[i := addQuantity (ci_quantity item) line']> cart).
    { apply list_eq. intros j. rewrite list_lookup_alter, list_lookup_insert.
      destruct (decide (i = j)) as [<-|Hne].
      - rewrite Hi. simpl. rewrite decide_True; [done|]. split; [done|].
        by eapply lookup_lt_Some.
      - rewrite decide_False; [done|]. by intros [? _]. }
    by rewrite <- Halter.
  - rewrite findIndex_None in Hfind. specialize (Hfind line Hin).
    by apply bool_decide_eq_false in Hfind.
Qed.

(** Adding an item that is the same line as no line of the cart, for
    instance because the note differs, appends it as a new line. *)
Lemma handleAddToCart_new_line item (cart : list CartItem) :
  (∀ line, line ∈ cart → ¬ sameLine line item) →
  POSModal.handleAddToCart item cart = cart ++ [item]
  ∧ RapidOrderModal.handleAddToCart item cart = cart ++ [item].
Proof.
  intros Hnone. unfold POSModal.handleAddToCart, RapidOrderModal.handleAddToCart.
  destruct (findIndex _ cart) as [i|] eqn:Hfind; [|done].
  apply findIndex_Some in Hfind as (line & Hi & Hp & _).
  apply bool_decide_eq_true in Hp. destruct (Hnone line); [|exact Hp].
  by eapply list_elem_of_lookup_2.
Qed.

Lemma append_inj_l (s a b : string) : s +:+ a = s +:+ b → a = b.
Proof. induction s as [|c s IH]; simpl; [done|]. intros [= H]. by apply IH. Qed.

(** In the rapid-order screen two taps on an item without modifiers give
    one line of quantity 2. *)
Lemma rapid_select_twice_merges item :
  modifierGroups item = None ∨ modifierGroups item = Some [] →
  ∃ line, RapidOrderModal.handleSelectItem item (RapidOrderModal.handleSelectItem item [])
          = [line]
          ∧ ci_id line = mi_id item ∧ ci_quantity line = 1 + 1.
Proof.
  intros Hplain. unfold RapidOrderModal.handleSelectItem.
  assert (Hmatch : ∀ (A : Type) (a b : A),
            match modifierGroups item with Some (_ :: _) => a | _ => b end = b)
    by (by intros A a b; destruct Hplain as [-> | ->]).
  rewrite !Hmatch. unfold RapidOrderModal.handleAddToCart. simpl.
  rewrite bool_decide_eq_true_2 by done. simpl. by eexists.
Qed.

(** In the POS two taps on an item without modifiers at different clock
    readings give two lines of quantity 1: the key of each line ends in
    the reading of its tap. *)
Lemma pos_select_twice_two_lines item (t1 t2 : N) :
  modifierGroups item = None ∨ modifierGroups item = Some [] →
  t1 ≠ t2 →
  ∃ line1 line2,
    POSModal.handleSelectItem t2 item (POSModal.handleSelectItem t1 item []) = [line1; line2]
    ∧ ci_id line1 = mi_id item ∧ ci_id line2 = mi_id item
    ∧ ci_notes line1 = ci_notes line2
    ∧ ci_selectedModifiers line1 = ci_selectedModifiers line2
    ∧ ci_quantity line1 = 1 ∧ ci_quantity line2 = 1.
Proof.
  intros Hplain Hne. unfold POSModal.handleSelectItem.
  assert (Hmatch : match modifierGroups item with Some (_ :: _) => true | _ => false end
                   = false)
    by (by destruct Hplain as [-> | ->]).
  rewrite !Hmatch. unfold POSModal.handleAddToCart. simpl.
  rewrite bool_decide_eq_false_2.
  - simpl. by eexists _, _.
  - intros [Hkey _]. simpl in Hkey.
    apply append_inj_l in Hkey. apply (append_inj_l "-") in Hkey.
    by apply pretty_N_inj in Hkey.
Qed.

(** C5, on the code.  In the POS two taps on the same item without
    modifiers and without a note, a second apart, leave two lines of
    quantity 1, and a tap on an item that a re-hydrated line already holds
    adds a second line; in the rapid-order screen the two taps give one
    line of quantity 2. *)
Theorem pos_quick_add_does_not_merge :
  map (λ line, (ci_id line, ci_selectedModifiers line, ci_notes line, ci_quantity line))
      (POSModal.handleSelectItem 1700000001000 (Sample.latte (qc 2 1))
         (POSModal.handleSelectItem 1700000000000 (Sample.latte (qc 2 1)) []))
  = [("latte", [], None, 1); ("latte", [], None, 1)]
  ∧ map (λ line, (ci_id line, ci_quantity line))
        (POSModal.handleSelectItem 1700000001000 (Sample.latte (qc 2 1))
           (POSModal.rehydrate [Sample.latte (qc 2 1)] Sample.clock [Sample.latteOrder]))
    = [("latte", 1); ("latte", 1)]
  ∧ map (λ line, (ci_id line, ci_selectedModifiers line, ci_notes line, ci_quantity line))
        (RapidOrderModal.handleSelectItem (Sample.latte (qc 2 1))
           (RapidOrderModal.handleSelectItem (Sample.latte (qc 2 1)) []))
    = [("latte", [], None, qc 2 1)].
Proof. repeat split; by_eval. Qed.

(** * Further properties of the code *)

(** Linear arithmetic on [Qc], through [Q]. *)
Ltac qc_lra :=
  unfold Qcle, Qclt, Qcminus, Qcopp, Qcplus, Qcmult in *; simpl in *;
  rewrite ?Qred_correct in *; lra.

(** ** The cart handlers *)


Lemma sumQc_alter {A} (f : A → Qc) (g : A → A) (l : list A) i x :
  l !! i = Some x →
  sumQc (map f (alter g i l)) = sumQc (map f l) - f x + f (g x).
Proof.
  revert i. induction l as [|z l IH]; intros i; [done|].
  destruct i as [|i]; simpl.
  - intros [= ->]. ring.
  - intros Hi. change (list_alter g i l) with (alter g i l). rewrite (IH _ Hi). ring.
Qed.


(** [find] returns the element at the index [findIndex] returns. *)
Lemma find_findIndex {A} (p : A → bool) (l : list A) :
  find p l = findIndex p l ≫= (l !!.).
Proof.
  induction l as [|x l IH]; simpl; [done|].
  destruct (p x); [done|]. rewrite IH. by destruct (findIndex p l).
Qed.





Lemma positive_handleAddToCart item cart :
  positiveCart cart → 0 < ci_quantity item → positiveCart (POSModal.handleAddToCart item cart).
Proof.
  intros Hcart Hitem. unfold POSModal.handleAddToCart.
  destruct (findIndex _ cart) as [i|].
  - apply Forall_alter; [done|]. intros x _ Hx. simpl. qc_lra.
  - apply Forall_app. split; [done|]. by constructor.
Qed.

Lemma positive_handleUpdateQuantity id change cart :
  positiveCart cart → positiveCart (POSModal.handleUpdateQuantity id change cart).
Proof.
  intros Hcart. unfold POSModal.handleUpdateQuantity.
  destruct (findIndex _ cart) as [i|]; [|done].
  destruct (cart !! i) as [it|] eqn:Hi; [|done].
  case_bool_decide as Hq.
  - by apply Forall_delete.
  - apply Forall_insert; [done|]. simpl.
    apply Qcnot_le_lt. exact Hq.
Qed.

Lemma positive_map_notes (f : CartItem → CartItem) cart :
  (∀ line, ci_quantity (f line) = ci_quantity line) →
  positiveCart cart → positiveCart (map f cart).
Proof.
  intros Hf Hcart. apply Forall_fmap. eapply Forall_impl; [exact Hcart|].
  intros line Hline. simpl. by rewrite Hf.
Qed.

(** X2.  The handlers of the cart keep every quantity positive: a line
    whose quantity would drop to zero or below is removed instead.  An
    item added through the menu has quantity 1; an item added through the
    detail dialog must bring a positive quantity. *)
Theorem cart_quantities_stay_positive (cart : list CartItem) :
  positiveCart cart →
  (∀ item, 0 < ci_quantity item →
           positiveCart (POSModal.handleAddToCart item cart)
           ∧ positiveCart (RapidOrderModal.handleAddToCart item cart))
  ∧ (∀ now item, positiveCart (POSModal.handleSelectItem now item cart))
  ∧ (∀ item, positiveCart (RapidOrderModal.handleSelectItem item cart))
  ∧ (∀ id change,
       positiveCart (POSModal.handleUpdateQuantity id change cart)
       ∧ positiveCart (RapidOrderModal.handleUpdateQuantity id change cart))
  ∧ (∀ id note,
       positiveCart (POSModal.handleNoteChange id note cart)
       ∧ positiveCart (RapidOrderModal.handleNoteChange id note cart)
       ∧ positiveCart (POSModal.handleQuickNote id note cart)).
Proof.
  intros Hcart. split; [|split; [|split; [|split]]].
  - intros item Hitem. split; by apply positive_handleAddToCart.
  - intros now item. unfold POSModal.handleSelectItem.
    destruct (match modifierGroups item with Some (_ :: _) => true | _ => false end);
      [done|]. by apply positive_handleAddToCart.
  - intros item. unfold RapidOrderModal.handleSelectItem.
    destruct (modifierGroups item) as [[|? ?]|];
      [by apply positive_handleAddToCart|done|by apply positive_handleAddToCart].
  - intros id change. split; by apply positive_handleUpdateQuantity.
  - intros id note.
    repeat split; (apply positive_map_notes; [|done]); intros line; by case_bool_decide.
Qed.

Lemma cart_quantities_stay_positive_witness :
  positiveCart Sample.cart1
  ∧ positiveCart (POSModal.handleUpdateQuantity "latte-Oatmilk" (- qc 1 1) Sample.cart1)
  ∧ POSModal.handleUpdateQuantity "latte-Oatmilk" (- qc 3 1) Sample.cart1 = [].
Proof.
  assert (H : positiveCart Sample.cart1) by (repeat constructor).
  split; [exact H|]. split.
  - exact (proj1 (proj1 (proj2 (proj2 (proj2 (cart_quantities_stay_positive _ H))))
                    "latte-Oatmilk" (- qc 1 1))).
  - reflexivity.
Defined.

(** The cases of [handleUpdateQuantity]: it acts on the first line with
    the id, which it removes or whose quantity it changes. *)
Lemma handleUpdateQuantity_cases id change (cart : list CartItem) :
  match firstWithId id cart with
  | Some line =>
      ∃ i, cart !! i = Some line
           ∧ findIndex (λ item, bool_decide (cartItemId item = id)) cart = Some i
           ∧ POSModal.handleUpdateQuantity id change cart
             = if bool_decide (ci_quantity line + change ≤ 0) then delete i cart
               else <[i := addQuantity change line]> cart
  | None => POSModal.handleUpdateQuantity id change cart = cart
  end.
Proof.
  unfold POSModal.handleUpdateQuantity, firstWithId. rewrite find_findIndex.
  destruct (findIndex _ cart) as [i|] eqn:Hfind; simpl; [|done].
  destruct (cart !! i) as [line|] eqn:Hi; simpl; [|done].
  exists i. by repeat split.
Qed.


Lemma findIndex_ext_Forall2 {A} (p : A → bool) (l1 l2 : list A) :
  Forall2 (λ x y, p x = p y) l1 l2 → findIndex p l1 = findIndex p l2.
Proof.
  induction 1 as [|x y l1 l2 Hxy _ IH]; simpl; [done|]. by rewrite Hxy, IH.
Qed.

Lemma findIndex_insert_same {A} (p : A → bool) (l : list A) i x y :
  l !! i = Some x → p y = p x → findIndex p (<[i := y]> l) = findIndex p l.
Proof.
  intros Hi Hp. apply findIndex_ext_Forall2. apply Forall2_same_length_lookup.
  split; [by rewrite length_insert|].
  intros j a b. rewrite list_lookup_insert.
  case_decide as Hj.
  - destruct Hj as [-> _]. intros [= <-]. rewrite Hi. by intros [= <-].
  - intros ? ?. congruence.
Qed.

(** X4.  Raising the quantity of a line by [change] and lowering it by
    the same amount gives the cart back, as long as the line keeps a
    positive quantity in between (else it is removed, and lowering finds
    nothing to restore). *)
Theorem update_quantity_round_trip id change (cart : list CartItem) line :
  firstWithId id cart = Some line →
  0 < ci_quantity line →
  0 < ci_quantity line + change →
  POSModal.handleUpdateQuantity id (- change) (POSModal.handleUpdateQuantity id change cart)
  = cart
  ∧ RapidOrderModal.handleUpdateQuantity id (- change)
      (RapidOrderModal.handleUpdateQuantity id change cart) = cart.
Proof.
  intros Hfirst Hq Hq'.
  assert (Hpos : POSModal.handleUpdateQuantity id (- change)
                   (POSModal.handleUpdateQuantity id change cart) = cart);
    [|by split].
  pose proof (handleUpdateQuantity_cases id change cart) as Hc.
  rewrite Hfirst in Hc. destruct Hc as (i & Hi & Hfind & ->).
  rewrite bool_decide_eq_false_2 by (by apply Qclt_not_le).
  pose proof (handleUpdateQuantity_cases id (- change)
                (<[i := addQuantity change line]> cart)) as Hc.
  assert (Hfirst' : firstWithId id (<[i := addQuantity change line]> cart)
                    = Some (addQuantity change line)).
  { unfold firstWithId. rewrite find_findIndex.
    erewrite findIndex_insert_same; [|exact Hi|done]. rewrite Hfind. simpl.
    apply list_lookup_insert_eq. by eapply lookup_lt_Some. }
  rewrite Hfirst' in Hc. destruct Hc as (i' & _ & Hfind' & ->).
  erewrite findIndex_insert_same in Hfind'; [|exact Hi|done].
  assert (i' = i) as -> by congruence. simpl.
  replace (ci_quantity line + change + - change) with (ci_quantity line) by ring.
  rewrite bool_decide_eq_false_2 by (by apply Qclt_not_le).
  rewrite list_insert_insert_eq. apply list_insert_id. rewrite Hi. f_equal.
  destruct line. unfold addQuantity. simpl. f_equal. ring.
Qed.

Lemma update_quantity_round_trip_witness :
  POSModal.handleUpdateQuantity "latte-Oatmilk" (- qc 2 1)
    (POSModal.handleUpdateQuantity "latte-Oatmilk" (qc 2 1) Sample.cart1)
  = Sample.cart1
  ∧ RapidOrderModal.handleUpdateQuantity "latte-Oatmilk" (- qc 2 1)
      (RapidOrderModal.handleUpdateQuantity "latte-Oatmilk" (qc 2 1) Sample.cart1)
    = Sample.cart1.
Proof.
  refine (update_quantity_round_trip "latte-Oatmilk" (qc 2 1) Sample.cart1 _ _ _ _).
  - reflexivity.
  - reflexivity.
  - reflexivity.
Defined.

(** X5.  Editing the note of a line changes notes only: ids, names,
    prices, quantities and modifiers of all lines stay, and so does the
    total.  After [handleNoteChange] every line with the id carries the
    note, and a second call with the same note changes nothing. *)
Theorem note_handlers_change_notes_only id note (cart : list CartItem) profile taxes :
  map withoutNote (POSModal.handleNoteChange id note cart) = map withoutNote cart
  ∧ map withoutNote (POSModal.handleQuickNote id note cart) = map withoutNote cart
  ∧ POSModal.total profile (POSModal.handleNoteChange id note cart) taxes
    = POSModal.total profile cart taxes
  ∧ POSModal.total profile (POSModal.handleQuickNote id note cart) taxes
    = POSModal.total profile cart taxes
  ∧ Forall (λ line, cartItemId line = id → ci_notes line = Some note)
           (POSModal.handleNoteChange id note cart)
  ∧ POSModal.handleNoteChange id note (POSModal.handleNoteChange id note cart)
    = POSModal.handleNoteChange id note cart
  ∧ RapidOrderModal.handleNoteChange id note cart = POSModal.handleNoteChange id note cart.
Proof.
  assert (H1 : map withoutNote (POSModal.handleNoteChange id note cart)
               = map withoutNote cart).
  { unfold POSModal.handleNoteChange. rewrite map_map. apply map_ext.
    intros line. by case_bool_decide. }
  assert (H2 : map withoutNote (POSModal.handleQuickNote id note cart)
               = map withoutNote cart).
  { unfold POSModal.handleQuickNote. rewrite map_map. apply map_ext.
    intros line. by case_bool_decide. }
  assert (Hsub : ∀ c1 c2, map withoutNote c1 = map withoutNote c2 →
                          POSModal.subtotal c1 = POSModal.subtotal c2).
  { intros c1 c2 Heq. rewrite !POS_subtotal_sum.
    assert (Hlt : ∀ c, map lineTotal c
                       = map (λ '(_, _, _, b, q, m), (b + sumQc (map optionPrice m)) * q)
                             (map withoutNote c))
      by (intros c; rewrite map_map; apply map_ext; by intros []).
    by rewrite !Hlt, Heq. }
  assert (Htot : ∀ c1 c2, map withoutNote c1 = map withoutNote c2 →
                          POSModal.total profile c1 taxes = POSModal.total profile c2 taxes).
  { intros c1 c2 Heq. unfold POSModal.total, POSModal.taxAmount, POSModal.appliedTaxes.
    by rewrite (Hsub _ _ Heq). }
  split; [done|]. split; [done|]. split; [by apply Htot|]. split; [by apply Htot|].
  split; [|split; [|reflexivity]].
  - unfold POSModal.handleNoteChange. apply Forall_fmap, Forall_forall.
    intros line _. simpl. by case_bool_decide.
  - unfold POSModal.handleNoteChange. rewrite map_map. apply map_ext.
    intros line. case_bool_decide; simpl; by case_bool_decide.
Qed.

Lemma string_app_assoc (a b c : string) : (a +:+ b) +:+ c = a +:+ (b +:+ c).
Proof.
  induction a as [|x a IH]; [done|].
  change (String x ((a +:+ b) +:+ c) = String x (a +:+ (b +:+ c))). by f_equal.
Qed.

Lemma truthy_string_app_r (a b : string) :
  truthy_string b = true → truthy_string (a +:+ b) = true.
Proof. by destruct a, b. Qed.

(** X6.  Quick notes accumulate: a quick note [a] followed by a quick
    note [b] on the same line leaves the note that the single quick note
    "a, b" leaves, whatever the line held before. *)
Theorem quick_notes_accumulate id (a b : string) (cart : list CartItem) :
  a ≠ "" →
  POSModal.handleQuickNote id b (POSModal.handleQuickNote id a cart)
  = POSModal.handleQuickNote id (a +:+ ", " +:+ b) cart.
Proof.
  intros Ha. unfold POSModal.handleQuickNote. rewrite map_map. apply map_ext.
  intros line. destruct (decide (cartItemId line = id)) as [Hid|Hid].
  - rewrite (bool_decide_eq_true_2 _ Hid). simpl.
    rewrite (bool_decide_eq_true_2 _ Hid). simpl.
    rewrite truthy_string_app_r by (by destruct a).
    by rewrite !string_app_assoc.
  - rewrite (bool_decide_eq_false_2 _ Hid). by rewrite (bool_decide_eq_false_2 _ Hid).
Qed.

Lemma quick_notes_accumulate_witness :
  map ci_notes
    (POSModal.handleQuickNote "latte-Oatmilk" "extra hot"
       (POSModal.handleQuickNote "latte-Oatmilk" "no sugar" Sample.cart1))
  = [Some "no sugar, extra hot"].
Proof.
  rewrite (quick_notes_accumulate "latte-Oatmilk" "no sugar" "extra hot" Sample.cart1);
    [reflexivity|discriminate].
Defined.

(** ** Quick cash suggestions *)

Lemma ceil_ge (x : Qc) : x ≤ ceil x.
Proof. unfold Qcle, ceil. simpl. rewrite Qred_correct. apply Qle_ceiling. Qed.

Lemma ceil_lt (x : Qc) : ceil x < x + 1.
Proof.
  unfold Qclt, ceil, Qcplus. simpl. rewrite !Qred_correct.
  pose proof (Qceiling_lt x) as H. unfold Z.sub in H. rewrite inject_Z_plus in H.
  change (inject_Z (- (1))) with (- (1))%Q in H. lra.
Qed.

(** The ceiling is the least whole number above. *)
Lemma ceil_least (x : Qc) (z : Z) : x ≤ Q2Qc (inject_Z z) → ceil x ≤ Q2Qc (inject_Z z).
Proof.
  unfold Qcle, ceil. simpl. rewrite !Qred_correct. intros H.
  rewrite <- Zle_Qle. rewrite <- (Qceiling_Z z). by apply Qceiling_resp_le.
Qed.

Lemma Q2Qc_inject_mult (z : Z) (k : positive) :
  Q2Qc (inject_Z z) * qc (Zpos k) 1 = Q2Qc (inject_Z (z * Zpos k)).
Proof.
  apply Qc_is_canon. unfold qc, Qcmult, Q2Qc; cbn [this].
  rewrite !Qred_correct, inject_Z_mult. reflexivity.
Qed.

Lemma qc_pos_gt0 (k : positive) : 0 < qc (Zpos k) 1.
Proof. unfold Qclt, qc, Q2Qc; cbn [this]. rewrite !Qred_correct. reflexivity. Qed.

Lemma qc_pos_neq0 (k : positive) : qc (Zpos k) 1 ≠ 0.
Proof.
  intros H. pose proof (qc_pos_gt0 k) as Hk. rewrite H in Hk. by apply Qclt_not_eq in Hk.
Qed.

Lemma ceil_times (x : Qc) (k : positive) :
  ceil (x / qc (Zpos k) 1) * qc (Zpos k) 1
  = Q2Qc (inject_Z (Qceiling (x / qc (Zpos k) 1)%Qc * Zpos k)).
Proof. apply Q2Qc_inject_mult. Qed.

Lemma ceil_times_ge (x : Qc) (k : positive) : x ≤ ceil (x / qc (Zpos k) 1) * qc (Zpos k) 1.
Proof.
  pose proof (qc_pos_neq0 k) as Hk.
  rewrite <- (test_field x (qc (Zpos k) 1) Hk) at 1.
  apply Qcmult_le_compat_r; [apply ceil_ge|]. apply Qclt_le_weak, qc_pos_gt0.
Qed.

(** The largest suggestion is less than ten units above the total. *)
Lemma ceil_times_lt (x : Qc) (k : positive) :
  ceil (x / qc (Zpos k) 1) * qc (Zpos k) 1 < x + qc (Zpos k) 1.
Proof.
  pose proof (qc_pos_neq0 k) as Hk.
  replace (x + qc (Zpos k) 1) with ((x / qc (Zpos k) 1 + 1) * qc (Zpos k) 1)
    by (rewrite Qcmult_plus_distr_l, (test_field x _ Hk); ring).
  apply Qcmult_lt_compat_r; [apply qc_pos_gt0|apply ceil_lt].
Qed.

Lemma elem_of_setAdd (x y : Qc) (l : list Qc) : y ∈ setAdd x l → y ∈ l ∨ y = x.
Proof.
  unfold setAdd. case_bool_decide; [by left|].
  rewrite elem_of_app, list_elem_of_singleton. tauto.
Qed.

Lemma setAdd_notin (x : Qc) (l : list Qc) : x ∉ l → setAdd x l = l ++ [x].
Proof. intros H. unfold setAdd. by rewrite (bool_decide_eq_false_2 _ H). Qed.

(** The suggestions for a total [T], case by case. *)
Lemma quickCash_cases (T : Qc) :
  let nextWhole := ceil T in
  let next5 := ceil (T / qc 5 1) * qc 5 1 in
  let next10 := ceil (T / qc 10 1) * qc 10 1 in
  let options :=
    if bool_decide (T ≤ 0) then []
    else
      let options := [nextWhole] in
      let options := if bool_decide (nextWhole < next5) then setAdd next5 options
                     else options in
      let options := if bool_decide (next5 < next10) then setAdd next10 options
                     else options in
      take 3 options in
  (T ≤ 0 ∧ options = [])
  ∨ (0 < T
     ∧ nextWhole ≤ next5 ∧ next5 ≤ next10
     ∧ options = nextWhole :: (if bool_decide (nextWhole < next5) then [next5] else [])
                 ++ (if bool_decide (next5 < next10) then [next10] else [])).
Proof.
  intros nextWhole next5 next10 options. subst options.
  case_bool_decide as HT; [by left|]. right.
  apply Qcnot_le_lt in HT. split; [done|].
  assert (H5 : nextWhole ≤ next5).
  { subst nextWhole next5. rewrite ceil_times. apply ceil_least.
    rewrite <- ceil_times. apply ceil_times_ge. }
  assert (H10 : next5 ≤ next10).
  { subst next5 next10. rewrite (ceil_times T 10).
    assert (Hle : T / qc 5 1 ≤ Q2Qc (inject_Z (Qceiling (T / qc 10 1)%Qc * 2))).
    { assert (H2 : Q2Qc (inject_Z (Qceiling (T / qc 10 1)%Qc * 2))
                   = ceil (T / qc 10 1) * qc 2 1).
      { symmetry. apply (Q2Qc_inject_mult _ 2). }
      rewrite H2.
      replace (T / qc 5 1) with (T / qc 10 1 * qc 2 1).
      2: { replace (qc 10 1) with (qc 5 1 * qc 2 1) by by_eval.
           field. split; [apply (qc_pos_neq0 5)|apply (qc_pos_neq0 2)]. }
      apply Qcmult_le_compat_r; [apply ceil_ge|apply Qclt_le_weak, qc_pos_gt0]. }
    apply ceil_least in Hle.
    assert (H5' : ceil (T / qc 5 1) * qc 5 1
                  ≤ Q2Qc (inject_Z (Qceiling (T / qc 10 1)%Qc * 2)) * qc 5 1)
      by (apply Qcmult_le_compat_r; [exact Hle|apply Qclt_le_weak, qc_pos_gt0]).
    replace (Q2Qc (inject_Z (Qceiling (T / qc 10 1)%Qc * 10)))
      with (Q2Qc (inject_Z (Qceiling (T / qc 10 1)%Qc * 2)) * qc 5 1); [exact H5'|].
    rewrite (Q2Qc_inject_mult _ 5). do 2 f_equal. lia. }
  split; [done|]. split; [done|]. cbv zeta.
  destruct (decide (nextWhole < next5)) as [Hlt5|Hge5].
  - rewrite (bool_decide_eq_true_2 _ Hlt5).
    assert (Hin5 : next5 ∉ [nextWhole]).
    { rewrite list_elem_of_singleton. intros Heq. rewrite Heq in Hlt5.
      by apply Qclt_not_le in Hlt5; apply Hlt5, Qcle_refl. }
    rewrite !(setAdd_notin _ _ Hin5). simpl.
    destruct (decide (next5 < next10)) as [Hlt10|Hge10].
    + rewrite (bool_decide_eq_true_2 _ Hlt10).
      assert (Hin10 : next10 ∉ [nextWhole; next5]).
      { rewrite !elem_of_cons, elem_of_nil. intros [Heq|[Heq|[]]].
        - rewrite Heq in Hlt10. apply (Qclt_not_le _ _ Hlt10).
          apply Qclt_le_weak. exact Hlt5.
        - rewrite Heq in Hlt10. apply (Qclt_not_le _ _ Hlt10), Qcle_refl. }
      by rewrite (setAdd_notin _ _ Hin10).
    + by rewrite (bool_decide_eq_false_2 _ Hge10).
  - rewrite (bool_decide_eq_false_2 _ Hge5). simpl.
    destruct (decide (next5 < next10)) as [Hlt10|Hge10].
    + rewrite (bool_decide_eq_true_2 _ Hlt10).
      assert (Hin10 : next10 ∉ [nextWhole]).
      { rewrite list_elem_of_singleton. intros Heq. rewrite Heq in Hlt10.
        apply (Qclt_not_le _ _ Hlt10). exact H5. }
      by rewrite (setAdd_notin _ _ Hin10).
    + by rewrite (bool_decide_eq_false_2 _ Hge10).
Qed.

Lemma quickCash_bounds (T amount : Qc) :
  amount ∈ (if bool_decide (T ≤ 0) then []
            else
              let nextWhole := ceil T in
              let next5 := ceil (T / qc 5 1) * qc 5 1 in
              let next10 := ceil (T / qc 10 1) * qc 10 1 in
              let options := [nextWhole] in
              let options := if bool_decide (nextWhole < next5) then setAdd next5 options
                             else options in
              let options := if bool_decide (next5 < next10) then setAdd next10 options
                             else options in
              take 3 options) →
  T ≤ amount ∧ amount < T + qc 10 1.
Proof.
  intros Hin.
  assert (Hcases : amount = ceil T ∨ amount = ceil (T / qc 5 1) * qc 5 1
                   ∨ amount = ceil (T / qc 10 1) * qc 10 1).
  { destruct (quickCash_cases T) as [[_ Hnil] | (_ & _ & _ & Heq)]; cbv zeta in *.
    - rewrite Hnil in Hin. by apply elem_of_nil in Hin.
    - rewrite Heq in Hin. rewrite elem_of_cons, elem_of_app in Hin.
      destruct Hin as [->|[Hin|Hin]]; [by left| |].
      + match type of Hin with _ ∈ (if ?b then _ else _) => destruct b end;
          [|by apply elem_of_nil in Hin].
        apply list_elem_of_singleton in Hin. by right; left.
      + match type of Hin with _ ∈ (if ?b then _ else _) => destruct b end;
          [|by apply elem_of_nil in Hin].
        apply list_elem_of_singleton in Hin. by right; right. }
  pose proof (ceil_ge T) as Hw. pose proof (ceil_lt T) as Hw'.
  pose proof (ceil_times_ge T 5) as H5. pose proof (ceil_times_lt T 5) as H5'.
  pose proof (ceil_times_ge T 10) as H10. pose proof (ceil_times_lt T 10) as H10'.
  assert (H1 : T + 1 ≤ T + qc 10 1) by (apply Qcplus_le_compat; [apply Qcle_refl|done]).
  assert (H2 : T + qc 5 1 ≤ T + qc 10 1) by (apply Qcplus_le_compat; [apply Qcle_refl|done]).
  destruct Hcases as [-> | [-> | ->]]; split; try done.
  - by eapply Qclt_le_trans.
  - by eapply Qclt_le_trans.
Qed.

(** X7.  Every quick cash suggestion covers the total, by less than ten
    units: choosing one as the amount tendered never leaves the
    complete-order button disabled, and the change due is not negative. *)
Theorem quick_cash_enables_payment profile cart taxes paymentMethod (amount : Qc) :
  (amount ∈ POSModal.quickCashOptions profile cart taxes →
   POSModal.total profile cart taxes ≤ amount
   ∧ amount < POSModal.total profile cart taxes + qc 10 1
   ∧ (∃ change, POSModal.changeDue profile cart taxes (Some (Num amount)) = Num change
                ∧ 0 ≤ change)
   ∧ POSModal.finalizeDisabled profile cart taxes paymentMethod (Some (Num amount)) false
     = false)
  ∧ (amount ∈ RapidOrderModal.quickCashOptions cart taxes profile →
     RapidOrderModal.total cart taxes profile ≤ amount
     ∧ amount < RapidOrderModal.total cart taxes profile + qc 10 1
     ∧ 0 ≤ RapidOrderModal.changeDue cart taxes profile (Some amount)
     ∧ RapidOrderModal.submitDisabled cart taxes profile paymentMethod (Some amount) false
       = false).
Proof.
  split; intros Hin; apply quickCash_bounds in Hin as [Hle Hlt].
  - split; [done|]. split; [done|]. split.
    + eexists. split; [reflexivity|]. qc_lra.
    + unfold POSModal.finalizeDisabled. simpl.
      rewrite (bool_decide_eq_false_2 (amount < _)) by (by apply Qcle_not_lt).
      by rewrite andb_false_r.
  - split; [done|]. split; [done|]. split.
    + unfold RapidOrderModal.changeDue. simpl. qc_lra.
    + unfold RapidOrderModal.submitDisabled. simpl.
      rewrite (bool_decide_eq_false_2 (amount < _)) by (by apply Qcle_not_lt).
      by rewrite andb_false_r.
Qed.

Lemma quick_cash_enables_payment_witness :
  POSModal.quickCashOptions Sample.profile1 Sample.cart1 [Sample.vat5]
  = [qc 8 1; qc 10 1]
  ∧ POSModal.total Sample.profile1 Sample.cart1 [Sample.vat5] ≤ qc 10 1
  ∧ POSModal.finalizeDisabled Sample.profile1 Sample.cart1 [Sample.vat5] cash
      (Some (Num (qc 10 1))) false = false.
Proof.
  split; [by_eval|].
  assert (Hin : qc 10 1 ∈ POSModal.quickCashOptions Sample.profile1 Sample.cart1
                             [Sample.vat5])
    by (apply (bool_decide_unpack _); vm_compute; exact I).
  pose proof (proj1 (quick_cash_enables_payment Sample.profile1 Sample.cart1 [Sample.vat5]
                       cash (qc 10 1)) Hin) as H.
  exact (conj (proj1 H) (proj2 (proj2 (proj2 H)))).
Defined.

Lemma quickCash_shape (T : Qc) :
  match (if bool_decide (T ≤ 0) then []
         else
           let nextWhole := ceil T in
           let next5 := ceil (T / qc 5 1) * qc 5 1 in
           let next10 := ceil (T / qc 10 1) * qc 10 1 in
           let options := [nextWhole] in
           let options := if bool_decide (nextWhole < next5) then setAdd next5 options
                          else options in
           let options := if bool_decide (next5 < next10) then setAdd next10 options
                          else options in
           take 3 options) with
  | [] => T ≤ 0
  | first :: rest =>
      0 < T ∧ first = ceil T ∧ first < T + 1
      ∧ StronglySorted Qclt (first :: rest) ∧ (length rest ≤ 2)%nat
      ∧ Forall (multipleOf 5) rest
  end.
Proof.
  destruct (quickCash_cases T) as [[HT Hnil] | (HT & H5 & H10 & Heq)]; cbv zeta in *.
  - by rewrite Hnil.
  - rewrite Heq. simpl. split; [done|]. split; [done|]. split; [apply ceil_lt|].
    assert (M5 : multipleOf 5 (ceil (T / qc 5 1) * qc 5 1))
      by (eexists; apply ceil_times).
    assert (M10 : multipleOf 5 (ceil (T / qc 10 1) * qc 10 1)).
    { exists (Qceiling (T / qc 10 1)%Qc * 2)%Z. rewrite ceil_times. do 2 f_equal. lia. }
    destruct (decide (ceil T < ceil (T / qc 5 1) * qc 5 1)) as [Hlt5|Hge5];
      [rewrite (bool_decide_eq_true_2 _ Hlt5)|rewrite (bool_decide_eq_false_2 _ Hge5)];
      (destruct (decide (ceil (T / qc 5 1) * qc 5 1 < ceil (T / qc 10 1) * qc 10 1))
         as [Hlt10|Hge10];
       [rewrite (bool_decide_eq_true_2 _ Hlt10)|rewrite (bool_decide_eq_false_2 _ Hge10)]);
      simpl; (split; [|split; [lia|]]); repeat constructor; try done.
    + by eapply Qclt_trans.
    + by eapply Qcle_lt_trans.
Qed.

(** X8.  The quick cash suggestions are empty exactly when there is
    nothing to pay.  Otherwise they start with the total rounded up to
    the next whole unit, are strictly ascending (so no amount is offered
    twice), are at most three, and all but the first are multiples of 5. *)
Theorem quick_cash_options_ascending profile cart taxes :
  match POSModal.quickCashOptions profile cart taxes with
  | [] => POSModal.total profile cart taxes ≤ 0
  | first :: rest =>
      0 < POSModal.total profile cart taxes
      ∧ first = ceil (POSModal.total profile cart taxes)
      ∧ first < POSModal.total profile cart taxes + 1
      ∧ StronglySorted Qclt (first :: rest) ∧ (length rest ≤ 2)%nat
      ∧ Forall (multipleOf 5) rest
  end
  ∧ match RapidOrderModal.quickCashOptions cart taxes profile with
    | [] => RapidOrderModal.total cart taxes profile ≤ 0
    | first :: rest =>
        0 < RapidOrderModal.total cart taxes profile
        ∧ first = ceil (RapidOrderModal.total cart taxes profile)
        ∧ first < RapidOrderModal.total cart taxes profile + 1
        ∧ StronglySorted Qclt (first :: rest) ∧ (length rest ≤ 2)%nat
        ∧ Forall (multipleOf 5) rest
    end.
Proof.
  split.
  - exact (quickCash_shape (POSModal.total profile cart taxes)).
  - exact (quickCash_shape (RapidOrderModal.total cart taxes profile)).
Qed.

(** ** The taxes of the two screens *)

Lemma sumQc_Permutation (l1 l2 : list Qc) : l1 ≡ₚ l2 → sumQc l1 = sumQc l2.
Proof.
  induction 1 as [|x l1 l2 _ IH|x y l|l1 l2 l3 _ IH1 _ IH2]; simpl.
  - done.
  - by rewrite IH.
  - ring.
  - by rewrite IH1.
Qed.

Lemma find_tax_Some (taxes : list Tax) id t :
  find (λ t, bool_decide (tax_id t = id)) taxes = Some t → t ∈ taxes ∧ tax_id t = id.
Proof.
  intros H. apply find_some in H as [Hin Hp]. apply bool_decide_eq_true in Hp.
  by rewrite list_elem_of_In.
Qed.

Lemma find_tax_unique (taxes : list Tax) t :
  NoDup (tax_id <$> taxes) → t ∈ taxes →
  find (λ t', bool_decide (tax_id t' = tax_id t)) taxes = Some t.
Proof.
  induction taxes as [|x taxes IH]; [by intros _ ?%elem_of_nil|].
  rewrite fmap_cons, NoDup_cons. intros [Hx Hnd] Hin. simpl.
  case_bool_decide as Heq.
  - apply elem_of_cons in Hin as [->|Hin]; [done|].
    destruct Hx. rewrite Heq. by apply list_elem_of_fmap_2.
  - apply elem_of_cons in Hin as [->|Hin]; [done|]. by apply IH.
Qed.

(** The taxes the POS applies (one per applied id, in the order of the
    ids) and the taxes the rapid-order screen applies (the taxes whose id
    is applied, in the order of the taxes) are the same taxes when no id
    is applied twice and no two taxes share an id. *)
Lemma applied_taxes_Permutation (ids : list string) (taxes : list Tax) :
  NoDup ids → NoDup (tax_id <$> taxes) →
  omap (λ taxId, find (λ t, bool_decide (tax_id t = taxId)) taxes) ids
  ≡ₚ List.filter (λ t, bool_decide (tax_id t ∈ ids)) taxes.
Proof.
  intros Hids Htaxes. apply NoDup_Permutation.
  - clear Htaxes. induction ids as [|id ids IH]; simpl; [constructor|].
    apply NoDup_cons in Hids as [Hid Hids].
    destruct (find _ taxes) as [t|] eqn:Hfind; simpl; [|by apply IH].
    apply NoDup_cons. split; [|by apply IH].
    intros (id' & Hid' & Hfind')%list_elem_of_omap.
    apply find_tax_Some in Hfind as [_ <-]. apply find_tax_Some in Hfind' as [_ <-].
    done.
  - apply NoDup_ListNoDup, List.NoDup_filter, NoDup_ListNoDup.
    by eapply NoDup_fmap_1.
  - intros t. rewrite list_elem_of_omap, list_elem_of_In, filter_In, <- list_elem_of_In.
    rewrite bool_decide_eq_true. split.
    + intros (id & Hid & [Hin <-]%find_tax_Some). done.
    + intros [Hin Hid]. exists (tax_id t). split; [done|]. by apply find_tax_unique.
Qed.

Lemma omap_cons_match {A B} (f : A → option B) (x : A) (l : list A) :
  omap f (x :: l) = match f x with Some y => y :: omap f l | None => omap f l end.
Proof. done. Qed.

Lemma omap_ext_in {A B} (f g : A → option B) (l : list A) :
  (∀ x, x ∈ l → f x = g x) → omap f l = omap g l.
Proof.
  induction l as [|x l IH]; intros Hfg; [done|].
  rewrite !omap_cons_match, (Hfg x) by apply list_elem_of_here.
  rewrite IH; [done|]. intros y Hy. apply Hfg. by apply list_elem_of_further.
Qed.

(** When the applied ids are listed in the order of the taxes, the two
    screens build the same list. *)
Lemma applied_taxes_same_order (taxes : list Tax) : ∀ ids : list string,
  NoDup (tax_id <$> taxes) →
  ids `sublist_of` (tax_id <$> taxes) →
  omap (λ taxId, find (λ t, bool_decide (tax_id t = taxId)) taxes) ids
  = List.filter (λ t, bool_decide (tax_id t ∈ ids)) taxes.
Proof.
  induction taxes as [|t ts IH]; intros ids Hnd Hsub.
  - apply sublist_nil_r in Hsub as ->. done.
  - rewrite fmap_cons in Hnd, Hsub. apply NoDup_cons in Hnd as [Ht Hnd].
    assert (Hskip : ∀ ids' : list string,
              ids' `sublist_of` (tax_id <$> ts) →
              omap (λ taxId, find (λ t', bool_decide (tax_id t' = taxId)) (t :: ts)) ids'
              = omap (λ taxId, find (λ t', bool_decide (tax_id t' = taxId)) ts) ids').
    { intros ids' Hsub'. apply omap_ext_in. intros id Hid. simpl.
      rewrite bool_decide_eq_false_2; [done|].
      intros Heq. apply Ht. rewrite Heq.
      eapply elem_of_submseteq; [done|]. by apply sublist_submseteq. }
    apply sublist_cons_r in Hsub as [Hsub | (ids' & -> & Hsub)].
    + rewrite (Hskip _ Hsub), (IH _ Hnd Hsub). simpl.
      rewrite bool_decide_eq_false_2; [done|].
      intros Hin. apply Ht. eapply elem_of_submseteq; [done|]. by apply sublist_submseteq.
    + assert (Hfind : find (λ t', bool_decide (tax_id t' = tax_id t)) (t :: ts) = Some t)
        by (simpl; by rewrite bool_decide_eq_true_2).
      rewrite omap_cons_match, Hfind, (Hskip _ Hsub), (IH _ Hnd Hsub). simpl.
      rewrite bool_decide_eq_true_2 by left. f_equal.
      apply filter_ext_in. intros x Hx%list_elem_of_In.
      apply bool_decide_ext. rewrite elem_of_cons.
      split; [by right | intros [Heq|Hin]; [|done]].
      destruct Ht. rewrite <- Heq. by apply list_elem_of_fmap_2.
Qed.

(** X9.  The POS and the rapid-order screen price a cart from the same
    figures.  The subtotal is the same; when no tax id is applied twice
    and no two taxes share an id, the applied taxes (name, rate, amount)
    are the same up to their order: the POS lists them in the order of
    the applied ids, the rapid-order screen in the order of the taxes.
    When the applied ids are listed in the order of the taxes, the two
    lists are equal, and so are the tax amount and the total that each
    screen adds up from its list. *)
Theorem screens_agree_on_total profile cart taxes :
  NoDup (default [] (profile ≫= appliedTaxIds)) →
  NoDup (tax_id <$> taxes) →
  RapidOrderModal.subtotal cart = POSModal.subtotal cart
  ∧ RapidOrderModal.appliedTaxes cart taxes profile
    ≡ₚ POSModal.appliedTaxes profile cart taxes
  ∧ (default [] (profile ≫= appliedTaxIds) `sublist_of` (tax_id <$> taxes) →
     RapidOrderModal.appliedTaxes cart taxes profile
     = POSModal.appliedTaxes profile cart taxes
     ∧ RapidOrderModal.taxAmount cart taxes profile = POSModal.taxAmount profile cart taxes
     ∧ RapidOrderModal.total cart taxes profile = POSModal.total profile cart taxes).
Proof.
  intros Hids Htaxes. split; [done|]. split.
  - unfold RapidOrderModal.appliedTaxes, POSModal.appliedTaxes,
      RapidOrderModal.appliedTaxesAt, POSModal.appliedTaxesAt.
    change (RapidOrderModal.subtotal cart) with (POSModal.subtotal cart).
    destruct (profile ≫= appliedTaxIds) as [ids|]; simpl in *; [|done].
    apply Permutation_map. symmetry. by apply applied_taxes_Permutation.
  - intros Hsub.
    assert (Hsame : RapidOrderModal.appliedTaxes cart taxes profile
                    = POSModal.appliedTaxes profile cart taxes).
    { unfold RapidOrderModal.appliedTaxes, POSModal.appliedTaxes,
        RapidOrderModal.appliedTaxesAt, POSModal.appliedTaxesAt.
      change (RapidOrderModal.subtotal cart) with (POSModal.subtotal cart).
      destruct (profile ≫= appliedTaxIds) as [ids|]; simpl in *; [|done].
      f_equal. symmetry. by apply applied_taxes_same_order. }
    split; [done|].
    assert (Htax : RapidOrderModal.taxAmount cart taxes profile
                   = POSModal.taxAmount profile cart taxes)
      by (unfold RapidOrderModal.taxAmount, POSModal.taxAmount; by rewrite Hsame).
    split; [done|].
    unfold RapidOrderModal.total, POSModal.total.
    change (RapidOrderModal.subtotal cart) with (POSModal.subtotal cart). by rewrite Htax.
Qed.

Lemma screens_agree_on_total_witness :
  RapidOrderModal.total Sample.cart1 [Sample.vat5] Sample.profile1
  = POSModal.total Sample.profile1 Sample.cart1 [Sample.vat5].
Proof.
  refine (proj2 (proj2 (proj2 (proj2 (screens_agree_on_total Sample.profile1 Sample.cart1
                                        [Sample.vat5] _ _)) _))).
  - apply (bool_decide_unpack _). vm_compute. exact I.
  - apply (bool_decide_unpack _). vm_compute. exact I.
  - simpl. apply sublist_skip, sublist_nil.
Defined.

(** Two applied taxes listed against the order of the taxes: the POS
    lists VAT after the service charge, the rapid-order screen before. *)
Example applied_taxes_in_two_orders :
  let service := {| tax_id := "svc"; tax_userId := "r1"; tax_name := "Service";
                    tax_rate := qc 10 1; isDefault := false |} in
  let profile := Some {| appliedTaxIds := Some ["svc"; "vat"] |} in
  at_name <$> POSModal.appliedTaxes profile Sample.cart1 [Sample.vat5; service]
  = ["Service"; "VAT"]
  ∧ at_name <$> RapidOrderModal.appliedTaxes Sample.cart1 [Sample.vat5; service] profile
    = ["VAT"; "Service"].
Proof. split; vm_compute; reflexivity. Qed.

(** ** Tax settings *)





(** ** Re-hydration keeps the quantities *)

Lemma rehydrateItem_quantity allItems Date_now (cart : list CartItem) item :
  sumQc (map ci_quantity (POSModal.rehydrateItem allItems Date_now cart item))
  = sumQc (map ci_quantity cart) + oi_quantity item
  ∧ (length (POSModal.rehydrateItem allItems Date_now cart item) ≤ S (length cart))%nat
  ∧ (positiveCart cart → 0 < oi_quantity item →
     positiveCart (POSModal.rehydrateItem allItems Date_now cart item)).
Proof.
  unfold POSModal.rehydrateItem.
  destruct (findIndex _ cart) as [i|] eqn:Hfind.
  - apply findIndex_Some in Hfind as (line & Hi & _).
    rewrite (sumQc_alter _ _ _ _ _ Hi), length_alter. simpl.
    split; [ring|]. split; [lia|].
    intros Hcart Hq. apply Forall_alter; [done|]. intros x _ Hx. simpl. qc_lra.
  - rewrite map_app, sumQc_app, length_app. simpl.
    split; [ring|]. split; [lia|].
    intros Hcart Hq. apply Forall_app. split; [done|]. by constructor.
Qed.

Lemma rehydrate_fold_quantity allItems Date_now (items : list OrderItem) : ∀ cart,
  sumQc (map ci_quantity (fold_left (POSModal.rehydrateItem allItems Date_now) items cart))
  = sumQc (map ci_quantity cart) + sumQc (map oi_quantity items)
  ∧ (length (fold_left (POSModal.rehydrateItem allItems Date_now) items cart)
     ≤ length cart + length items)%nat
  ∧ (positiveCart cart → Forall (λ item, 0 < oi_quantity item) items →
     positiveCart (fold_left (POSModal.rehydrateItem allItems Date_now) items cart)).
Proof.
  induction items as [|item items IH]; intros cart; simpl.
  - split; [ring|]. split; [lia|done].
  - destruct (IH (POSModal.rehydrateItem allItems Date_now cart item)) as (Hq & Hl & Hp).
    destruct (rehydrateItem_quantity allItems Date_now cart item) as (Hq1 & Hl1 & Hp1).
    rewrite Hq, Hq1. split; [ring|]. split; [lia|].
    intros Hcart [Hitem Hitems]%Forall_cons. apply Hp; [by apply Hp1|done].
Qed.

(** X11.  Re-hydrating a table's orders keeps every quantity: the
    quantities of the cart add up to those of all items of all fetched
    orders, completed or not, whether lines were merged or not; the cart
    has at most one line per item, and positive quantities give a cart
    of positive quantities. *)
Theorem rehydrate_conserves_quantity allItems Date_now (fetchedOrders : list Order) :
  let cart := POSModal.rehydrate allItems Date_now fetchedOrders in
  let items := concat (map o_items fetchedOrders) in
  sumQc (map ci_quantity cart) = sumQc (map oi_quantity items)
  ∧ (length cart ≤ length items)%nat
  ∧ (Forall (λ item, 0 < oi_quantity item) items → positiveCart cart).
Proof.
  intros cart items. subst cart items. unfold POSModal.rehydrate.
  rewrite (fold_left_concat (POSModal.rehydrateItem allItems Date_now) o_items).
  destruct (rehydrate_fold_quantity allItems Date_now (concat (o_items <$> fetchedOrders)) [])
    as (Hq & Hl & Hp).
  change (o_items <$> fetchedOrders) with (map o_items fetchedOrders) in *.
  split; [rewrite Hq; simpl; ring|]. split; [exact Hl|].
  intros Hitems. apply Hp; [constructor|done].
Qed.

Lemma rehydrate_conserves_quantity_witness :
  let cart := POSModal.rehydrate Sample.menu2 Sample.clock
                (omap (λ id, db_orders Sample.stockDb !! id) ["o1"]) in
  map ci_quantity cart = [qc 2 1; 1] ∧ positiveCart cart.
Proof.
  intros cart. split; [by_eval|].
  refine (proj2 (proj2 (rehydrate_conserves_quantity Sample.menu2 Sample.clock
                          (omap (λ id, db_orders Sample.stockDb !! id) ["o1"]))) _).
  repeat constructor.
Defined.

(** ** A new order sent to the kitchen *)

Lemma itemsSubtotal_kitchenOrderItems cart :
  itemsSubtotal (POSModal.kitchenOrderItems cart) = POSModal.subtotal cart.
Proof.
  rewrite POS_subtotal_sum. unfold itemsSubtotal, POSModal.kitchenOrderItems.
  rewrite map_map. f_equal. apply map_ext. intros line. simpl.
  rewrite fold_left_sum. unfold lineTotal. ring.
Qed.

Lemma alter_insert_lookup {A} (f : A → A) (m : gmap string A) k x :
  m !! k = Some x → <[k := f x]> m = alter f k m.
Proof.
  intros Hk. apply map_eq. intros k'. destruct (decide (k = k')) as [<-|Hne].
  - by rewrite lookup_insert_eq, lookup_alter_eq, Hk.
  - by rewrite lookup_insert_ne, lookup_alter_ne.
Qed.

Lemma alter_lookup_None {A} (f : A → A) (m : gmap string A) k :
  m !! k = None → alter f k m = m.
Proof.
  intros Hk. apply map_eq. intros k'. destruct (decide (k = k')) as [<-|Hne].
  - by rewrite lookup_alter_eq, Hk.
  - by rewrite lookup_alter_ne.
Qed.

(** The database after [handleSendToKitchen] on a POS opened without
    orders. *)
Lemma handleSendToKitchen_new
    userId type tableNumber orderIds profile cart taxes identifier orderNotes db
    newOrderId now :
  POSModal.nothingToSend type cart identifier = false →
  POSModal.hasOrderIds orderIds = false →
  POSModal.handleSendToKitchen userId type tableNumber orderIds profile cart taxes
    identifier orderNotes db newOrderId now
  = {| db_orders :=
         <[newOrderId := POSModal.newKitchenOrder userId type profile cart taxes identifier
                           orderNotes now]> (db_orders db);
       db_ingredients := db_ingredients db;
       db_floorPlans :=
         if bool_decide (type = DineIn) && truthy_ostring tableNumber
         then markedPlans userId tableNumber ordered (db_floorPlans db)
         else db_floorPlans db |}.
Proof.
  intros Hsend Hnone. unfold POSModal.handleSendToKitchen, POSModal.sendToKitchenBatch.
  rewrite Hsend, Hnone.
  assert (Hbatch : match orderIds with
                   | Some (orderId :: _) =>
                       match db_orders db !! orderId with
                       | Some existingOrder =>
                           [UpdateOrder orderId
                              (POSModal.appendUpdate profile cart taxes existingOrder)]
                       | None => []
                       end
                   | _ => [SetOrder newOrderId
                             (POSModal.newKitchenOrder userId type profile cart taxes
                                identifier orderNotes now)]
                   end
                   = [SetOrder newOrderId
                        (POSModal.newKitchenOrder userId type profile cart taxes
                           identifier orderNotes now)])
    by (by destruct orderIds as [[|? ?]|]).
  rewrite Hbatch. cbn [negb]. rewrite andb_true_r. unfold commit_or_keep, markedPlans.
  destruct (bool_decide (type = DineIn) && truthy_ostring tableNumber); simpl;
    [|reflexivity].
  destruct (db_floorPlans db !! userId) as [fp|] eqn:Hfp; simpl.
  - rewrite Hfp. simpl. unfold with_floorPlans, with_orders. simpl. f_equal.
    exact (alter_insert_lookup
             (λ fp, {| fp_tables := POSModal.markTables tableNumber ordered (fp_tables fp) |})
             _ _ _ Hfp).
  - unfold with_orders. f_equal. by rewrite alter_lookup_None.
Qed.

(** X12.  Sending a cart to the kitchen from a POS opened without orders
    always succeeds: it stores exactly one new order, with status New,
    the cart's lines as uncompleted items, a subtotal that is the sum of
    its items and a total that satisfies the total invariant.  No other
    order and no ingredient is touched; of the floor plans only the
    tables with the POS's table label change, and only for dine-in. *)
Theorem send_to_kitchen_creates_one_order
    userId type tableNumber orderIds profile cart taxes identifier orderNotes db
    newOrderId now :
  POSModal.nothingToSend type cart identifier = false →
  POSModal.hasOrderIds orderIds = false →
  let db' := POSModal.handleSendToKitchen userId type tableNumber orderIds profile cart
               taxes identifier orderNotes db newOrderId now in
  ∃ o, db_orders db' = <[newOrderId := o]> (db_orders db)
       ∧ o_status o = New ∧ o_userId o = userId ∧ o_plateNumber o = Some identifier
       ∧ o_orderType o = Some type ∧ o_createdAt o = now
       ∧ map (λ item, (menuItemId item, oi_quantity item)) (o_items o)
         = map (λ line, (ci_id line, ci_quantity line)) cart
       ∧ Forall (λ item, isCompleted item = false) (o_items o)
       ∧ o_subtotal o = itemsSubtotal (o_items o)
       ∧ totalInvariant o
       ∧ db_ingredients db' = db_ingredients db
       ∧ db_floorPlans db'
         = (if bool_decide (type = DineIn) && truthy_ostring tableNumber
            then markedPlans userId tableNumber ordered (db_floorPlans db)
            else db_floorPlans db).
Proof.
  intros Hsend Hnone db'. subst db'.
  rewrite (handleSendToKitchen_new _ _ _ _ _ _ _ _ _ _ _ _ Hsend Hnone). simpl.
  eexists. split; [reflexivity|]. simpl.
  split; [done|]. split; [done|]. split; [done|]. split; [done|]. split; [done|].
  split; [|split; [|split; [|split; [|done]]]].
  - unfold POSModal.kitchenOrderItems. rewrite map_map. by apply map_ext.
  - unfold POSModal.kitchenOrderItems. apply Forall_fmap, Forall_forall. by intros.
  - by rewrite itemsSubtotal_kitchenOrderItems.
  - apply (new_orders_totalInvariant userId type profile cart taxes identifier cash
             orderNotes now).
Qed.

Lemma send_to_kitchen_creates_one_order_witness :
  let db' := POSModal.handleSendToKitchen "r1" DineIn (Some "T1") None Sample.profile1
               Sample.cart1 [Sample.vat5] "T1" "" Sample.appendDb "n1" 200 in
  POSModal.nothingToSend DineIn Sample.cart1 "T1" = false
  ∧ ∃ o, db_orders db' = <[ "n1" := o ]> (db_orders Sample.appendDb)
         ∧ o_status o = New ∧ o_subtotal o = qc 7500 1000.
Proof.
  intros db'. split; [reflexivity|].
  destruct (send_to_kitchen_creates_one_order "r1" DineIn (Some "T1") None Sample.profile1
              Sample.cart1 [Sample.vat5] "T1" "" Sample.appendDb "n1" 200
              eq_refl eq_refl)
    as (o & Ho & Hst & _ & _ & _ & _ & _ & _ & Hsub & _).
  exists o. split; [exact Ho|]. split; [exact Hst|].
  rewrite Hsub. apply (f_equal (λ m : gmap string Order, m !! "n1")) in Ho.
  subst db'. rewrite lookup_insert_eq in Ho.
  assert (Ho' : Some o = Some (POSModal.newKitchenOrder "r1" DineIn Sample.profile1
                                 Sample.cart1 [Sample.vat5] "T1" "" 200)).
  { rewrite <- Ho. by_eval. }
  injection Ho' as ->. by_eval.
Defined.

(** ** The floor plan after an order is sent from a table *)

Lemma elem_of_liveTables userId db tws :
  tws ∈ FloorPlanPage.liveTables userId db →
  ∃ floorPlan table,
    db_floorPlans db !! userId = Some floorPlan
    ∧ table ∈ fp_tables floorPlan
    ∧ tws = {| FloorPlanPage.tws_table := table;
               FloorPlanPage.tws_status :=
                 FloorPlanPage.deriveStatus table
                   (FloorPlanPage.sortByCreatedAt
                      (openOrdersOf table (FloorPlanPage.activeOrders userId db)));
               FloorPlanPage.tws_orders :=
                 FloorPlanPage.sortByCreatedAt
                   (openOrdersOf table (FloorPlanPage.activeOrders userId db)) |}.
Proof.
  unfold FloorPlanPage.liveTables.
  destruct (db_floorPlans db !! userId) as [floorPlan|]; [|by intros ?%elem_of_nil].
  intros (i & Hi)%list_elem_of_lookup_1. exists floorPlan.
  assert (Hlen : (i < length (fp_tables floorPlan))%nat).
  { apply lookup_lt_Some in Hi. unfold FloorPlanPage.tablesWithStatus in Hi.
    by rewrite length_map in Hi. }
  apply lookup_lt_is_Some in Hlen as [table Htable]. exists table.
  split; [done|]. split; [by eapply list_elem_of_lookup_2|].
  rewrite (tablesWithStatus_lookup _ _ _ _ Htable) in Hi. by injection Hi as <-.
Qed.

Lemma elem_of_openOrdersOf table orders o :
  o ∈ openOrdersOf table orders ↔ o ∈ orders ∧ matchesKey (toUpperCase (label table)) o = true.
Proof. unfold openOrdersOf. by rewrite !list_elem_of_In, filter_In. Qed.

(** A table that has an open order with status New, In Progress or Ready
    shows as ordered, attention or needs cleaning. *)
Lemma deriveStatus_open table (tableOrders : list (string * Order)) o :
  o ∈ tableOrders →
  o_status o.2 = New ∨ o_status o.2 = InProgress ∨ o_status o.2 = Ready →
  FloorPlanPage.deriveStatus table tableOrders = ordered
  ∨ FloorPlanPage.deriveStatus table tableOrders = attention
  ∨ FloorPlanPage.deriveStatus table tableOrders = needs_cleaning.
Proof.
  intros Hin Hst.
  destruct (deriveStatus_cases table tableOrders) as (Hc & Hr & Ha & _).
  destruct (decide (t_status table = Some needs_cleaning)) as [Hnc|Hnc];
    [right; right; by apply Hc|].
  destruct (decide (Exists (λ o : string * Order, o_status o.2 = Ready) tableOrders))
    as [Hex|Hnex].
  - right; left. apply Hr; [done|]. by apply Exists_exists in Hex.
  - left. apply Ha; [done| |].
    + intros o' Ho' Hready. apply Hnex, Exists_exists. by exists o'.
    + exists o. split; [done|]. destruct Hst as [?|[?|Hready]]; [by left|by right|].
      destruct Hnex. apply Exists_exists. by exists o.
Qed.

(** X13.  After a dine-in order is sent to the kitchen from a POS opened
    without orders, the floor plan page lists the new order under every
    table whose label is the POS's identifier up to case, and shows such
    a table as ordered, as attention (another order of it is ready) or as
    needs cleaning, never as available or seated. *)
Theorem floor_shows_the_order_sent
    userId tableNumber orderIds profile cart taxes identifier orderNotes db newOrderId
    now tws :
  cart ≠ [] →
  identifier ≠ "" →
  POSModal.hasOrderIds orderIds = false →
  tws ∈ FloorPlanPage.liveTables userId
          (POSModal.handleSendToKitchen userId DineIn tableNumber orderIds profile cart
             taxes identifier orderNotes db newOrderId now) →
  toUpperCase (label (FloorPlanPage.tws_table tws)) = toUpperCase identifier →
  newOrderId ∈ map fst (FloorPlanPage.tws_orders tws)
  ∧ (FloorPlanPage.tws_status tws = ordered
     ∨ FloorPlanPage.tws_status tws = attention
     ∨ FloorPlanPage.tws_status tws = needs_cleaning).
Proof.
  intros Hcart Hid Hnone Htws Hlabel.
  assert (Hsend : POSModal.nothingToSend DineIn cart identifier = false).
  { unfold POSModal.nothingToSend. by rewrite (bool_decide_eq_false_2 _ Hcart). }
  rewrite (handleSendToKitchen_new _ _ _ _ _ _ _ _ _ _ _ _ Hsend Hnone) in Htws.
  apply elem_of_liveTables in Htws as (floorPlan & table & _ & _ & ->).
  simpl in *.
  set (o := POSModal.newKitchenOrder userId DineIn profile cart taxes identifier
              orderNotes now).
  match goal with
  | |- context [openOrdersOf table ?l] => set (orders := l)
  end.
  assert (Hin : (newOrderId, o) ∈ FloorPlanPage.sortByCreatedAt (openOrdersOf table orders)).
  { apply elem_of_sortByCreatedAt, elem_of_openOrdersOf. split.
    - apply elem_of_queryOrders. simpl. rewrite lookup_insert_eq. split; [done|].
      by rewrite bool_decide_eq_true_2.
    - unfold matchesKey. simpl. rewrite Hlabel.
      rewrite (bool_decide_eq_true_2 (toUpperCase identifier = _)) by done.
      by destruct identifier. }
  split.
  - apply list_elem_of_fmap. by exists (newOrderId, o).
  - apply (deriveStatus_open _ _ _ Hin). by left.
Qed.

Lemma floor_shows_the_order_sent_witness :
  let db' := POSModal.handleSendToKitchen "r1" DineIn (Some "T4") None Sample.profile1
               Sample.cart1 [Sample.vat5] "T4" "" Sample.appendDb "n1" 200 in
  ∃ tws, tws ∈ FloorPlanPage.liveTables "r1" db'
         ∧ label (FloorPlanPage.tws_table tws) = "T4"
         ∧ "n1" ∈ map fst (FloorPlanPage.tws_orders tws)
         ∧ (FloorPlanPage.tws_status tws = ordered
            ∨ FloorPlanPage.tws_status tws = attention
            ∨ FloorPlanPage.tws_status tws = needs_cleaning).
Proof.
  intros db'.
  destruct (FloorPlanPage.liveTables "r1" db' !! 3%nat) as [tws|] eqn:Htws;
    [|by vm_compute in Htws].
  exists tws.
  assert (Hlabel : label (FloorPlanPage.tws_table tws) = "T4").
  { apply (f_equal (fmap (label ∘ FloorPlanPage.tws_table))) in Htws.
    vm_compute in Htws. by injection Htws as ->. }
  assert (Hin : tws ∈ FloorPlanPage.liveTables "r1" db') by (by eapply list_elem_of_lookup_2).
  split; [exact Hin|]. split; [exact Hlabel|].
  refine (floor_shows_the_order_sent "r1" (Some "T4") None Sample.profile1 Sample.cart1
            [Sample.vat5] "T4" "" Sample.appendDb "n1" 200 tws _ _ _ Hin _).
  - discriminate.
  - discriminate.
  - reflexivity.
  - by rewrite Hlabel.
Defined.

(** ** Finalizing the orders of a table *)

(** The stock decrements of a batch commit when every ingredient they
    name exists, and are rejected when one of them does not. *)
Lemma commit_decrements_succeeds (l : list (string * Qc)) : ∀ db,
  (∀ k q, (k, q) ∈ l → is_Some (db_ingredients db !! k)) →
  is_Some (commit db (map (λ '(ingredientId, quantity),
                             IncrementStock ingredientId (- quantity)) l)).
Proof.
  induction l as [|[k q] l IH]; intros db Hall; simpl; [done|].
  destruct (Hall k q (list_elem_of_here _ _)) as [i Hi]. rewrite Hi. simpl.
  apply IH. intros k' q' Hin. simpl.
  destruct (decide (k = k')) as [<-|Hne].
  - by rewrite lookup_insert_eq.
  - rewrite lookup_insert_ne by done. apply (Hall k' q'). by right.
Qed.

Lemma commit_decrements_fails (l : list (string * Qc)) : ∀ db k q,
  (k, q) ∈ l → db_ingredients db !! k = None →
  commit db (map (λ '(ingredientId, quantity),
                    IncrementStock ingredientId (- quantity)) l) = None.
Proof.
  induction l as [|[k0 q0] l IH]; intros db k q Hin Hk; [by apply elem_of_nil in Hin|].
  simpl. destruct (db_ingredients db !! k0) as [i|] eqn:Hk0; [|done]. simpl.
  apply elem_of_cons in Hin as [[= <- <-]|Hin]; [congruence|].
  apply (IH _ k q Hin). simpl. rewrite lookup_insert_ne; [done|]. congruence.
Qed.

(** Updating the orders of a list of ids, one update for all. *)
Lemma commit_update_orders (u : OrderUpdate) (ids : list string) (rest : list Write) :
  ∀ db,
  (∀ o, update_order u (update_order u o) = update_order u o) →
  (∀ id, id ∈ ids → is_Some (db_orders db !! id)) →
  ∃ db1, commit db (map (λ orderId, UpdateOrder orderId u) ids ++ rest) = commit db1 rest
         ∧ db_ingredients db1 = db_ingredients db
         ∧ db_floorPlans db1 = db_floorPlans db
         ∧ ∀ id, db_orders db1 !! id
                 = if bool_decide (id ∈ ids) then update_order u <$> db_orders db !! id
                   else db_orders db !! id.
Proof.
  intros db Hidem. revert db. induction ids as [|id0 ids IH]; intros db Hall.
  - exists db. split; [done|]. split; [done|]. split; [done|]. intros id.
    by rewrite bool_decide_eq_false_2 by apply not_elem_of_nil.
  - destruct (Hall id0 (list_elem_of_here _ _)) as [o0 Ho0]. simpl. rewrite Ho0. simpl.
    destruct (IH (with_orders db (<[id0 := update_order u o0]> (db_orders db))))
      as (db1 & Hcommit & Hing & Hfp & Hlk).
    { intros id Hid. simpl. destruct (decide (id0 = id)) as [<-|Hne].
      - by rewrite lookup_insert_eq.
      - rewrite lookup_insert_ne by done. apply Hall. by right. }
    exists db1. split; [done|]. split; [done|]. split; [done|].
    intros id. rewrite Hlk. simpl.
    destruct (decide (id0 = id)) as [<-|Hne].
    + rewrite lookup_insert_eq, Ho0. simpl.
      rewrite (bool_decide_eq_true_2 (id0 ∈ id0 :: ids)) by apply list_elem_of_here.
      case_bool_decide; simpl; [by rewrite Hidem|done].
    + rewrite lookup_insert_ne by done.
      destruct (decide (id ∈ ids)) as [Hin|Hout].
      * rewrite !bool_decide_eq_true_2; [done|by right|done].
      * rewrite !bool_decide_eq_false_2; [done| |done].
        rewrite elem_of_cons. intros [->|?]; done.
Qed.

Lemma commit_update_orders_fails (u : OrderUpdate) (ids : list string) (rest : list Write) :
  ∀ db id,
  id ∈ ids → db_orders db !! id = None →
  commit db (map (λ orderId, UpdateOrder orderId u) ids ++ rest) = None.
Proof.
  induction ids as [|id0 ids IH]; intros db id Hin Hid; [by apply elem_of_nil in Hin|].
  simpl. destruct (db_orders db !! id0) as [o0|] eqn:Ho0; [|done]. simpl.
  apply elem_of_cons in Hin as [->|Hin]; [congruence|].
  apply (IH _ id Hin). simpl. rewrite lookup_insert_ne; [done|]. congruence.
Qed.

Lemma completedUpdate_idem paymentMethod o :
  update_order (POSModal.completedUpdate paymentMethod)
    (update_order (POSModal.completedUpdate paymentMethod) o)
  = update_order (POSModal.completedUpdate paymentMethod) o.
Proof. reflexivity. Qed.

(** What a finalization of the orders [ids] leaves behind when all of them
    and all ingredients of the deductions exist. *)
Lemma handleFinalizeOrder_listed
    userId type tableNumber ids allItems profile cart taxes identifier paymentMethod
    orderNotes db newOrderId now :
  POSModal.nothingToSend type cart identifier = false →
  ids ≠ [] →
  (∀ id, id ∈ ids → is_Some (db_orders db !! id)) →
  (∀ k, is_Some (POSModal.deductions allItems cart !! k) →
        is_Some (db_ingredients db !! k)) →
  ∃ db',
    POSModal.handleFinalizeOrder userId type tableNumber (Some ids) allItems
      profile cart taxes identifier paymentMethod orderNotes db newOrderId now = db'
    ∧ commit db (POSModal.finalizeBatch userId type tableNumber (Some ids) allItems profile
                   cart taxes identifier paymentMethod orderNotes db newOrderId now)
      = Some db'
    ∧ (∀ id, db_orders db' !! id
             = if bool_decide (id ∈ ids)
               then update_order (POSModal.completedUpdate paymentMethod)
                      <$> db_orders db !! id
               else db_orders db !! id)
    ∧ db_floorPlans db'
      = (if truthy_ostring tableNumber
         then markedPlans userId tableNumber needs_cleaning (db_floorPlans db)
         else db_floorPlans db).
Proof.
  intros Hsend Hids Horders Hings.
  enough (Hc : ∃ db',
             commit db (POSModal.finalizeBatch userId type tableNumber (Some ids) allItems
                          profile cart taxes identifier paymentMethod orderNotes db
                          newOrderId now) = Some db'
             ∧ (∀ id, db_orders db' !! id
                      = if bool_decide (id ∈ ids)
                        then update_order (POSModal.completedUpdate paymentMethod)
                               <$> db_orders db !! id
                        else db_orders db !! id)
             ∧ db_floorPlans db'
               = (if truthy_ostring tableNumber
                  then markedPlans userId tableNumber needs_cleaning (db_floorPlans db)
                  else db_floorPlans db)).
  { destruct Hc as (db' & Hcommit & Hrest). exists db'. split; [|by split].
    unfold POSModal.handleFinalizeOrder, commit_or_keep. by rewrite Hsend, Hcommit. }
  unfold POSModal.finalizeBatch.
  assert (Hhas : POSModal.hasOrderIds (Some ids) = true) by (by destruct ids).
  rewrite Hhas. change (default [] (Some ids)) with ids. rewrite commit_app.
  destruct (commit_decrements_succeeds (map_to_list (POSModal.deductions allItems cart)) db)
    as [db0 Hdec].
  { intros k q Hkq%elem_of_map_to_list. apply Hings. by exists q. }
  rewrite Hdec. cbn [mbind option_bind].
  apply commit_decrements in Hdec as (Ho0 & Hf0 & _); [|apply NoDup_fst_map_to_list].
  match goal with
  | |- context [commit db0 (map _ ?l ++ ?rest)] =>
      destruct (commit_update_orders (POSModal.completedUpdate paymentMethod) l rest db0)
        as (db1 & Hcommit & _ & Hf1 & Hlk);
        [apply completedUpdate_idem|by rewrite Ho0|]
  end.
  rewrite Hcommit.
  rewrite Ho0 in Hlk. rewrite Hf0 in Hf1. unfold markedPlans.
  destruct (truthy_ostring tableNumber); [|by exists db1].
  destruct (db_floorPlans db !! userId) as [fp|] eqn:Hfp.
  - simpl. rewrite Hf1, Hfp. simpl. eexists. split; [reflexivity|]. simpl.
    split; [done|].
    exact (alter_insert_lookup
             (λ fp, {| fp_tables := POSModal.markTables tableNumber needs_cleaning
                                      (fp_tables fp) |}) _ _ _ Hfp).
  - exists db1. split; [done|]. split; [done|]. rewrite Hf1. by rewrite alter_lookup_None.
Qed.

(** X14.  Finalizing the orders a POS was opened on, when they and the
    ingredients of the deductions exist: every listed order becomes
    Completed with the chosen payment method and keeps its items, its
    amounts and its table; no other order changes; every ingredient
    loses exactly what the cart requires of it; the tables with the
    POS's table label are marked as needing cleaning. *)
Theorem finalize_completes_the_listed_orders
    userId type tableNumber ids allItems profile cart taxes identifier paymentMethod
    orderNotes db newOrderId now :
  POSModal.nothingToSend type cart identifier = false →
  ids ≠ [] →
  (∀ id, id ∈ ids → is_Some (db_orders db !! id)) →
  (∀ k, is_Some (POSModal.deductions allItems cart !! k) →
        is_Some (db_ingredients db !! k)) →
  let db' := POSModal.handleFinalizeOrder userId type tableNumber (Some ids) allItems
               profile cart taxes identifier paymentMethod orderNotes db newOrderId now in
  (∀ id o, id ∈ ids → db_orders db !! id = Some o →
     ∃ o', db_orders db' !! id = Some o'
           ∧ o_status o' = Completed ∧ o_paymentMethod o' = Some paymentMethod
           ∧ o_items o' = o_items o ∧ o_subtotal o' = o_subtotal o
           ∧ o_taxAmount o' = o_taxAmount o ∧ o_total o' = o_total o
           ∧ o_plateNumber o' = o_plateNumber o ∧ o_createdAt o' = o_createdAt o)
  ∧ (∀ id, id ∉ ids → db_orders db' !! id = db_orders db !! id)
  ∧ (∀ k i, db_ingredients db !! k = Some i →
       ∃ i', db_ingredients db' !! k = Some i'
             ∧ ing_name i' = ing_name i
             ∧ stock i' = stock i - required allItems (POSModal.finalOrderItems cart) k)
  ∧ db_floorPlans db'
    = (if truthy_ostring tableNumber
       then markedPlans userId tableNumber needs_cleaning (db_floorPlans db)
       else db_floorPlans db).
Proof.
  intros Hsend Hids Horders Hings db'.
  destruct (handleFinalizeOrder_listed userId type tableNumber ids allItems profile cart
              taxes identifier paymentMethod orderNotes db newOrderId now
              Hsend Hids Horders Hings) as (dbF & Heq & Hcommit & Hlk & Hfp).
  subst db'. rewrite Heq.
  split; [|split; [|split; [|done]]].
  - intros id o Hin Ho. rewrite Hlk, (bool_decide_eq_true_2 _ Hin), Ho. simpl.
    eexists. split; [reflexivity|]. by repeat split.
  - intros id Hout. by rewrite Hlk, (bool_decide_eq_false_2 _ Hout).
  - by apply (finalize_deducts_required _ _ _ _ _ _ _ _ _ _ _ _ _ _ _ Hcommit).
Qed.

Lemma finalize_completes_the_listed_orders_witness :
  let db' := Sample.finalizeTable Sample.stockDb in
  o_status <$> db_orders db' !! "o1" = Some Completed
  ∧ ∃ i', db_ingredients db' !! "X" = Some i'
          ∧ stock i' = qc 100 1
                       - required Sample.menu2
                           (POSModal.finalOrderItems (Sample.tableCart Sample.stockDb)) "X".
Proof.
  intros db'.
  assert (H : ∀ id, id ∈ ["o1"] → is_Some (db_orders Sample.stockDb !! id)).
  { intros id ->%list_elem_of_singleton. by eexists. }
  assert (H' : ∀ k, is_Some (POSModal.deductions Sample.menu2
                               (Sample.tableCart Sample.stockDb) !! k) →
                    is_Some (db_ingredients Sample.stockDb !! k)).
  { intros k [q Hq]. destruct (decide (k = "X")) as [->|Hne]; [by eexists|].
    exfalso.
    assert (Hd : POSModal.deductions Sample.menu2 (Sample.tableCart Sample.stockDb)
                 = {[ "X" := qc 7 1 ]}) by by_eval.
    rewrite Hd in Hq. by rewrite lookup_singleton_ne in Hq. }
  destruct (finalize_completes_the_listed_orders "r1" DineIn (Some "T1") ["o1"]
              Sample.menu2 Sample.profile1 (Sample.tableCart Sample.stockDb) [Sample.vat5]
              "T1" card "" Sample.stockDb "n1" 200 eq_refl ltac:(discriminate) H H')
    as (Ho & _ & Hi & _).
  split.
  - destruct (Ho "o1" _ (list_elem_of_here _ _) eq_refl) as (o' & Ho' & Hst & _).
    unfold db', Sample.finalizeTable. rewrite Ho'. simpl. by rewrite Hst.
  - destruct (Hi "X" _ eq_refl) as (i' & Hi' & _ & Hstock).
    exists i'. split; [exact Hi'|exact Hstock].
Defined.

(** X15.  A finalization writes all of its batch or nothing: when one of
    the listed orders does not exist, or an ingredient of the deductions
    does not exist, the database stays as it was; no order is completed
    and no stock is taken, not even of the ingredients that do exist. *)
Theorem finalize_writes_all_or_nothing
    userId type tableNumber orderIds allItems profile cart taxes identifier paymentMethod
    orderNotes db newOrderId now :
  (∃ k, is_Some (POSModal.deductions allItems cart !! k) ∧ db_ingredients db !! k = None)
  ∨ (∃ id, id ∈ default [] orderIds ∧ db_orders db !! id = None) →
  POSModal.handleFinalizeOrder userId type tableNumber orderIds allItems profile cart taxes
    identifier paymentMethod orderNotes db newOrderId now = db.
Proof.
  intros Hmissing. unfold POSModal.handleFinalizeOrder.
  destruct (POSModal.nothingToSend type cart identifier); [done|].
  unfold commit_or_keep, POSModal.finalizeBatch. rewrite commit_app.
  destruct (commit db (map _ (map_to_list (POSModal.deductions allItems cart))))
    as [db0|] eqn:Hdec; [|done].
  destruct Hmissing as [(k & [q Hq] & Hk) | (id & Hin & Hid)].
  - rewrite (commit_decrements_fails _ db k q) in Hdec; [done| |done].
    by apply elem_of_map_to_list.
  - apply commit_decrements in Hdec as (Ho0 & _ & _); [|apply NoDup_fst_map_to_list].
    assert (Hhas : POSModal.hasOrderIds orderIds = true).
    { destruct orderIds as [[|? ?]|]; simpl in Hin; try done; by apply elem_of_nil in Hin. }
    rewrite Hhas. simpl.
    rewrite (commit_update_orders_fails _ _ _ db0 id Hin); [done|]. by rewrite Ho0.
Qed.

Lemma finalize_writes_all_or_nothing_witness :
  let db := with_ingredients Sample.stockDb ∅ in
  POSModal.handleFinalizeOrder "r1" DineIn (Some "T1") (Some ["o1"]) Sample.menu2
    Sample.profile1 (Sample.tableCart Sample.stockDb) [Sample.vat5] "T1" card "" db "n1" 200
  = db.
Proof.
  intros db. apply finalize_writes_all_or_nothing. left. exists "X". split; [|done].
  assert (Hd : POSModal.deductions Sample.menu2 (Sample.tableCart Sample.stockDb)
               = {[ "X" := qc 7 1 ]}) by by_eval.
  rewrite Hd. by eexists.
Defined.

(** ** The floor plan page *)

Lemma elem_of_markTables tableNumber st (ts : list FloorPlanTable) table :
  table ∈ POSModal.markTables tableNumber st ts →
  ∃ t0, t0 ∈ ts ∧ t_id table = t_id t0 ∧ label table = label t0
        ∧ t_status table = if bool_decide (Some (label t0) = tableNumber) then Some st
                           else t_status t0.
Proof.
  unfold POSModal.markTables. intros (t0 & -> & Hin)%list_elem_of_fmap.
  exists t0. split; [done|]. by case_bool_decide.
Qed.

(** X16.  After the orders of a table have been finalized, the floor plan
    page shows every table with the POS's table label as needs cleaning,
    whatever orders are still open on it. *)
Theorem floor_needs_cleaning_after_finalize
    userId type tableNumber ids allItems profile cart taxes identifier paymentMethod
    orderNotes db newOrderId now tws :
  POSModal.nothingToSend type cart identifier = false →
  ids ≠ [] →
  (∀ id, id ∈ ids → is_Some (db_orders db !! id)) →
  (∀ k, is_Some (POSModal.deductions allItems cart !! k) →
        is_Some (db_ingredients db !! k)) →
  tws ∈ FloorPlanPage.liveTables userId
          (POSModal.handleFinalizeOrder userId type tableNumber (Some ids) allItems
             profile cart taxes identifier paymentMethod orderNotes db newOrderId now) →
  label (FloorPlanPage.tws_table tws) ≠ "" →
  tableNumber = Some (label (FloorPlanPage.tws_table tws)) →
  FloorPlanPage.tws_status tws = needs_cleaning.
Proof.
  intros Hsend Hids Horders Hings Htws Hne Hlabel.
  destruct (handleFinalizeOrder_listed userId type tableNumber ids allItems profile cart
              taxes identifier paymentMethod orderNotes db newOrderId now
              Hsend Hids Horders Hings) as (dbF & Heq & _ & _ & Hfp).
  rewrite Heq in Htws.
  apply elem_of_liveTables in Htws as (floorPlan & table & Hplan & Htable & ->).
  simpl in *.
  assert (Htruthy : truthy_ostring tableNumber = true).
  { rewrite Hlabel. simpl. by destruct (label table). }
  rewrite Htruthy in Hfp. rewrite Hfp in Hplan. unfold markedPlans in Hplan.
  rewrite lookup_alter_eq in Hplan.
  destruct (db_floorPlans db !! userId) as [fp0|]; [|done].
  injection Hplan as <-. simpl in Htable.
  apply elem_of_markTables in Htable as (t0 & _ & _ & Hl & Hst).
  rewrite bool_decide_eq_true_2 in Hst by (by rewrite Hlabel, Hl).
  by apply (deriveStatus_cases table _).
Qed.

Lemma floor_needs_cleaning_after_finalize_witness :
  FloorPlanPage.tws_status
    <$> FloorPlanPage.liveTables "r1" (Sample.finalizeTable Sample.stockDb) !! 0%nat
  = Some needs_cleaning.
Proof.
  destruct (FloorPlanPage.liveTables "r1" (Sample.finalizeTable Sample.stockDb) !! 0%nat)
    as [tws|] eqn:Htws; [|by vm_compute in Htws].
  assert (Hlabel : label (FloorPlanPage.tws_table tws) = "T1").
  { apply (f_equal (fmap (label ∘ FloorPlanPage.tws_table))) in Htws.
    vm_compute in Htws. by injection Htws as ->. }
  simpl. f_equal.
  refine (floor_needs_cleaning_after_finalize "r1" DineIn (Some "T1") ["o1"] Sample.menu2
            Sample.profile1 (Sample.tableCart Sample.stockDb) [Sample.vat5] "T1" card ""
            Sample.stockDb "n1" 200 tws eq_refl _ _ _ _ _ _).
  - discriminate.
  - intros id ->%list_elem_of_singleton. by eexists.
  - intros k [q Hq]. destruct (decide (k = "X")) as [->|Hne]; [by eexists|].
    exfalso.
    assert (Hd : POSModal.deductions Sample.menu2 (Sample.tableCart Sample.stockDb)
                 = {[ "X" := qc 7 1 ]}) by by_eval.
    rewrite Hd in Hq. by rewrite lookup_singleton_ne in Hq.
  - by eapply list_elem_of_lookup_2.
  - by rewrite Hlabel.
  - by rewrite Hlabel.
Defined.

(** Without a manual status of needs cleaning or seated a table shows
    what its orders say. *)
Lemma deriveStatus_no_manual table (tableOrders : list (string * Order)) :
  t_status table ≠ Some needs_cleaning → t_status table ≠ Some seated →
  FloorPlanPage.deriveStatus table tableOrders = available
  ∨ FloorPlanPage.deriveStatus table tableOrders = ordered
  ∨ FloorPlanPage.deriveStatus table tableOrders = attention.
Proof.
  intros Hnc Hs. unfold FloorPlanPage.deriveStatus.
  rewrite (bool_decide_eq_false_2 _ Hnc), (bool_decide_eq_false_2 _ Hs).
  repeat case_match; tauto.
Qed.

(** The database after [handleUpdateTableStatus] for the plan the page
    holds. *)
Lemma handleUpdateTableStatus_plans userId tableId status db fp :
  db_floorPlans db !! userId = Some fp →
  FloorPlanPage.handleUpdateTableStatus (Some fp) userId tableId status db
  = with_floorPlans db
      (<[userId := {| fp_tables :=
                        map (λ t, if bool_decide (t_id t = tableId)
                                  then {| t_id := t_id t; label := label t;
                                          t_status := Some status |}
                                  else t) (fp_tables fp) |}]> (db_floorPlans db)).
Proof.
  intros Hfp. unfold FloorPlanPage.handleUpdateTableStatus, commit_or_keep. simpl.
  by rewrite Hfp.
Qed.

(** X17.  Selecting a table that needs cleaning never opens the POS.
    Once the prompt is confirmed, the tables with the id of the selected
    one are stored as available and no longer show as needs cleaning;
    the other tables keep their stored entry; orders and ingredients are
    not touched.  Without confirmation nothing is written. *)
Theorem clearing_a_table
    userId role db tws :
  role ≠ Some FloorPlanPage.kitchen_staff →
  tws ∈ FloorPlanPage.liveTables userId db →
  FloorPlanPage.tws_status tws = needs_cleaning →
  let floorPlan := db_floorPlans db !! userId in
  let result := FloorPlanPage.handleSelectTable role true floorPlan userId tws db in
  result.2 = FloorPlanPage.Nothing
  ∧ db_orders result.1 = db_orders db
  ∧ db_ingredients result.1 = db_ingredients db
  ∧ (∀ tws', tws' ∈ FloorPlanPage.liveTables userId result.1 →
       let table := FloorPlanPage.tws_table tws in
       let table' := FloorPlanPage.tws_table tws' in
       (t_id table' = t_id table →
        t_status table' = Some available
        ∧ FloorPlanPage.tws_status tws' ≠ needs_cleaning
        ∧ FloorPlanPage.tws_status tws' ≠ seated)
       ∧ (t_id table' ≠ t_id table → table' ∈ default [] (fp_tables <$> floorPlan)))
  ∧ FloorPlanPage.handleSelectTable role false floorPlan userId tws db
    = (db, FloorPlanPage.Nothing).
Proof.
  intros Hrole Htws Hst floorPlan result. subst floorPlan result.
  unfold FloorPlanPage.handleSelectTable.
  rewrite (bool_decide_eq_false_2 _ Hrole), (bool_decide_eq_true_2 _ Hst). simpl.
  split; [done|].
  apply elem_of_liveTables in Htws as (fp & table & Hfp & Htable & ->). simpl in *.
  rewrite Hfp, (handleUpdateTableStatus_plans _ _ _ _ _ Hfp). simpl.
  split; [done|]. split; [done|]. split; [|done].
  intros tws' (fp' & table' & Hfp' & Htable' & ->)%elem_of_liveTables. simpl in *.
  rewrite lookup_insert_eq in Hfp'. injection Hfp' as <-. simpl in Htable'.
  apply list_elem_of_fmap in Htable' as (t0 & -> & Ht0).
  case_bool_decide as Hid; simpl.
  - split; [|by intros ?]. intros _. split; [done|].
    match goal with
    | |- FloorPlanPage.deriveStatus ?t ?l ≠ _ ∧ _ =>
        destruct (deriveStatus_no_manual t l) as [-> | [-> | ->]]; done
    end.
  - split; [by intros ?|]. by intros _.
Qed.

Lemma clearing_a_table_witness :
  let db := Sample.finalizeTable Sample.stockDb in
  ∃ tws, FloorPlanPage.liveTables "r1" db !! 0%nat = Some tws
         ∧ FloorPlanPage.tws_status tws = needs_cleaning
         ∧ (FloorPlanPage.handleSelectTable (Some FloorPlanPage.front_of_house) true
              (db_floorPlans db !! "r1") "r1" tws db).2 = FloorPlanPage.Nothing.
Proof.
  intros db.
  destruct (FloorPlanPage.liveTables "r1" db !! 0%nat) as [tws|] eqn:Htws;
    [|by vm_compute in Htws].
  exists tws. split; [done|].
  assert (Hst : FloorPlanPage.tws_status tws = needs_cleaning).
  { apply (f_equal (fmap FloorPlanPage.tws_status)) in Htws.
    vm_compute in Htws. by injection Htws as ->. }
  split; [exact Hst|].
  refine (proj1 (clearing_a_table "r1" (Some FloorPlanPage.front_of_house) db tws _ _ Hst)).
  - discriminate.
  - by eapply list_elem_of_lookup_2.
Defined.

Lemma insertByCreatedAt_sorted o l :
  StronglySorted notYounger l → StronglySorted notYounger (FloorPlanPage.insertByCreatedAt o l).
Proof.
  induction 1 as [|x l Hl IH Hx]; simpl; [by repeat constructor|].
  case_bool_decide as Hlt.
  - constructor; [done|].
    apply Forall_forall. intros y Hy.
    rewrite (insertByCreatedAt_Permutation o l) in Hy.
    apply elem_of_cons in Hy as [-> | Hy].
    + unfold notYounger. lia.
    + rewrite Forall_forall in Hx. by apply Hx.
  - constructor; [by constructor|]. constructor.
    + unfold notYounger. lia.
    + eapply Forall_impl; [exact Hx|]. unfold notYounger. intros y. lia.
Qed.

Lemma sortByCreatedAt_sorted l : StronglySorted notYounger (FloorPlanPage.sortByCreatedAt l).
Proof.
  unfold FloorPlanPage.sortByCreatedAt.
  induction l as [|x l IH]; simpl; [constructor|]. by apply insertByCreatedAt_sorted.
Qed.

(** X18.  Selecting a table that does not need cleaning writes nothing
    and opens the POS on the label of the table and the ids of its open
    orders, oldest first: the first id, the order the POS appends to, is
    that of an order no open order of the table is older than.  Kitchen
    staff cannot select a table at all. *)
Theorem selecting_a_table_opens_the_pos
    userId role confirmed db tws :
  tws ∈ FloorPlanPage.liveTables userId db →
  FloorPlanPage.tws_status tws ≠ needs_cleaning →
  let floorPlan := db_floorPlans db !! userId in
  let table := FloorPlanPage.tws_table tws in
  let openOrders := openOrdersOf table (FloorPlanPage.activeOrders userId db) in
  (role ≠ Some FloorPlanPage.kitchen_staff →
   FloorPlanPage.handleSelectTable role confirmed floorPlan userId tws db
   = (db, FloorPlanPage.OpenPOS (label table) (map fst (FloorPlanPage.tws_orders tws))))
  ∧ FloorPlanPage.handleSelectTable (Some FloorPlanPage.kitchen_staff) confirmed floorPlan
      userId tws db = (db, FloorPlanPage.Nothing)
  ∧ FloorPlanPage.tws_orders tws ≡ₚ openOrders
  ∧ StronglySorted notYounger (FloorPlanPage.tws_orders tws)
  ∧ match FloorPlanPage.tws_orders tws with
    | first :: _ => db_orders db !! first.1 = Some first.2
                    ∧ Forall (notYounger first) openOrders
    | [] => openOrders = []
    end.
Proof.
  intros Htws Hst floorPlan table openOrders. subst floorPlan table openOrders.
  split; [|split; [done|]].
  - intros Hrole. unfold FloorPlanPage.handleSelectTable.
    by rewrite (bool_decide_eq_false_2 _ Hrole), (bool_decide_eq_false_2 _ Hst).
  - apply elem_of_liveTables in Htws as (fp & table & Hfp & Htable & ->). simpl in *.
    pose proof (sortByCreatedAt_Permutation
                  (openOrdersOf table (FloorPlanPage.activeOrders userId db))) as Hperm.
    pose proof (sortByCreatedAt_sorted
                  (openOrdersOf table (FloorPlanPage.activeOrders userId db))) as Hsorted.
    split; [done|]. split; [done|].
    destruct (FloorPlanPage.sortByCreatedAt _) as [|first rest] eqn:Hsort.
    + by apply Permutation_nil_l in Hperm.
    + split.
      * assert (Hin : first ∈ openOrdersOf table (FloorPlanPage.activeOrders userId db))
          by (rewrite <- Hperm; apply list_elem_of_here).
        apply elem_of_openOrdersOf in Hin as [Hin _]. destruct first as [id o].
        by apply elem_of_queryOrders in Hin as [Hin _].
      * rewrite <- Hperm. apply StronglySorted_inv in Hsorted as [_ Hall].
        constructor; [unfold notYounger; lia|done].
Qed.

Lemma selecting_a_table_opens_the_pos_witness :
  ∃ tws, FloorPlanPage.liveTables "r1" Sample.appendDb !! 0%nat = Some tws
         ∧ FloorPlanPage.handleSelectTable (Some FloorPlanPage.front_of_house) false
             (db_floorPlans Sample.appendDb !! "r1") "r1" tws Sample.appendDb
           = (Sample.appendDb, FloorPlanPage.OpenPOS "T1" ["o1"]).
Proof.
  destruct (FloorPlanPage.liveTables "r1" Sample.appendDb !! 0%nat) as [tws|] eqn:Htws;
    [|by vm_compute in Htws].
  exists tws. split; [done|].
  assert (Hst : FloorPlanPage.tws_status tws ≠ needs_cleaning).
  { apply (f_equal (fmap FloorPlanPage.tws_status)) in Htws.
    vm_compute in Htws. injection Htws as Htws. unfold FloorPlanPage.tws_status.
    rewrite <- Htws. discriminate. }
  assert (Hl : label (FloorPlanPage.tws_table tws) = "T1"
               ∧ map fst (FloorPlanPage.tws_orders tws) = ["o1"]).
  { apply (f_equal (fmap (λ t, (label (FloorPlanPage.tws_table t),
                                map fst (FloorPlanPage.tws_orders t))))) in Htws.
    vm_compute in Htws. by injection Htws as -> ->. }
  destruct Hl as [Hl1 Hl2].
  rewrite (proj1 (selecting_a_table_opens_the_pos "r1" (Some FloorPlanPage.front_of_house)
                    false Sample.appendDb tws (list_elem_of_lookup_2 _ _ _ Htws) Hst));
    [|discriminate].
  by rewrite Hl1, Hl2.
Defined.

(** X19.  Saving a layout stores the tables without any manual status,
    so a page that reads the stored plan shows no table as needs cleaning
    or as seated; orders, ingredients and other plans stay.  The page
    that saved keeps the plan as it was handed over: it still shows every
    table the plan marks as needs cleaning that way, and its next change
    of a table status stores the statuses of the other tables again. *)
Theorem saving_a_layout_strips_the_stored_plan_only userId (newPlan : FloorPlan) db :
  let saved := FloorPlanPage.handleSaveLayout userId newPlan db in
  let db' := saved.1 in
  let page := saved.2 in
  db_orders db' = db_orders db
  ∧ db_ingredients db' = db_ingredients db
  ∧ (∀ id, id ≠ userId → db_floorPlans db' !! id = db_floorPlans db !! id)
  ∧ (fp_tables <$> db_floorPlans db' !! userId)
    = Some (map (λ t, {| t_id := t_id t; label := label t; t_status := None |})
                (fp_tables newPlan))
  ∧ Forall (λ tws, t_status (FloorPlanPage.tws_table tws) = None
                   ∧ (FloorPlanPage.tws_status tws = available
                      ∨ FloorPlanPage.tws_status tws = ordered
                      ∨ FloorPlanPage.tws_status tws = attention))
           (FloorPlanPage.liveTables userId db')
  ∧ page = Some newPlan
  ∧ (∀ orders,
       map FloorPlanPage.tws_table (FloorPlanPage.tablesWithStatus page orders)
       = fp_tables newPlan
       ∧ Forall (λ tws, t_status (FloorPlanPage.tws_table tws) = Some needs_cleaning →
                        FloorPlanPage.tws_status tws = needs_cleaning)
                (FloorPlanPage.tablesWithStatus page orders))
  ∧ (∀ tableId status,
       (fp_tables <$> db_floorPlans
                        (FloorPlanPage.handleUpdateTableStatus page userId tableId status db')
                      !! userId)
       = Some (map (λ t, if bool_decide (t_id t = tableId)
                         then {| t_id := t_id t; label := label t;
                                 t_status := Some status |}
                         else t) (fp_tables newPlan))).
Proof.
  intros saved db' page. subst saved db' page.
  unfold FloorPlanPage.handleSaveLayout. simpl.
  split; [done|]. split; [done|]. split; [by intros id Hne; rewrite lookup_insert_ne|].
  split; [by rewrite lookup_insert_eq|]. split.
  { unfold FloorPlanPage.liveTables. simpl. rewrite lookup_insert_eq.
    unfold FloorPlanPage.tablesWithStatus. simpl. rewrite !map_map.
    apply Forall_fmap, Forall_forall. intros t _. simpl. split; [done|].
    by apply deriveStatus_no_manual. }
  split; [done|]. split.
  { intros orders. unfold FloorPlanPage.tablesWithStatus. rewrite map_map. simpl.
    split; [by rewrite map_id|].
    apply Forall_fmap, Forall_forall. intros t _. simpl. intros Hnc.
    unfold FloorPlanPage.deriveStatus. by rewrite (bool_decide_eq_true_2 _ Hnc). }
  intros tableId status.
  unfold FloorPlanPage.handleUpdateTableStatus, commit_or_keep. simpl.
  rewrite lookup_insert_eq. simpl. by rewrite lookup_insert_eq.
Qed.

(** A plan with a table marked as needs cleaning is saved: the stored
    table has no status, the page that saved still shows it as needs
    cleaning, and seating another table from that page stores the mark
    again. *)
Example saved_layout_on_the_page :
  let db := {| db_orders := ∅; db_ingredients := ∅; db_floorPlans := ∅ |} in
  let saved := FloorPlanPage.handleSaveLayout "r1" Sample.floor1 db in
  (t_status <$> default [] (fp_tables <$> db_floorPlans saved.1 !! "r1"))
  = [None; None; None; None]
  ∧ FloorPlanPage.tws_status <$> FloorPlanPage.liveTables "r1" saved.1
    = [available; available; available; available]
  ∧ FloorPlanPage.tws_status <$> FloorPlanPage.tablesWithStatus saved.2 []
    = [available; needs_cleaning; seated; seated]
  ∧ (t_status
       <$> default [] (fp_tables
                         <$> db_floorPlans
                               (FloorPlanPage.handleUpdateTableStatus saved.2 "r1" "1" seated
                                  saved.1) !! "r1"))
    = [Some seated; Some needs_cleaning; Some seated; Some seated].
Proof. cbv zeta. split; [by_eval|]. split; [by_eval|]. split; by_eval. Qed.

(** ** The kitchen display *)

Section KitchenMore.

Import KitchenDisplayPage.

Lemma alter_complete_twice i (its : list OrderItem) :
  alter complete i (alter complete i its) = alter complete i its.
Proof.
  rewrite list_alter_alter_eq. apply list_eq. intros j. rewrite !list_lookup_alter.
  case_decide; [|done]. by destruct (its !! j) as [[]|].
Qed.

Lemma completeLine_twice i o : completeLine i (completeLine i o) = completeLine i o.
Proof.
  unfold completeLine. simpl. rewrite alter_complete_twice.
  rewrite newStatus_twice by done. by destruct o.
Qed.

Lemma handleCompleteIndividual_cases db id i :
  match db_orders db !! id with
  | Some o =>
      if bool_decide (i < length (o_items o))%nat
      then handleCompleteIndividual db id i
           = with_orders db (<[id := completeLine i o]> (db_orders db))
      else handleCompleteIndividual db id i = db
  | None => handleCompleteIndividual db id i = db
  end.
Proof.
  unfold handleCompleteIndividual.
  destruct (db_orders db !! id) as [o|] eqn:Ho; [|done].
  destruct (o_items o !! i) as [item|] eqn:Hitem.
  - rewrite bool_decide_eq_true_2 by (by eapply lookup_lt_Some).
    unfold commit_or_keep. simpl. by rewrite Ho.
  - rewrite bool_decide_eq_false_2; [done|].
    intros Hlt. apply lookup_lt_is_Some in Hlt as [? ?]. congruence.
Qed.

Lemma completeLine_keeps i o :
  map (λ it, (oi_name it, menuItemId it, oi_price it, oi_quantity it))
      (o_items (completeLine i o))
  = map (λ it, (oi_name it, menuItemId it, oi_price it, oi_quantity it)) (o_items o).
Proof.
  unfold completeLine. simpl. generalize (o_items o). intros its. revert i.
  induction its as [|it its IH]; intros [|i]; simpl; try done.
  f_equal. apply IH.
Qed.

(** X20.  Marking a line as done a second time changes nothing.  The
    handler writes nothing when the order does not exist or the index
    lies outside its items; it never touches ingredients or floor plans,
    and it leaves the amounts, the table and the names, prices and
    quantities of the items of the order as they are. *)
Theorem completing_a_line_is_idempotent db id i :
  let db1 := handleCompleteIndividual db id i in
  handleCompleteIndividual db1 id i = db1
  ∧ db_ingredients db1 = db_ingredients db
  ∧ db_floorPlans db1 = db_floorPlans db
  ∧ match db_orders db !! id with
    | None => db1 = db
    | Some o =>
        if bool_decide (i < length (o_items o))%nat
        then ∃ o1, db_orders db1 !! id = Some o1
                   ∧ map (λ it, (oi_name it, menuItemId it, oi_price it, oi_quantity it))
                         (o_items o1)
                     = map (λ it, (oi_name it, menuItemId it, oi_price it, oi_quantity it))
                           (o_items o)
                   ∧ o_subtotal o1 = o_subtotal o ∧ o_taxAmount o1 = o_taxAmount o
                   ∧ o_total o1 = o_total o ∧ o_plateNumber o1 = o_plateNumber o
                   ∧ o_status o1 ≠ New
        else db1 = db
    end.
Proof.
  intros db1. pose proof (handleCompleteIndividual_cases db id i) as Hc. fold db1 in Hc.
  destruct (db_orders db !! id) as [o|] eqn:Ho.
  2: { rewrite Hc. split; [|done]. pose proof (handleCompleteIndividual_cases db id i) as H.
       by rewrite Ho in H. }
  case_bool_decide as Hlt.
  2: { rewrite Hc. split; [|done]. pose proof (handleCompleteIndividual_cases db id i) as H.
       by rewrite Ho, (bool_decide_eq_false_2 _ Hlt) in H. }
  rewrite Hc. split; [|split; [done|split; [done|]]].
  - pose proof (handleCompleteIndividual_cases
                  (with_orders db (<[id := completeLine i o]> (db_orders db))) id i) as H.
    simpl in H. rewrite lookup_insert_eq in H.
    rewrite bool_decide_eq_true_2 in H by (by rewrite completeLine_length).
    rewrite H. unfold with_orders. simpl. f_equal.
    rewrite insert_insert_eq. f_equal. apply completeLine_twice.
  - simpl. rewrite lookup_insert_eq. eexists. split; [reflexivity|].
    split; [apply completeLine_keeps|]. simpl.
    split; [done|]. split; [done|]. split; [done|]. split; [done|].
    unfold newStatus. destruct (forallb _ _); [done|]. by case_bool_decide.
Qed.

Lemma fold_markOccurrence_None occs : fold_left markOccurrence occs None = None.
Proof. by induction occs. Qed.

Lemma markOccurrences_stale occ occs : ∀ docs : gmap string Order,
  occ ∈ occs →
  (∃ o, docs !! orderId occ = Some o ∧ (length (o_items o) ≤ itemIndex occ)%nat) →
  fold_left markOccurrence occs (Some docs) = None.
Proof.
  induction occs as [|a occs IH]; intros docs Hin (o & Ho & Hlen);
    [by apply elem_of_nil in Hin|].
  simpl. destruct (docs !! orderId a) as [orderData|] eqn:Ha.
  - destruct (o_items orderData !! itemIndex a) as [item|] eqn:Hitem;
      [|apply fold_markOccurrence_None].
    apply elem_of_cons in Hin as [->|Hin].
    + apply lookup_lt_Some in Hitem. rewrite Ho in Ha. injection Ha as <-. lia.
    + apply IH; [done|]. destruct (decide (orderId a = orderId occ)) as [Heq|Hne].
      * rewrite Heq, lookup_insert_eq. eexists. split; [done|]. simpl.
        rewrite length_alter. rewrite Heq, Ho in Ha. by injection Ha as <-.
      * rewrite lookup_insert_ne by done. by exists o.
  - apply elem_of_cons in Hin as [->|Hin]; [congruence|].
    apply IH; [done|]. by exists o.
Qed.

(** X21.  Bump-all writes nothing when one occurrence of the group names
    a line that its order no longer has: no line is completed, not even
    those of the occurrences that are in range. *)
Theorem bump_all_rejects_a_stale_group db summary occ o :
  occ ∈ individualOrders summary →
  db_orders db !! orderId occ = Some o →
  (length (o_items o) ≤ itemIndex occ)%nat →
  handleBumpAll db summary = db.
Proof.
  intros Hin Ho Hlen. unfold handleBumpAll.
  rewrite (markOccurrences_stale occ); [done|done|].
  exists o. split; [|done]. rewrite fetchOrderDocs_lookup, bool_decide_eq_true_2; [done|].
  apply elem_of_remove_dups, list_elem_of_fmap. by exists occ.
Qed.

Lemma bump_all_rejects_a_stale_group_witness :
  let stale := {| kds_menuItemId := "burger"; itemName := "burger";
                  kds_modifiersString := "none"; uniqueKey := "burger-none";
                  totalQuantity := 0 + 1 + 1;
                  individualOrders :=
                    [Sample.occurrence "o1" 0 "T1" New 100;
                     Sample.occurrence "o2" 5 "T2" New 110] |} in
  handleBumpAll Sample.kitchenDb stale = Sample.kitchenDb.
Proof.
  intros stale.
  refine (bump_all_rejects_a_stale_group Sample.kitchenDb stale
            (Sample.occurrence "o2" 5 "T2" New 110) _ _ _ _).
  - apply (bool_decide_unpack _). vm_compute. exact I.
  - reflexivity.
  - simpl. lia.
Defined.

(** *** The groups of the queue *)

Lemma addToSummary_Forall (Q : string → KDSItemSummary → Prop) key fresh q occ summaries :
  (∀ k s, Q k s → Q k (pushOccurrence q occ s)) →
  Q key (pushOccurrence q occ fresh) →
  Forall (λ ks, Q ks.1 ks.2) summaries →
  Forall (λ ks, Q ks.1 ks.2) (addToSummary key fresh q occ summaries).
Proof.
  intros Hpush Hfresh. induction 1 as [|[k s] rest Hks Hrest IH]; simpl.
  - by repeat constructor.
  - case_bool_decide.
    + constructor; [by apply Hpush|done].
    + by constructor.
Qed.

Lemma addToSummary_keys key fresh q occ summaries :
  map fst (addToSummary key fresh q occ summaries)
  = if bool_decide (key ∈ map fst summaries) then map fst summaries
    else map fst summaries ++ [key].
Proof.
  induction summaries as [|[k s] rest IH]; [done|]. cbn [addToSummary map fst].
  destruct (decide (k = key)) as [Hk|Hk].
  - rewrite (bool_decide_eq_true_2 _ Hk). subst k. cbn [map fst].
    by rewrite bool_decide_eq_true_2 by apply list_elem_of_here.
  - rewrite (bool_decide_eq_false_2 _ Hk). cbn [map fst]. rewrite IH.
    destruct (decide (key ∈ map fst rest)) as [Hin|Hout].
    + rewrite !bool_decide_eq_true_2; [done|by right|done].
    + rewrite !bool_decide_eq_false_2; [done| |done].
      rewrite elem_of_cons. intros [->|?]; done.
Qed.

Lemma addToSummary_adds key fresh q occ summaries :
  ∃ s, (key, s) ∈ addToSummary key fresh q occ summaries ∧ occ ∈ individualOrders s.
Proof.
  induction summaries as [|[k s] rest IH]; simpl.
  - eexists. split; [apply list_elem_of_here|]. simpl. apply elem_of_app. right.
    apply list_elem_of_here.
  - case_bool_decide as Hk.
    + subst k. eexists. split; [apply list_elem_of_here|]. simpl. apply elem_of_app.
      right. apply list_elem_of_here.
    + destruct IH as (s' & Hin & Hocc). exists s'. split; [by right|done].
Qed.

Lemma addToSummary_keeps key fresh q occ summaries k s o :
  (k, s) ∈ summaries → o ∈ individualOrders s →
  ∃ s', (k, s') ∈ addToSummary key fresh q occ summaries ∧ o ∈ individualOrders s'.
Proof.
  induction summaries as [|[k0 s0] rest IH]; simpl; [by intros ?%elem_of_nil|].
  intros [[= -> ->] | Hin]%elem_of_cons Ho.
  - case_bool_decide.
    + eexists. split; [apply list_elem_of_here|]. simpl. apply elem_of_app. by left.
    + exists s0. split; [apply list_elem_of_here|done].
  - case_bool_decide.
    + exists s. split; [by right|done].
    + destruct (IH Hin Ho) as (s' & Hin' & Ho'). exists s'. split; [by right|done].
Qed.

(** The well-formedness of the groups and the distinctness of their keys,
    kept by one turn of the loop. *)
Lemma summarizeItem_wellFormed menuItems selectedStation order summaries indexed :
  Forall (λ ks, uniqueKey ks.2 = ks.1 ∧ wellFormedGroup ks.2) summaries
  ∧ NoDup (map fst summaries) →
  Forall (λ ks, uniqueKey ks.2 = ks.1 ∧ wellFormedGroup ks.2)
         (summarizeItem menuItems selectedStation order summaries indexed)
  ∧ NoDup (map fst (summarizeItem menuItems selectedStation order summaries indexed)).
Proof.
  intros [Hwf Hnd]. unfold summarizeItem. destruct indexed as [index item].
  destruct (isCompleted item); [done|].
  destruct (negb _ && negb _); [done|]. split.
  - apply (addToSummary_Forall (λ k s, uniqueKey s = k ∧ wellFormedGroup s)); [| |done].
    + intros k s [Hk (Htot & Hne & Hkey)]. split; [done|].
      unfold wellFormedGroup. simpl. rewrite map_app, sumQc_app, Htot. simpl.
      split; [ring|]. split; [|done]. by destruct (individualOrders s).
    + split; [done|]. unfold wellFormedGroup. simpl. split; [ring|]. by split.
  - rewrite addToSummary_keys. case_bool_decide as Hin; [done|].
    apply NoDup_app. split; [done|]. split; [|apply NoDup_singleton].
    intros x Hx ->%list_elem_of_singleton. done.
Qed.

Lemma summaries_fold_ind (I : list (string * KDSItemSummary) → Prop) menuItems
    selectedStation :
  (∀ order summaries indexed,
     I summaries → I (summarizeItem menuItems selectedStation order summaries indexed)) →
  ∀ (orders : list (string * Order)) summaries,
    I summaries →
    I (fold_left (λ summaries order,
                    fold_left (summarizeItem menuItems selectedStation order)
                              (imap pair (o_items order.2)) summaries)
                 orders summaries).
Proof.
  intros Hstep orders. induction orders as [|order orders IH]; intros summaries HI; [done|].
  simpl. apply IH. generalize (imap pair (o_items order.2)). intros l.
  revert summaries HI. induction l as [|x l IHl]; intros summaries HI; [done|].
  simpl. by apply IHl, Hstep.
Qed.

Lemma insertByQuantity_sorted s l :
  StronglySorted largerFirst l → StronglySorted largerFirst (insertByQuantity s l).
Proof.
  induction 1 as [|x l Hl IH Hx]; simpl; [by repeat constructor|].
  case_bool_decide as Hlt.
  - constructor; [done|]. apply Forall_forall. intros y Hy.
    rewrite insertByQuantity_Permutation in Hy. apply elem_of_cons in Hy as [->|Hy].
    + by apply Qclt_le_weak.
    + rewrite Forall_forall in Hx. by apply Hx.
  - apply Qcnot_lt_le in Hlt. constructor; [by constructor|]. constructor; [done|].
    eapply Forall_impl; [exact Hx|]. unfold largerFirst. intros y Hy.
    by eapply Qcle_trans.
Qed.

Lemma foldr_insertByQuantity_Permutation (l : list KDSItemSummary) :
  foldr insertByQuantity [] l ≡ₚ l.
Proof.
  induction l as [|x l IH]; simpl; [done|]. by rewrite insertByQuantity_Permutation, IH.
Qed.

(** X22.  The groups of the kitchen queue add up: the quantity shown on a
    group is the sum of the quantities of its occurrences, every group
    has an occurrence, no two groups share a key, and the groups are
    listed from the largest quantity to the smallest. *)
Theorem kitchen_groups_add_up (orders : list (string * Order)) menuItems selectedStation :
  let groups := itemSummaries orders menuItems selectedStation in
  Forall wellFormedGroup groups
  ∧ NoDup (map uniqueKey groups)
  ∧ StronglySorted largerFirst groups.
Proof.
  intros groups. subst groups. unfold itemSummaries.
  match goal with
  | |- context [foldr insertByQuantity [] (map snd ?l)] => set (summaries := l)
  end.
  assert (Hinv : Forall (λ ks, uniqueKey ks.2 = ks.1 ∧ wellFormedGroup ks.2) summaries
                 ∧ NoDup (map fst summaries)).
  { subst summaries.
    apply (summaries_fold_ind
             (λ summaries,
                Forall (λ ks, uniqueKey ks.2 = ks.1 ∧ wellFormedGroup ks.2) summaries
                ∧ NoDup (map fst summaries))).
    - intros order summaries indexed. apply summarizeItem_wellFormed.
    - split; constructor. }
  destruct Hinv as [Hwf Hnd].
  split; [|split].
  - rewrite foldr_insertByQuantity_Permutation. apply Forall_fmap.
    eapply Forall_impl; [exact Hwf|]. by intros ks [_ ?].
  - rewrite foldr_insertByQuantity_Permutation.
    assert (Hkeys : map uniqueKey (map snd summaries) = map fst summaries).
    { rewrite map_map. apply Forall_fmap_ext_1. eapply Forall_impl; [exact Hwf|].
      by intros ks [? _]. }
    by rewrite Hkeys.
  - generalize (map snd summaries). intros l.
    induction l as [|x l IH]; simpl; [constructor|]. by apply insertByQuantity_sorted.
Qed.

(** *** No open line is missing from the queue *)

Lemma summarizeItem_keeps menuItems selectedStation order summaries indexed k s o :
  (k, s) ∈ summaries → o ∈ individualOrders s →
  ∃ s', (k, s') ∈ summarizeItem menuItems selectedStation order summaries indexed
        ∧ o ∈ individualOrders s'.
Proof.
  intros Hin Ho. unfold summarizeItem. destruct indexed as [index item].
  destruct (isCompleted item); [by exists s|].
  destruct (negb _ && negb _); [by exists s|].
  by eapply addToSummary_keeps.
Qed.

Lemma summarizeItem_adds menuItems selectedStation order summaries index item :
  isCompleted item = false →
  shownAt selectedStation menuItems item →
  ∃ s occ, (groupKey item, s)
           ∈ summarizeItem menuItems selectedStation order summaries (index, item)
           ∧ occ ∈ individualOrders s
           ∧ orderId occ = order.1 ∧ itemIndex occ = index
           ∧ kds_quantity occ = oi_quantity item
           ∧ kds_notes occ = oi_notes item.
Proof.
  intros Hopen Hshown. unfold summarizeItem. rewrite Hopen.
  assert (Hstation : negb (bool_decide (selectedStation = "all"))
                     && negb (bool_decide (itemStationMap menuItems !! menuItemId item
                                           ≫= fst = Some selectedStation)) = false).
  { destruct Hshown as [Hall|Hst].
    - by rewrite (bool_decide_eq_true_2 _ Hall).
    - rewrite (bool_decide_eq_true_2 _ Hst). apply andb_false_r. }
  rewrite Hstation.
  match goal with
  | |- context [addToSummary ?key ?fresh ?q ?occ summaries] =>
      destruct (addToSummary_adds key fresh q occ summaries) as (s & Hin & Hocc);
        exists s, occ
  end.
  by repeat split.
Qed.

(** X23.  No open line is missing from the kitchen queue: every line of a
    fetched order that is not completed and is shown under the selected
    station is an occurrence of the group with its key, with its own
    quantity and note. *)
Theorem kitchen_queue_lists_every_open_line
    (orders : list (string * Order)) menuItems selectedStation id o i item :
  (id, o) ∈ orders →
  o_items o !! i = Some item →
  isCompleted item = false →
  shownAt selectedStation menuItems item →
  ∃ summary occ,
    summary ∈ itemSummaries orders menuItems selectedStation
    ∧ uniqueKey summary = groupKey item
    ∧ occ ∈ individualOrders summary
    ∧ orderId occ = id ∧ itemIndex occ = i
    ∧ kds_quantity occ = oi_quantity item ∧ kds_notes occ = oi_notes item.
Proof.
  intros Horder Hitem Hopen Hshown.
  set (C := λ summaries : list (string * KDSItemSummary),
         ∃ s occ, (groupKey item, s) ∈ summaries ∧ occ ∈ individualOrders s
                  ∧ orderId occ = id ∧ itemIndex occ = i
                  ∧ kds_quantity occ = oi_quantity item ∧ kds_notes occ = oi_notes item).
  assert (Hkeep : ∀ order summaries indexed,
            C summaries → C (summarizeItem menuItems selectedStation order summaries indexed)).
  { intros order summaries indexed (s & occ & Hin & Hocc & Hrest).
    destruct (summarizeItem_keeps menuItems selectedStation order summaries indexed _ _ _
                Hin Hocc) as (s' & Hin' & Hocc').
    by exists s', occ. }
  assert (Hinner_keep : ∀ order (l : list (nat * OrderItem)) summaries,
            C summaries →
            C (fold_left (summarizeItem menuItems selectedStation order) l summaries)).
  { intros order l. induction l as [|x l IH]; intros summaries HC; [done|].
    simpl. by apply IH, Hkeep. }
  assert (Hinner : ∀ (l : list (nat * OrderItem)) summaries,
            (i, item) ∈ l →
            C (fold_left (summarizeItem menuItems selectedStation (id, o)) l summaries)).
  { induction l as [|x l IH]; intros summaries Hin; [by apply elem_of_nil in Hin|].
    simpl. apply elem_of_cons in Hin as [<-|Hin]; [|by apply IH].
    apply Hinner_keep.
    destruct (summarizeItem_adds menuItems selectedStation (id, o) summaries i item
                Hopen Hshown) as (s & occ & Hin & Hocc & Hrest).
    by exists s, occ. }
  assert (Houter : ∀ (os : list (string * Order)) summaries,
            (id, o) ∈ os →
            C (fold_left (λ summaries order,
                            fold_left (summarizeItem menuItems selectedStation order)
                                      (imap pair (o_items order.2)) summaries)
                         os summaries)).
  { induction os as [|order os IH]; intros summaries Hin; [by apply elem_of_nil in Hin|].
    simpl. apply elem_of_cons in Hin as [<-|Hin]; [|by apply IH].
    apply (summaries_fold_ind C); [exact Hkeep|].
    apply Hinner. simpl. apply elem_of_lookup_imap. by exists i, item. }
  destruct (Houter orders [] Horder) as (s & occ & Hin & Hocc & Hrest).
  exists s, occ.
  assert (Hwf : Forall (λ ks, uniqueKey ks.2 = ks.1 ∧ wellFormedGroup ks.2)
                  (fold_left (λ summaries order,
                                fold_left (summarizeItem menuItems selectedStation order)
                                          (imap pair (o_items order.2)) summaries)
                             orders [])
                ∧ NoDup (map fst
                  (fold_left (λ summaries order,
                                fold_left (summarizeItem menuItems selectedStation order)
                                          (imap pair (o_items order.2)) summaries)
                             orders []))).
  { apply (summaries_fold_ind
             (λ summaries,
                Forall (λ ks, uniqueKey ks.2 = ks.1 ∧ wellFormedGroup ks.2) summaries
                ∧ NoDup (map fst summaries))).
    - intros order summaries indexed. apply summarizeItem_wellFormed.
    - split; constructor. }
  destruct Hwf as [Hwf _]. rewrite Forall_forall in Hwf.
  split; [|split; [by apply (Hwf _ Hin)|done]].
  unfold itemSummaries. rewrite foldr_insertByQuantity_Permutation.
  apply list_elem_of_fmap. by exists (groupKey item, s).
Qed.

Lemma kitchen_queue_lists_every_open_line_witness :
  ∃ summary occ,
    summary ∈ itemSummaries (activeOrders "r1" Sample.kitchenDb) [] "all"
    ∧ uniqueKey summary = "burger-none"
    ∧ occ ∈ individualOrders summary
    ∧ orderId occ = "o3" ∧ itemIndex occ = 1%nat.
Proof.
  destruct (kitchen_queue_lists_every_open_line (activeOrders "r1" Sample.kitchenDb) []
              "all" "o3"
              (Sample.openOrder "T3" [Sample.line "salad" true; Sample.line "burger" false]
                 InProgress 120)
              1%nat (Sample.line "burger" false))
    as (summary & occ & H1 & H2 & H3 & H4 & H5 & _).
  - apply (bool_decide_unpack _). vm_compute. exact I.
  - reflexivity.
  - reflexivity.
  - by left.
  - exists summary, occ. by repeat split.
Defined.

(** *** The timer *)

Lemma floor_mono (x y : Qc) : x ≤ y → floor x ≤ floor y.
Proof.
  unfold Qcle, floor. simpl. rewrite !Qred_correct. intros H.
  rewrite <- Zle_Qle. by apply Qfloor_resp_le.
Qed.

Lemma Qcdiv_le_compat (x y z : Qc) : 0 < z → x ≤ y → x / z ≤ y / z.
Proof.
  intros Hz Hxy. apply (Qcmult_lt_0_le_reg_r _ _ z Hz).
  assert (Hne : z ≠ 0) by (intros ->; by apply Qclt_not_eq in Hz).
  by rewrite !test_field.
Qed.

(** X24.  The timer of an occurrence only gets more urgent as time goes
    by: from green to amber to red, never back.  Without a target
    preparation time, or with one that is not positive, it stays green. *)
Theorem timer_only_gets_more_urgent (e1 e2 : Qc) (prep : option Qc) :
  e1 ≤ e2 →
  (urgency (timerColor e1 prep) ≤ urgency (timerColor e2 prep))%nat
  ∧ timerColor e1 None = green
  ∧ match prep with
    | Some p => if bool_decide (p ≤ 0) then timerColor e1 prep = green else True
    | None => True
    end.
Proof.
  intros He. split; [|split; [done|]].
  - unfold timerColor. destruct prep as [p|]; [|done].
    destruct (truthy_number p && bool_decide (0 < p)) eqn:Hp; [|done].
    apply andb_true_iff in Hp as [_ Hp%bool_decide_eq_true].
    assert (Hm : floor (e1 / qc 60 1) / p ≤ floor (e2 / qc 60 1) / p).
    { apply Qcdiv_le_compat; [done|]. apply floor_mono.
      apply Qcdiv_le_compat; [apply (qc_pos_gt0 60)|done]. }
    destruct (decide (qc 8 10 ≤ floor (e1 / qc 60 1) / p)) as [H8|H8].
    + rewrite (bool_decide_eq_true_2 _ H8).
      by rewrite (bool_decide_eq_true_2 (qc 8 10 ≤ floor (e2 / qc 60 1) / p))
        by (by eapply Qcle_trans).
    + rewrite (bool_decide_eq_false_2 _ H8).
      destruct (decide (qc 5 10 ≤ floor (e1 / qc 60 1) / p)) as [H5|H5].
      * rewrite (bool_decide_eq_true_2 _ H5).
        rewrite (bool_decide_eq_true_2 (qc 5 10 ≤ floor (e2 / qc 60 1) / p))
          by (by eapply Qcle_trans).
        case_bool_decide; simpl; lia.
      * rewrite (bool_decide_eq_false_2 _ H5). simpl. lia.
  - destruct prep as [p|]; [|done]. case_bool_decide as Hp; [|done].
    unfold timerColor.
    rewrite (bool_decide_eq_false_2 (0 < p)) by (by apply Qcle_not_lt).
    by rewrite andb_false_r.
Qed.

Lemma timer_only_gets_more_urgent_witness :
  timerColor 0 (Some (qc 10 1)) = green
  ∧ timerColor (qc 300 1) (Some (qc 10 1)) = amber
  ∧ timerColor (qc 600 1) (Some (qc 10 1)) = red
  ∧ (urgency (timerColor (qc 300 1) (Some (qc 10 1)))
     ≤ urgency (timerColor (qc 600 1) (Some (qc 10 1))))%nat.
Proof.
  split; [reflexivity|]. split; [reflexivity|]. split; [reflexivity|].
  refine (proj1 (timer_only_gets_more_urgent (qc 300 1) (qc 600 1) (Some (qc 10 1)) _)).
  by apply (bool_decide_unpack _).
Defined.

(** *** From the kitchen to the expo page *)

Lemma elem_of_expo_orders userId db id o :
  (id, o) ∈ ExpoPage.orders userId db
  ↔ db_orders db !! id = Some o ∧ o_userId o = userId
    ∧ (o_status o = InProgress ∨ o_status o = Ready).
Proof.
  unfold ExpoPage.orders. rewrite elem_of_sortByCreatedAt, elem_of_queryOrders.
  rewrite andb_true_iff, !bool_decide_eq_true, !elem_of_cons, elem_of_nil. tauto.
Qed.

Lemma elem_of_kitchen_orders userId db id o :
  (id, o) ∈ activeOrders userId db
  ↔ db_orders db !! id = Some o ∧ o_userId o = userId
    ∧ (o_status o = New ∨ o_status o = InProgress).
Proof.
  unfold activeOrders. rewrite elem_of_queryOrders.
  rewrite andb_true_iff, !bool_decide_eq_true, !elem_of_cons, elem_of_nil. tauto.
Qed.

Lemma elem_of_floor_orders userId db id o :
  (id, o) ∈ FloorPlanPage.activeOrders userId db
  ↔ db_orders db !! id = Some o ∧ o_userId o = userId
    ∧ (o_status o = Pending ∨ o_status o = New ∨ o_status o = InProgress
       ∨ o_status o = Ready).
Proof.
  unfold FloorPlanPage.activeOrders. rewrite elem_of_queryOrders.
  rewrite andb_true_iff, !bool_decide_eq_true, !elem_of_cons, elem_of_nil. tauto.
Qed.

(** X25.  When the last open line of an order is marked as done, the
    order becomes Ready: it leaves the kitchen queue and is listed on the
    expo page, whose payment button opens the POS on that order alone,
    with the table of the order. *)
Theorem last_line_done_moves_the_order_to_expo userId db id o i item :
  db_orders db !! id = Some o →
  o_userId o = userId →
  o_items o !! i = Some item →
  (∀ j it, j ≠ i → o_items o !! j = Some it → isCompleted it = true) →
  let db' := handleCompleteIndividual db id i in
  ∃ o', db_orders db' !! id = Some o'
        ∧ o_status o' = Ready
        ∧ (id, o') ∈ ExpoPage.orders userId db'
        ∧ (∀ o'', (id, o'') ∉ activeOrders userId db')
        ∧ (ExpoPage.posContext (id, o')).2 = Some [id]
        ∧ (ExpoPage.posContext (id, o')).1.2 = o_plateNumber o.
Proof.
  intros Ho Huser Hitem Hothers db'.
  pose proof (handleCompleteIndividual_cases db id i) as Hc. fold db' in Hc.
  rewrite Ho, bool_decide_eq_true_2 in Hc by (by eapply lookup_lt_Some).
  assert (Hdone : forallb isCompleted (alter complete i (o_items o)) = true).
  { apply forallb_isCompleted_Forall, Forall_lookup. intros j it.
    rewrite list_lookup_alter. case_decide as Hj.
    - subst j. rewrite Hitem. simpl. by intros [= <-].
    - by apply Hothers. }
  assert (Hst : o_status (completeLine i o) = Ready).
  { unfold completeLine. simpl. unfold newStatus. by rewrite Hdone. }
  assert (Hlk : db_orders db' !! id = Some (completeLine i o))
    by (rewrite Hc; simpl; apply lookup_insert_eq).
  exists (completeLine i o). split; [done|]. split; [done|]. split; [|split; [|done]].
  - apply elem_of_expo_orders. split; [done|]. split; [done|]. by right.
  - intros o'' (Hlk' & _ & Hst')%elem_of_kitchen_orders.
    rewrite Hlk in Hlk'. injection Hlk' as <-. rewrite Hst in Hst'.
    by destruct Hst'.
Qed.

Lemma last_line_done_moves_the_order_to_expo_witness :
  let db' := handleCompleteIndividual Sample.kitchenDb "o2" 0 in
  o_status <$> db_orders db' !! "o2" = Some Ready
  ∧ "o2" ∈ map fst (ExpoPage.orders "r1" db')
  ∧ "o2" ∉ map fst (activeOrders "r1" db').
Proof.
  intros db'.
  destruct (last_line_done_moves_the_order_to_expo "r1" Sample.kitchenDb "o2"
              (Sample.openOrder "T2" [Sample.line "burger" false] New 110) 0%nat
              (Sample.line "burger" false) eq_refl eq_refl eq_refl)
    as (o' & Hlk & Hst & Hexpo & Hkitchen & _).
  { intros [|j] it Hj; [done|]. by intros ?. }
  fold db' in Hlk, Hexpo, Hkitchen. split; [by rewrite Hlk; simpl; rewrite Hst|]. split.
  - apply list_elem_of_fmap. by exists ("o2", o').
  - intros ([id o''] & Hid & Hin)%list_elem_of_fmap. simpl in Hid. subst id.
    by apply (Hkitchen o'').
Defined.

(** X26.  Paying an order from the expo page: the POS opened by the
    payment button finalizes that order alone.  The order is Completed
    with the chosen payment method, every other order is as it was, and
    the order is gone from the expo page, from the kitchen queue and from
    the orders of the floor plan page. *)
Theorem paying_from_expo_completes_that_order
    userId allItems profile cart taxes identifier paymentMethod orderNotes db newOrderId
    now id o :
  (id, o) ∈ ExpoPage.orders userId db →
  cart ≠ [] →
  identifier ≠ "" →
  (∀ k, is_Some (POSModal.deductions allItems cart !! k) →
        is_Some (db_ingredients db !! k)) →
  let context := ExpoPage.posContext (id, o) in
  let db' := POSModal.handleFinalizeOrder userId context.1.1 context.1.2 context.2
               allItems profile cart taxes identifier paymentMethod orderNotes db
               newOrderId now in
  (∃ o', db_orders db' !! id = Some o'
         ∧ o_status o' = Completed ∧ o_paymentMethod o' = Some paymentMethod
         ∧ o_items o' = o_items o ∧ o_total o' = o_total o)
  ∧ (∀ id', id' ≠ id → db_orders db' !! id' = db_orders db !! id')
  ∧ (∀ o', ((id, o') ∉ ExpoPage.orders userId db')
           ∧ ((id, o') ∉ activeOrders userId db')
           ∧ ((id, o') ∉ FloorPlanPage.activeOrders userId db')).
Proof.
  intros Hin Hcart Hid Hings context db'. subst context db'.
  apply elem_of_expo_orders in Hin as (Ho & _ & _).
  unfold ExpoPage.posContext. simpl.
  match goal with
  | |- context [POSModal.handleFinalizeOrder userId ?ty ?tn (Some [id])] =>
      destruct (handleFinalizeOrder_listed userId ty tn [id] allItems profile cart taxes
                  identifier paymentMethod orderNotes db newOrderId now)
        as (dbF & -> & _ & Hlk & _)
  end.
  - unfold POSModal.nothingToSend. rewrite (bool_decide_eq_false_2 _ Hcart).
    destruct identifier; [done|]. simpl. apply andb_false_r.
  - done.
  - intros id' ->%list_elem_of_singleton. by eexists.
  - done.
  - assert (HlkF : db_orders dbF !! id
                   = Some (update_order (POSModal.completedUpdate paymentMethod) o)).
    { rewrite Hlk, bool_decide_eq_true_2 by apply list_elem_of_here. by rewrite Ho. }
    split; [|split].
    + eexists. split; [exact HlkF|]. by repeat split.
    + intros id' Hne. rewrite Hlk, bool_decide_eq_false_2; [done|].
      by rewrite list_elem_of_singleton.
    + intros o'. split; [|split].
      * intros (Hlk' & _ & Hst)%elem_of_expo_orders. rewrite HlkF in Hlk'.
        injection Hlk' as <-. simpl in Hst. by destruct Hst.
      * intros (Hlk' & _ & Hst)%elem_of_kitchen_orders. rewrite HlkF in Hlk'.
        injection Hlk' as <-. simpl in Hst. by destruct Hst.
      * intros (Hlk' & _ & Hst)%elem_of_floor_orders. rewrite HlkF in Hlk'.
        injection Hlk' as <-. simpl in Hst. by destruct Hst as [?|[?|[?|?]]].
Qed.

Lemma paying_from_expo_completes_that_order_witness :
  let order := Sample.openOrder "T1" [Sample.servings "dishA" (qc 2 1);
                                      Sample.servings "dishB" 1] Ready 100 in
  let context := ExpoPage.posContext ("o1", order) in
  ("o1", order) ∈ ExpoPage.orders "r1" Sample.stockDb
  ∧ context = (DineIn, Some "T1", Some ["o1"])
  ∧ o_status
      <$> db_orders (POSModal.handleFinalizeOrder "r1" context.1.1 context.1.2 context.2
                       Sample.menu2 Sample.profile1 (Sample.tableCart Sample.stockDb)
                       [Sample.vat5] "T1" card "" Sample.stockDb "n1" 200) !! "o1"
    = Some Completed.
Proof.
  intros order context.
  assert (Hin : ("o1", order) ∈ ExpoPage.orders "r1" Sample.stockDb)
    by (apply (bool_decide_unpack _); vm_compute; exact I).
  split; [exact Hin|]. split; [reflexivity|].
  destruct (paying_from_expo_completes_that_order "r1" Sample.menu2 Sample.profile1
              (Sample.tableCart Sample.stockDb) [Sample.vat5] "T1" card "" Sample.stockDb
              "n1" 200 "o1" order Hin)
    as ((o' & Hlk & Hst & _) & _).
  - discriminate.
  - discriminate.
  - intros k [q Hq]. destruct (decide (k = "X")) as [->|Hne]; [by eexists|].
    exfalso.
    assert (Hd : POSModal.deductions Sample.menu2 (Sample.tableCart Sample.stockDb)
                 = {[ "X" := qc 7 1 ]}) by by_eval.
    rewrite Hd in Hq. by rewrite lookup_singleton_ne in Hq.
  - fold context in Hlk. rewrite Hlk. simpl. by rewrite Hst.
Defined.

End KitchenMore.

(** ** The Z report *)









(** ** Submitting from the rapid-order screen *)

(** X29.  Submitting from the rapid-order screen writes to one order
    only, the one to append to or the new one, and never to ingredients
    or floor plans: no stock is taken and no table is marked.  With an
    empty cart, with a takeaway order without identifier, or when the
    order to append to does not exist, nothing is written; nor is it when
    the button is disabled because the cash tendered does not cover the
    total. *)
Theorem rapid_submit_writes_one_order
    restaurantId type orderIdToAppend cart taxes profile identifier paymentMethod
    orderNotes db newOrderId now :
  let submit := RapidOrderModal.handleSubmitOrder restaurantId type orderIdToAppend cart
                  taxes profile identifier paymentMethod orderNotes db newOrderId now in
  let target := submitTarget orderIdToAppend newOrderId in
  db_ingredients submit = db_ingredients db
  ∧ db_floorPlans submit = db_floorPlans db
  ∧ (∀ id, id ≠ target → db_orders submit !! id = db_orders db !! id)
  ∧ (if bool_decide (cart = [])
        || (bool_decide (type = Takeaway) && negb (truthy_string identifier))
     then submit = db
     else if bool_decide (target = newOrderId ∧ ¬ truthy_ostring orderIdToAppend)
     then db_orders submit !! target
          = Some (RapidOrderModal.newOrderData restaurantId type cart taxes profile
                    identifier paymentMethod orderNotes now)
     else db_orders submit !! target
          = (λ existingOrder,
               update_order (RapidOrderModal.appendUpdate cart taxes profile existingOrder)
                            existingOrder) <$> db_orders db !! target)
  ∧ (∀ tendered loading,
       tendered < RapidOrderModal.total cart taxes profile →
       RapidOrderModal.clickSubmit restaurantId type orderIdToAppend cart taxes profile
         identifier cash (Some tendered) orderNotes loading db newOrderId now = db)
  ∧ (∀ loading,
       RapidOrderModal.clickSubmit restaurantId type orderIdToAppend cart taxes profile
         identifier cash None orderNotes loading db newOrderId now = db).
Proof.
  intros submit target. subst submit target.
  split; [|split; [|split; [|split; [|split]]]].
  1-4: unfold RapidOrderModal.handleSubmitOrder, submitTarget, commit_or_keep;
       destruct (bool_decide (cart = [])
                 || (bool_decide (type = Takeaway) && negb (truthy_string identifier)));
       [done|]; destruct orderIdToAppend as [[|a s]|]; simpl;
       try destruct (db_orders db !! String a s) as [existingOrder|] eqn:Ho; simpl;
       rewrite ?Ho; simpl; try done.
  - intros id Hne. by rewrite lookup_insert_ne.
  - intros id Hne. by rewrite lookup_insert_ne.
  - intros id Hne. by rewrite lookup_insert_ne.
  - rewrite bool_decide_eq_true_2 by (split; [done|by intros ?]).
    by rewrite lookup_insert_eq.
  - rewrite bool_decide_eq_false_2 by (by intros [_ H]; apply H).
    by rewrite lookup_insert_eq.
  - rewrite bool_decide_eq_false_2 by (by intros [_ H]; apply H). done.
  - rewrite bool_decide_eq_true_2 by (split; [done|by intros ?]).
    by rewrite lookup_insert_eq.
  - intros tendered loading Hlt. unfold RapidOrderModal.clickSubmit,
      RapidOrderModal.submitDisabled.
    rewrite (bool_decide_eq_true_2 _ Hlt). simpl. by rewrite orb_true_r.
  - intros loading. unfold RapidOrderModal.clickSubmit, RapidOrderModal.submitDisabled.
    simpl. by rewrite orb_true_r.
Qed.

(** ** Consistent order figures *)

Lemma keepsSound_refl db : keepsSound db db.
Proof. intros id o' Ho' Hsound. by apply Hsound. Qed.

Lemma keepsSound_trans db1 db2 db3 :
  keepsSound db1 db2 → keepsSound db2 db3 → keepsSound db1 db3.
Proof.
  intros H12 H23 id o3 Ho3 Hsound. apply (H23 id o3 Ho3).
  intros o2 Ho2. by apply (H12 id o2 Ho2).
Qed.

Lemma apply_write_keepsSound db w db' :
  soundWriteAt db w → apply_write db w = Some db' → keepsSound db db'.
Proof.
  intros Hw Happly id o' Ho' Hsound. destruct w as [k data|k u|k delta|k ts]; simpl in *.
  - injection Happly as <-. simpl in Ho'.
    destruct (decide (k = id)) as [->|Hne].
    + rewrite lookup_insert_eq in Ho'. by injection Ho' as <-.
    + rewrite lookup_insert_ne in Ho' by done.
      destruct (db_orders db !! id) as [o|] eqn:Ho; [|done].
      injection Ho' as <-. by apply Hsound.
  - destruct (db_orders db !! k) as [o|] eqn:Ho; [|done]. simpl in Happly.
    injection Happly as <-. simpl in Ho'.
    destruct (decide (k = id)) as [->|Hne].
    + rewrite lookup_insert_eq in Ho'. injection Ho' as <-.
      apply Hw; [done|]. by apply Hsound.
    + rewrite lookup_insert_ne in Ho' by done. by apply Hsound.
  - destruct (db_ingredients db !! k); [|done]. simpl in Happly.
    injection Happly as <-. by apply Hsound.
  - destruct (db_floorPlans db !! k); [|done]. simpl in Happly.
    injection Happly as <-. by apply Hsound.
Qed.

Lemma commit_keepsSound batch : ∀ db db',
  Forall soundWrite batch → commit db batch = Some db' → keepsSound db db'.
Proof.
  induction batch as [|w batch IH]; intros db db' Hall Hcommit; simpl in Hcommit.
  - injection Hcommit as <-. apply keepsSound_refl.
  - apply Forall_cons in Hall as [Hw Hall].
    destruct (apply_write db w) as [db1|] eqn:Hw1; [|done]. simpl in Hcommit.
    eapply keepsSound_trans; [by eapply apply_write_keepsSound|by eapply IH].
Qed.

Lemma commit_or_keep_keepsSound db batch :
  Forall soundWrite batch → keepsSound db (commit_or_keep db batch).
Proof.
  intros Hall. unfold commit_or_keep.
  destruct (commit db batch) as [db'|] eqn:Hcommit; simpl.
  - by eapply commit_keepsSound.
  - apply keepsSound_refl.
Qed.

Lemma commit_or_keep_keepsSound_first db w batch :
  soundWriteAt db w → Forall soundWrite batch →
  keepsSound db (commit_or_keep db (w :: batch)).
Proof.
  intros Hw Hall. unfold commit_or_keep. simpl.
  destruct (apply_write db w) as [db1|] eqn:Hw1; simpl; [|apply keepsSound_refl].
  destruct (commit db1 batch) as [db'|] eqn:Hcommit; simpl; [|apply keepsSound_refl].
  eapply keepsSound_trans; [by eapply apply_write_keepsSound|by eapply commit_keepsSound].
Qed.

(** The orders the screens create are consistent. *)
Lemma new_orders_sound
    userId type profile cart taxes identifier paymentMethod orderNotes now :
  soundOrder (POSModal.newKitchenOrder userId type profile cart taxes identifier
                orderNotes now)
  ∧ soundOrder (POSModal.newFinalOrder userId type profile cart taxes identifier
                  paymentMethod orderNotes now)
  ∧ soundOrder (RapidOrderModal.newOrderData userId type cart taxes profile identifier
                  paymentMethod orderNotes now).
Proof.
  split; [|split].
  - split; [simpl; by rewrite itemsSubtotal_kitchenOrderItems|]. simpl.
    split; [|split; [|split; [|done]]].
    + eapply Forall_impl; [apply POS_appliedTaxesAt_amount|]. by intros t [? _].
    + unfold POSModal.taxAmount. rewrite fold_left_sum. ring.
    + unfold POSModal.total. ring.
  - split.
    { simpl. rewrite POS_subtotal_sum.
      unfold itemsSubtotal, POSModal.deductedOrderItems, POSModal.finalOrderItems.
      rewrite !map_map. f_equal. apply map_ext. intros line. simpl.
      rewrite fold_left_sum. unfold lineTotal. ring. }
    simpl. split; [|split; [|split; [|done]]].
    + eapply Forall_impl; [apply POS_appliedTaxesAt_amount|]. by intros t [? _].
    + unfold POSModal.taxAmount. rewrite fold_left_sum. ring.
    + unfold POSModal.total. ring.
  - split.
    { simpl. rewrite Rapid_subtotal_sum.
      unfold itemsSubtotal, RapidOrderModal.submitOrderItems.
      rewrite !map_map. f_equal. apply map_ext. intros line. simpl.
      rewrite fold_left_sum. unfold lineTotal. ring. }
    simpl. split; [|split; [|split; [|done]]].
    + eapply Forall_impl; [apply Rapid_appliedTaxesAt_amount|]. by intros t [? _].
    + unfold RapidOrderModal.taxAmount. rewrite fold_left_sum. ring.
    + unfold RapidOrderModal.total. ring.
Qed.

(** An append leaves a staff order consistent. *)
Lemma append_sound profile cart taxes existingOrder :
  soundOrder existingOrder →
  soundOrder (update_order (POSModal.appendUpdate profile cart taxes existingOrder)
                           existingOrder)
  ∧ soundOrder (update_order (RapidOrderModal.appendUpdate cart taxes profile existingOrder)
                             existingOrder).
Proof.
  intros (_ & _ & _ & _ & Hfee & Hdisc). split.
  - split; [|split; [|split; [|split; [|done]]]]; simpl.
    + rewrite fold_left_sum. unfold itemsSubtotal. ring.
    + eapply Forall_impl; [apply POS_appliedTaxesAt_amount|]. by intros t [? _].
    + rewrite (fold_left_sum amount). ring.
    + done.
  - split; [|split; [|split; [|split; [|done]]]]; simpl.
    + rewrite fold_left_sum. unfold itemsSubtotal. ring.
    + eapply Forall_impl; [apply Rapid_appliedTaxesAt_amount|]. by intros t [? _].
    + rewrite (fold_left_sum amount). ring.
    + done.
Qed.

Lemma itemsSubtotal_complete i (items : list OrderItem) :
  itemsSubtotal (alter KitchenDisplayPage.complete i items) = itemsSubtotal items.
Proof.
  unfold itemsSubtotal. revert i.
  induction items as [|item items IH]; intros [|i]; simpl; try done.
  change (list_alter KitchenDisplayPage.complete i items)
    with (alter KitchenDisplayPage.complete i items).
  by rewrite IH.
Qed.

Lemma completeLine_sound i o : soundOrder o → soundOrder (completeLine i o).
Proof.
  intros (Hsub & Hrest). split; [|exact Hrest].
  unfold completeLine. simpl. by rewrite itemsSubtotal_complete.
Qed.

Lemma handleCompleteIndividual_keepsSound db id i :
  keepsSound db (KitchenDisplayPage.handleCompleteIndividual db id i).
Proof.
  pose proof (handleCompleteIndividual_cases db id i) as Hcases.
  destruct (db_orders db !! id) as [o|] eqn:Ho;
    [|rewrite Hcases; apply keepsSound_refl].
  case_bool_decide; rewrite Hcases; [|apply keepsSound_refl].
  intros k o' Ho' Hsound. simpl in Ho'.
  destruct (decide (id = k)) as [->|Hne].
  - rewrite lookup_insert_eq in Ho'. injection Ho' as <-.
    apply completeLine_sound. by apply Hsound.
  - rewrite lookup_insert_ne in Ho' by done. by apply Hsound.
Qed.

Lemma completeEach_keepsSound occs : ∀ db, keepsSound db (completeEach db occs).
Proof.
  induction occs as [|occ occs IH]; intros db; [apply keepsSound_refl|].
  unfold completeEach. simpl.
  eapply keepsSound_trans; [apply handleCompleteIndividual_keepsSound|apply IH].
Qed.

Lemma handleBumpAll_keepsSound db summary :
  keepsSound db (KitchenDisplayPage.handleBumpAll db summary).
Proof.
  destruct (decide (Forall (validOccurrence db)
                           (KitchenDisplayPage.individualOrders summary))) as [Hvalid|Hstale].
  - rewrite handleBumpAll_completeEach by done. apply completeEach_keepsSound.
  - apply not_Forall_Exists in Hstale; [|apply _].
    apply Exists_exists in Hstale as (occ & Hin & Hocc). simpl in Hocc.
    unfold validOccurrence in Hocc.
    destruct (db_orders db !! KitchenDisplayPage.orderId occ) as [o|] eqn:Ho; [|done].
    unfold KitchenDisplayPage.handleBumpAll.
    rewrite (markOccurrences_stale occ); [apply keepsSound_refl|done|].
    exists o. split; [|lia]. rewrite fetchOrderDocs_lookup, bool_decide_eq_true_2; [done|].
    apply elem_of_remove_dups, list_elem_of_fmap. by exists occ.
Qed.

(** X30.  The staff screens keep the figures of the orders consistent.
    Whatever they are called with, sending to the kitchen, finalizing,
    submitting a rapid order, completing a line and bumping a group leave
    a consistent order (subtotal = sum of the items, tax amounts = rate
    shares of the subtotal, total = subtotal + taxes + tip, no fee, no
    discount) wherever there was a consistent order or none before: new
    orders are consistent, and appended and completed ones stay so.  A
    database of consistent orders therefore stays one, and each of its
    orders satisfies the total invariant. *)
Theorem staff_screens_keep_orders_consistent (db : Firestore) :
  (∀ userId type tableNumber orderIds profile cart taxes identifier orderNotes
     newOrderId now,
     keepsSound db (POSModal.handleSendToKitchen userId type tableNumber orderIds profile
                      cart taxes identifier orderNotes db newOrderId now))
  ∧ (∀ userId type tableNumber orderIds allItems profile cart taxes identifier
       paymentMethod orderNotes newOrderId now,
       keepsSound db (POSModal.handleFinalizeOrder userId type tableNumber orderIds
                        allItems profile cart taxes identifier paymentMethod orderNotes
                        db newOrderId now))
  ∧ (∀ restaurantId type orderIdToAppend cart taxes profile identifier paymentMethod
       orderNotes newOrderId now,
       keepsSound db (RapidOrderModal.handleSubmitOrder restaurantId type orderIdToAppend
                        cart taxes profile identifier paymentMethod orderNotes db
                        newOrderId now))
  ∧ (∀ id i, keepsSound db (KitchenDisplayPage.handleCompleteIndividual db id i))
  ∧ (∀ summary, keepsSound db (KitchenDisplayPage.handleBumpAll db summary))
  ∧ (∀ db', keepsSound db db' →
            map_Forall (λ _ o, soundOrder o) (db_orders db) →
            map_Forall (λ _ o, soundOrder o ∧ totalInvariant o) (db_orders db')).
Proof.
  split; [|split; [|split; [|split; [|split]]]].
  - intros. unfold POSModal.handleSendToKitchen.
    destruct (POSModal.nothingToSend type cart identifier); [apply keepsSound_refl|].
    unfold POSModal.sendToKitchenBatch.
    assert (Htables : Forall soundWrite
              (if bool_decide (type = DineIn) && negb (POSModal.hasOrderIds orderIds)
                  && truthy_ostring tableNumber
               then match db_floorPlans db !! userId with
                    | Some floorPlan =>
                        [UpdateTables userId
                           (POSModal.markTables tableNumber ordered (fp_tables floorPlan))]
                    | None => []
                    end
               else [])).
    { destruct (_ && _); [|constructor].
      destruct (db_floorPlans db !! userId); repeat constructor. }
    destruct orderIds as [[|first rest]|].
    + apply commit_or_keep_keepsSound_first; [|done].
      apply (new_orders_sound userId type profile cart taxes identifier cash orderNotes now).
    + destruct (db_orders db !! first) as [existingOrder|] eqn:Hfirst.
      * apply commit_or_keep_keepsSound_first; [|done].
        intros o Ho Hsound. rewrite Hfirst in Ho. injection Ho as <-.
        by apply append_sound.
      * by apply commit_or_keep_keepsSound.
    + apply commit_or_keep_keepsSound_first; [|done].
      apply (new_orders_sound userId type profile cart taxes identifier cash orderNotes now).
  - intros. unfold POSModal.handleFinalizeOrder.
    destruct (POSModal.nothingToSend type cart identifier); [apply keepsSound_refl|].
    apply commit_or_keep_keepsSound. unfold POSModal.finalizeBatch.
    apply Forall_app. split.
    { apply Forall_forall. intros w Hw.
      apply list_elem_of_fmap in Hw as ([k q] & -> & _). by intros ?. }
    destruct (POSModal.hasOrderIds orderIds).
    + apply Forall_app. split.
      * apply Forall_forall. intros w Hw.
        apply list_elem_of_fmap in Hw as (k & -> & _). by intros ? o _ Hsound.
      * destruct (truthy_ostring tableNumber); [|constructor].
        destruct (db_floorPlans db !! userId); repeat constructor.
    + constructor; [|constructor]. intros ?.
      apply (new_orders_sound userId type profile cart taxes identifier
               paymentMethod orderNotes now).
  - intros. unfold RapidOrderModal.handleSubmitOrder.
    destruct (_ || _); [apply keepsSound_refl|].
    destruct orderIdToAppend as [[|a s]|].
    + apply commit_or_keep_keepsSound_first; [|constructor].
      apply (new_orders_sound restaurantId type profile cart taxes identifier
               paymentMethod orderNotes now).
    + destruct (db_orders db !! String a s) as [existingOrder|] eqn:Hfirst;
        [|apply keepsSound_refl].
      apply commit_or_keep_keepsSound_first; [|constructor].
      intros o Ho Hsound. rewrite Hfirst in Ho. injection Ho as <-.
      by apply append_sound.
    + apply commit_or_keep_keepsSound_first; [|constructor].
      apply (new_orders_sound restaurantId type profile cart taxes identifier
               paymentMethod orderNotes now).
  - apply handleCompleteIndividual_keepsSound.
  - apply handleBumpAll_keepsSound.
  - intros db' Hkeeps Hsound id o' Ho'.
    assert (Ho : soundOrder o').
    { apply (Hkeeps id o' Ho'). intros o. apply Hsound. }
    split; [done|]. destruct Ho as (_ & _ & _ & Htotal & Hfee & Hdisc).
    unfold totalInvariant, discounts. rewrite Htotal, Hfee, Hdisc. simpl. ring.
Qed.
